(** * Budget guard: a shallow embedding of [infra/functions/budget_guard/main.py]

    The Cloud Function receives a budget notification, compares the spend
    ratio with a configured threshold and, when the guard fires, removes the
    public invoker grant of every configured Cloud Run service and restricts
    its ingress.

    The embedding follows the Python source function by function.  Python
    values are an inductive type of JSON-like data, [float] is IEEE binary64
    (the executable specification [SpecFloat] of the Standard Library),
    exceptions are results of an error monad, and everything the function
    does to the outside (log records, API calls, sleeping) is appended to a
    trace held in an explicit world. *)

From Stdlib Require Import ZArith QArith Bool String Ascii List Lia Lqa.
From Stdlib Require Import Strings.Byte.
From Stdlib Require Import Floats.SpecFloat.
Import ListNotations.

Set Implicit Arguments.
Set Warnings "-register-all".

Local Close Scope Q_scope.
Local Open Scope string_scope.
Local Open Scope list_scope.

(** ** Python values *)

(** [float]: IEEE 754 binary64, as CPython's [float]. *)
Definition float := spec_float.

Definition prec : Z := 53.
Definition emax : Z := 1024.

Definition fzero : float := S754_zero false.
Definition fdiv (x y : float) : float := SFdiv prec emax x y.
Definition flt (x y : float) : bool := SFltb x y.
Definition fle (x y : float) : bool := SFleb x y.
Definition feq (x y : float) : bool := SFeqb x y.

(** [x >= y] and [x > y] on Python floats are [y <= x] and [y < x]. *)
Definition fge (x y : float) : bool := fle y x.
Definition fgt (x y : float) : bool := flt y x.

Definition is_nan (x : float) : bool :=
  match x with S754_nan => true | _ => false end.

(** The value of an [int] as a [float], rounded to nearest even. *)
Definition float_of_Z (z : Z) : float := binary_normalize prec emax z 0 false.

(** What [json.loads] and the API client produce: [None], [bool], [int],
    [float], [str], [list] and [dict].  A [dict] is kept as an association
    list in insertion order; lookup takes the first entry of a key. *)
Inductive value : Type :=
| VNone
| VBool (b : bool)
| VInt (z : Z)
| VFloat (f : float)
| VStr (s : string)
| VList (l : list value)
| VDict (d : list (string * value)).

(** ** Exceptions and the pure error monad *)

Inductive exn : Type :=
| AttributeError
| TypeError
| ValueError
| OverflowError
| BinasciiError
| UnicodeDecodeError
| JSONDecodeError
| KeyError
| RuntimeError (detail : value)          (* "operation failed: {error}" *)
| TimeoutError (operation_name : value)  (* "operation timeout: {name}" *)
| ClientError (info : string).           (* whatever an API client call raises *)

Inductive res (A : Type) : Type :=
| Ok (a : A)
| Raise (e : exn).

Arguments Ok {A} a.
Arguments Raise {A} e.

Definition rbind {A B} (r : res A) (k : A -> res B) : res B :=
  match r with
  | Ok a => k a
  | Raise e => Raise e
  end.

Definition of_option {A} (e : exn) (o : option A) : res A :=
  match o with
  | Some a => Ok a
  | None => Raise e
  end.

(** ** The Python operations the source uses *)

(** Truth value of an object ([if x:], [not x], [x or y]). *)
Definition truthy (v : value) : bool :=
  match v with
  | VNone => false
  | VBool b => b
  | VInt z => negb (Z.eqb z 0)
  | VFloat f => match f with S754_zero _ => false | _ => true end
  | VStr s => negb (String.eqb s "")
  | VList l => match l with [] => false | _ => true end
  | VDict d => match d with [] => false | _ => true end
  end.

Fixpoint dict_lookup (d : list (string * value)) (k : string) : option value :=
  match d with
  | [] => None
  | (k', v) :: rest => if String.eqb k k' then Some v else dict_lookup rest k
  end.

(** [d[k] = v]: replace the entry of [k] in place, or add it at the end. *)
Fixpoint dict_set (d : list (string * value)) (k : string) (v : value)
  : list (string * value) :=
  match d with
  | [] => [(k, v)]
  | (k', v') :: rest =>
      if String.eqb k k' then (k', v) :: rest else (k', v') :: dict_set rest k v
  end.

(** [obj.get(k, default)]: only a [dict] has the method. *)
Definition py_get (obj : value) (k : string) (default : value) : res value :=
  match obj with
  | VDict d => Ok (match dict_lookup d k with Some v => v | None => default end)
  | _ => Raise AttributeError
  end.

(** [obj[k] = v] on a [dict]. *)
Definition py_setitem (obj : value) (k : string) (v : value) : res value :=
  match obj with
  | VDict d => Ok (VDict (dict_set d k v))
  | _ => Raise TypeError
  end.

(** [obj[k]] on a [dict]. *)
Definition py_getitem (obj : value) (k : string) : res value :=
  match obj with
  | VDict d => of_option KeyError (dict_lookup d k)
  | _ => Raise TypeError
  end.

Fixpoint chars (s : string) : list value :=
  match s with
  | EmptyString => []
  | String c rest => VStr (String c EmptyString) :: chars rest
  end.

(** The items a [for] loop or a comprehension visits: the elements of a
    list, the characters of a string, the keys of a dict. *)
Definition py_iter (v : value) : res (list value) :=
  match v with
  | VList l => Ok l
  | VStr s => Ok (chars s)
  | VDict d => Ok (map (fun kv => VStr (fst kv)) d)
  | _ => Raise TypeError
  end.

(** [v != s] for a string literal [s]: objects of another type are unequal. *)
Definition ne_str (v : value) (s : string) : bool :=
  match v with
  | VStr s' => negb (String.eqb s' s)
  | _ => true
  end.

(** [str.lower()].  Strings are byte strings here; on the ASCII letters this
    is Python's [lower], and no character outside ASCII lowers to a letter of
    the words [_to_bool] accepts. *)
Definition lower_ascii (c : ascii) : ascii :=
  let n := nat_of_ascii c in
  if andb (Nat.leb 65 n) (Nat.leb n 90) then ascii_of_nat (n + 32) else c.

Fixpoint lower (s : string) : string :=
  match s with
  | EmptyString => EmptyString
  | String c rest => String (lower_ascii c) (lower rest)
  end.

(** ** [_to_bool] *)

Definition truthy_words : list string := ["1"; "true"; "yes"; "on"].

Definition _to_bool (value : option string) : bool :=
  match value with
  | None => false
  | Some v => existsb (String.eqb (lower v)) truthy_words
  end.

(** ** Library functions

    [float] applied to a string, [base64.b64decode], [bytes.decode("utf-8")]
    and [json.loads] belong to the Python library, not to the repository.
    The embedding takes them as an interface; [None] is the exception the
    function raises on input it rejects. *)
Class Builtins : Type := {
  float_of_string : string -> option float;
  b64decode : string -> option (list byte);
  utf8_decode : list byte -> option string;
  json_loads : string -> option value
}.

(** ** The world

    The remote API is a black box: the reply to the n-th client call (its
    outcome and the time it took) is read from [oracle].  [trace] records, in
    order, everything the invocation did to the outside.  Times are exact
    rationals, in seconds; the rounding of the float that [time.time()]
    returns is not modelled. *)

Inductive Level : Type := INFO | WARNING | ERROR.

Inductive LogRecord : Type :=
| LogPayloadEmpty
| LogInvalidBudget (budget_amount : float)
| LogBudgetUpdate (cost_amount budget_amount ratio : float) (display_name : value)
| LogSkipGuard (ratio threshold : float)
| LogMissingEnv
| LogRestricting (service_name : string)
| LogFinished (services : nat)
| LogDryRunInvoker (service_name : string)
| LogDryRunIngress (service_name : string).

Inductive Event : Type :=
| ELog (lvl : Level) (r : LogRecord)
| EAuthDefault
| ECredentialsRefresh
| EBuild
| EGetIamPolicy (resource : string)
| ESetIamPolicy (resource : string) (body : value)
| EPatch (name : string) (updateMask : string) (body : value)
| EGetOperation (name : value)
| ESleep (secs : Z).

(** A duration that cannot be negative: [d_num / d_den] seconds. *)
Record delay : Type := { d_num : N; d_den : positive }.

Definition seconds (d : delay) : Q := Qmake (Z.of_N (d_num d)) (d_den d).

(** What a client call comes back with: a response, or an exception of the
    client library (an HTTP error, a transport error). *)
Inductive answer : Type :=
| Returns (response : value)
| Fails (info : string).

Definition outcome_of (a : answer) : res value :=
  match a with
  | Returns response => Ok response
  | Fails info => Raise (ClientError info)
  end.

Record Reply : Type := { latency : delay; outcome : answer }.

Record World : Type := {
  environ : string -> option string;   (* os.environ *)
  clock : Q;                           (* time.time(), in seconds *)
  oracle : nat -> Reply;               (* replies of the remote side *)
  served : nat;                        (* client calls made so far *)
  trace : list Event
}.

(** A computation reads and changes the world and returns or raises; [None]
    is a loop that was cut off by its fuel. *)
Definition M (A : Type) : Type := World -> option (res A * World).

Definition ret {A} (a : A) : M A := fun w => Some (Ok a, w).

Definition raise {A} (e : exn) : M A := fun w => Some (Raise e, w).

Definition bind {A B} (m : M A) (k : A -> M B) : M B :=
  fun w =>
    match m w with
    | None => None
    | Some (Raise e, w') => Some (Raise e, w')
    | Some (Ok a, w') => k a w'
    end.

Definition lift {A} (r : res A) : M A := fun w => Some (r, w).

Declare Scope m_scope.
Delimit Scope m_scope with M.
Notation "x <- m ;; k" := (bind m (fun x => k))
  (at level 61, m at next level, right associativity) : m_scope.
Notation "m ;;; k" := (bind m (fun _ => k))
  (at level 61, right associativity) : m_scope.

Declare Scope res_scope.
Delimit Scope res_scope with R.
Notation "x <- m ;; k" := (rbind m (fun x => k))
  (at level 61, m at next level, right associativity) : res_scope.

Definition emit (ev : Event) (w : World) : World :=
  {| environ := environ w; clock := clock w; oracle := oracle w;
     served := served w; trace := trace w ++ [ev] |}.

(** [logging.info], [logging.warning], [logging.error]. *)
Definition log (lvl : Level) (r : LogRecord) : M unit :=
  fun w => Some (Ok tt, emit (ELog lvl r) w).

(** The reply the next client call will get. *)
Definition next_reply (w : World) : Reply := oracle w (served w).

Definition after_call (ev : Event) (w : World) : World :=
  {| environ := environ w;
     clock := Qplus (clock w) (seconds (latency (next_reply w)));
     oracle := oracle w;
     served := S (served w);
     trace := trace w ++ [ev] |}.

(** One call of an API client, [....execute()] included: the call is
    recorded, the clock advances by the latency of the reply, and the reply
    is returned or raised. *)
Definition external (ev : Event) : M value :=
  fun w => Some (outcome_of (outcome (next_reply w)), after_call ev w).

(** [time.sleep(secs)]. *)
Definition after_sleep (secs : Z) (w : World) : World :=
  {| environ := environ w;
     clock := Qplus (clock w) (inject_Z secs);
     oracle := oracle w;
     served := served w;
     trace := trace w ++ [ESleep secs] |}.

Definition sleep (secs : Z) : M unit :=
  fun w => Some (Ok tt, after_sleep secs w).

(** [os.getenv(name)] and [os.getenv(name, default)]. *)
Definition getenv (name : string) : M (option string) :=
  fun w => Some (Ok (environ w name), w).

Definition env_or (w : World) (name default : string) : string :=
  match environ w name with Some v => v | None => default end.

Definition getenv_default (name default : string) : M string :=
  fun w => Some (Ok (env_or w name default), w).

(** [x < y] on the clock. *)
Definition Qltb (x y : Q) : bool := negb (Qle_bool y x).

(** ** String helpers of the orchestrator *)

(** [s.split(sep)] for a one-character separator. *)
Fixpoint split_on (sep : ascii) (s : string) : list string :=
  match s with
  | EmptyString => [EmptyString]
  | String c rest =>
      if Ascii.eqb c sep then EmptyString :: split_on sep rest
      else match split_on sep rest with
           | h :: t => String c h :: t
           | [] => [String c EmptyString]
           end
  end.

(** A [str] is held as the bytes of its UTF-8 form, which is how the value
    of an environment variable reaches the program: [os.environ] decodes the
    bytes as UTF-8, and a byte that does not decode becomes one lone
    surrogate, a character that is neither white space nor a comma.  A
    character of several bytes begins with a byte from 0xC2 on and goes on
    with bytes from 0x80 to 0xBF, so no byte inside a character is the
    comma or the first byte of a white space character: [split(",")] and
    [strip()] on the bytes give the bytes of what they give on the
    characters. *)

(** The UTF-8 bytes of a code point below U+10000. *)
Definition utf8 (point : N) : string :=
  let unit (n : N) := String (ascii_of_N n) EmptyString in
  if (point <? 0x80)%N then unit point
  else if (point <? 0x800)%N then
    (unit (0xC0 + point / 0x40)%N ++ unit (0x80 + point mod 0x40)%N)%string
  else
    (unit (0xE0 + point / 0x1000)%N ++ unit (0x80 + (point / 0x40) mod 0x40)%N
       ++ unit (0x80 + point mod 0x40)%N)%string.

(** The characters on which [str.isspace] is true, which are the ones
    [str.strip()] removes: tab to carriage return, the separators U+001C to
    U+001F, the space, next line, the no-break space, the ogham space mark,
    en quad to hair space, the line and the paragraph separator, the narrow
    no-break space, the medium mathematical space, the ideographic space. *)
Definition whitespace : list N :=
  [ 0x09; 0x0A; 0x0B; 0x0C; 0x0D; 0x1C; 0x1D; 0x1E; 0x1F; 0x20; 0x85; 0xA0;
    0x1680; 0x2000; 0x2001; 0x2002; 0x2003; 0x2004; 0x2005; 0x2006; 0x2007;
    0x2008; 0x2009; 0x200A; 0x2028; 0x2029; 0x202F; 0x205F; 0x3000 ]%N.

Definition spaces : list string := map utf8 whitespace.

(** [s] without [p] at its beginning, when it begins with [p]. *)
Fixpoint after_prefix (p s : string) : option string :=
  match p, s with
  | EmptyString, _ => Some s
  | String a p', String b s' => if Ascii.eqb a b then after_prefix p' s' else None
  | String _ _, EmptyString => None
  end.

Fixpoint after_any (candidates : list string) (s : string) : option string :=
  match candidates with
  | [] => None
  | p :: others =>
      match after_prefix p s with
      | Some rest => Some rest
      | None => after_any others s
      end
  end.

(** [s] without its first character, when that is white space. *)
Definition after_space (s : string) : option string := after_any spaces s.

(** [s.lstrip()]: white space is taken off the beginning while there is
    some; [fuel] bounds the turns, and the length of the string is enough
    of it ([lstrip_equation]). *)
Fixpoint lstrip_loop (fuel : nat) (s : string) : string :=
  match fuel with
  | O => s
  | S fuel' =>
      match after_space s with
      | Some rest => lstrip_loop fuel' rest
      | None => s
      end
  end.

Definition lstrip (s : string) : string := lstrip_loop (String.length s) s.

(** [s.rstrip()]: the string up to the first place from which on there is
    white space only. *)
Fixpoint rstrip (s : string) : string :=
  match s with
  | EmptyString => EmptyString
  | String c rest =>
      if String.eqb (lstrip s) EmptyString then EmptyString
      else String c (rstrip rest)
  end.

(** [s.strip()] *)
Definition strip (s : string) : string := rstrip (lstrip s).

(** [[service.strip() for service in services_raw.split(",") if service.strip()]] *)
Definition parse_services (services_raw : string) : list string :=
  map strip
    (filter (fun service => negb (String.eqb (strip service) EmptyString))
            (split_on "," services_raw)).

(** [f"projects/{project_id}/locations/{region}/services/{service}"] *)
Definition service_path (project_id region service : string) : string :=
  "projects/" ++ project_id ++ "/locations/" ++ region ++ "/services/" ++ service.

(** The event a function is triggered with: only [.data] is read. *)
Record CloudEvent : Type := { ce_data : value }.

(** ** The policy rewrite of [_drop_public_invoker], lines 46 to 59 *)

Definition invoker_role : string := "roles/run.invoker".
Definition all_users : string := "allUsers".

(** [member != "allUsers"], the test of the comprehension on line 53. *)
Definition not_public (member : value) : bool := ne_str member all_users.

(** One turn of the [for binding in bindings] loop on the two accumulators
    [updated_bindings] and [removed]. *)
Definition rewrite_step (acc : list value * bool) (binding : value)
  : res (list value * bool) :=
  let '(updated_bindings, removed) := acc in
  (role <- py_get binding "role" VNone ;;
   members <- py_get binding "members" (VList []) ;;
   if ne_str role invoker_role then Ok (updated_bindings ++ [binding], removed)
   else
     items <- py_iter members ;;
     let filtered_members := filter not_public items in
     let removed' :=
       if Nat.eqb (length filtered_members) (length items) then removed else true in
     match filtered_members with
     | [] => Ok (updated_bindings, removed')
     | _ :: _ =>
         copied <- py_setitem binding "members" (VList filtered_members) ;;
         Ok (updated_bindings ++ [copied], removed')
     end)%R.

Fixpoint rewrite_loop (bindings : list value) (acc : list value * bool)
  : res (list value * bool) :=
  match bindings with
  | [] => Ok acc
  | binding :: rest =>
      (acc' <- rewrite_step acc binding ;; rewrite_loop rest acc')%R
  end.

(** The rewrite of a whole policy: [updated_bindings] and [removed] as they
    stand when the loop ends. *)
Definition rewrite_policy (policy : value) : res (list value * bool) :=
  (bindings <- py_get policy "bindings" (VList []) ;;
   items <- py_iter bindings ;;
   rewrite_loop items ([], false))%R.

Section Program.

Context {B : Builtins}.

(** [float(v)] *)
Definition py_float (v : value) : res float :=
  match v with
  | VFloat f => Ok f
  | VInt z =>
      match float_of_Z z with
      | S754_infinity _ => Raise OverflowError
      | f => Ok f
      end
  | VBool b => Ok (float_of_Z (if b then 1 else 0))
  | VStr s => of_option ValueError (float_of_string s)
  | _ => Raise TypeError
  end.

(** [float(payload.get(key, 0))], the way lines 94 and 95 read an amount. *)
Definition amount (payload : value) (key : string) : res float :=
  (v <- py_get payload key (VInt 0) ;; py_float v)%R.

(** [payload.get("budgetDisplayName")], an argument of the log call. *)
Definition display_name_of (payload : value) : res value :=
  py_get payload "budgetDisplayName" VNone.

(** ** [_parse_payload] *)

(** Lines 20 and 21: the [data] field of the message, [""] when absent. *)
Definition encoded_data (cloud_event : CloudEvent) : res value :=
  let data := ce_data cloud_event in
  (message <- py_get (if truthy data then data else VDict []) "message" (VDict []) ;;
   py_get message "data" (VStr ""))%R.

Definition _parse_payload (cloud_event : CloudEvent) : res value :=
  (encoded <- encoded_data cloud_event ;;
   if negb (truthy encoded) then Ok (VDict [])
   else
     match encoded with
     | VStr s =>
         raw <- of_option BinasciiError (b64decode s) ;;
         decoded <- of_option UnicodeDecodeError (utf8_decode raw) ;;
         of_option JSONDecodeError (json_loads decoded)
     | _ => Raise TypeError
     end)%R.

(** ** [_wait_operation] *)

(** The [while] loop; [clock w] is what [time.time()] returns and [fuel]
    bounds the number of turns. *)
Fixpoint wait_loop (fuel : nat) (operation_name : value) (deadline : Q) : M unit :=
  fun w =>
    if Qltb (clock w) deadline then
      match fuel with
      | O => None
      | S fuel' =>
          (operation <- external (EGetOperation operation_name) ;;
           done <- lift (py_get operation "done" VNone) ;;
           if truthy done then
             error <- lift (py_get operation "error" VNone) ;;
             if truthy error then
               detail <- lift (py_getitem operation "error") ;;
               raise (RuntimeError detail)
             else ret tt
           else
             sleep 2 ;;;
             wait_loop fuel' operation_name deadline)%M w
      end
    else raise (TimeoutError operation_name) w.

(** Turns that are always enough: every turn sleeps two seconds. *)
Definition wait_fuel (timeout_seconds : Z) : nat := S (Z.to_nat timeout_seconds).

(** The default of the parameter [timeout_seconds]. *)
Definition default_timeout_seconds : Z := 120.

Definition _wait_operation (operation_name : value) (timeout_seconds : Z) : M unit :=
  fun w =>
    let deadline := Qplus (clock w) (inject_Z timeout_seconds) in
    wait_loop (wait_fuel timeout_seconds) operation_name deadline w.

(** ** [_drop_public_invoker] *)

Definition _drop_public_invoker (service_name : string) (dry_run : bool) : M bool :=
  (policy <- external (EGetIamPolicy service_name) ;;
   rewritten <- lift (rewrite_policy policy) ;;
   let '(updated_bindings, removed) := rewritten in
   if negb removed then ret false
   else if dry_run then
     log INFO (LogDryRunInvoker service_name) ;;;
     ret true
   else
     policy' <- lift (py_setitem policy "bindings" (VList updated_bindings)) ;;
     _ <- external (ESetIamPolicy service_name (VDict [("policy", policy')])) ;;
     ret true)%M.

(** ** [_restrict_ingress] *)

Definition ingress_body : value :=
  VDict [("ingress", VStr "INGRESS_TRAFFIC_INTERNAL_ONLY")].

Definition _restrict_ingress (service_name : string) (dry_run : bool) : M unit :=
  (if dry_run then log INFO (LogDryRunIngress service_name)
   else
     operation <- external (EPatch service_name "ingress" ingress_body) ;;
     operation_name <- lift (py_get operation "name" VNone) ;;
     if truthy operation_name
     then _wait_operation operation_name default_timeout_seconds
     else ret tt)%M.

(** ** [handle_budget_alert] *)

(** The body of the [for service in services] loop. *)
Definition guard_service (project_id region : string) (dry_run : bool)
  (service : string) : M unit :=
  (let service_name := service_path project_id region service in
   log INFO (LogRestricting service_name) ;;;
   _ <- _drop_public_invoker service_name dry_run ;;
   _restrict_ingress service_name dry_run)%M.

(** The [for] loop: the body on each service in turn, until one raises. *)
Fixpoint for_each (body : string -> M unit) (services : list string) : M unit :=
  match services with
  | [] => ret tt
  | service :: rest => (body service ;;; for_each body rest)%M
  end.

(** Lines 125 to 129: the credentials and the API clients. *)
Definition acquire_clients : M unit :=
  (_ <- external EAuthDefault ;;
   _ <- external ECredentialsRefresh ;;
   _ <- external EBuild ;;
   ret tt)%M.

(** Lines 116 to 137: what the invocation does once the guard has fired. *)
Definition remediate (dry_run : bool) : M unit :=
  (project_id <- getenv "GCP_PROJECT_ID" ;;
   region <- getenv_default "CLOUD_RUN_REGION" "us-central1" ;;
   services_raw <- getenv_default "CLOUD_RUN_SERVICES" "" ;;
   let services := parse_services services_raw in
   match project_id, services with
   | Some project, _ :: _ =>
       if String.eqb project EmptyString then log ERROR LogMissingEnv
       else
         acquire_clients ;;;
         for_each (guard_service project region dry_run) services ;;;
         log INFO (LogFinished (length services))
   | _, _ => log ERROR LogMissingEnv
   end)%M.

(** The entry point.  [os.getenv] is read where the source reads it; the
    conversions of lines 94 to 96 may raise before the budget is looked at. *)
Definition handle_budget_alert (cloud_event : CloudEvent) : M unit :=
  (payload <- lift (_parse_payload cloud_event) ;;
   if negb (truthy payload) then log WARNING LogPayloadEmpty
   else
     cost_amount <- lift (amount payload "costAmount") ;;
     budget_amount <- lift (amount payload "budgetAmount") ;;
     threshold_raw <- getenv_default "BUDGET_STOP_THRESHOLD" "1.0" ;;
     threshold <- lift (of_option ValueError (float_of_string threshold_raw)) ;;
     dry_run_raw <- getenv "BUDGET_GUARD_DRY_RUN" ;;
     let dry_run := _to_bool dry_run_raw in
     if fle budget_amount fzero then log WARNING (LogInvalidBudget budget_amount)
     else
       let ratio := fdiv cost_amount budget_amount in
       display_name <- lift (display_name_of payload) ;;
       log INFO (LogBudgetUpdate cost_amount budget_amount ratio display_name) ;;;
       if flt ratio threshold then log INFO (LogSkipGuard ratio threshold)
       else remediate dry_run)%M.

End Program.

(** ** Sample library functions and worlds

    Concrete stand-ins for the library interface, used to run the embedding
    on examples: a decoder of well-formed base64, a UTF-8 decoder for ASCII
    input, and tables for [json.loads] and [float] that agree with Python on
    the texts they list and reject every other text. *)

Definition sextet (c : ascii) : option N :=
  let n := N_of_ascii c in
  if andb (N.leb 65 n) (N.leb n 90) then Some (n - 65)%N
  else if andb (N.leb 97 n) (N.leb n 122) then Some (n - 71)%N
  else if andb (N.leb 48 n) (N.leb n 57) then Some (n + 4)%N
  else if N.eqb n 43 then Some 62%N
  else if N.eqb n 47 then Some 63%N
  else None.

Definition is_pad (c : ascii) : bool := Ascii.eqb c "=".

Definition octets (l : list N) : option (list byte) :=
  fold_right
    (fun n acc =>
       match Byte.of_N n, acc with
       | Some b, Some bs => Some (b :: bs)
       | _, _ => None
       end)
    (Some []) l.

Fixpoint b64_groups (l : list ascii) : option (list byte) :=
  match l with
  | [] => Some []
  | a :: b :: c :: d :: rest =>
      match sextet a, sextet b with
      | Some x, Some y =>
          if is_pad d then
            match rest with
            | [] =>
                if is_pad c then octets [x * 4 + y / 16]%N
                else match sextet c with
                     | Some z => octets [x * 4 + y / 16; (y mod 16) * 16 + z / 4]%N
                     | None => None
                     end
            | _ :: _ => None
            end
          else
            match sextet c, sextet d, b64_groups rest with
            | Some z, Some t, Some tail =>
                match octets [x * 4 + y / 16; (y mod 16) * 16 + z / 4;
                              (z mod 4) * 64 + t]%N with
                | Some bs => Some (bs ++ tail)
                | None => None
                end
            | _, _, _ => None
            end
      | _, _ => None
      end
  | _ => None
  end.

Definition sample_b64decode (s : string) : option (list byte) :=
  b64_groups (list_ascii_of_string s).

Definition sample_utf8_decode (raw : list byte) : option string :=
  if forallb (fun b => N.ltb (Byte.to_N b) 128) raw
  then Some (string_of_list_byte raw) else None.

Fixpoint table_lookup {A} (t : list (string * A)) (k : string) : option A :=
  match t with
  | [] => None
  | (k', a) :: rest => if String.eqb k k' then Some a else table_lookup rest k
  end.

(** The text a base64 string stands for. *)
Definition text_of (encoded : string) : string :=
  match sample_b64decode encoded with
  | Some raw => match sample_utf8_decode raw with Some s => s | None => "" end
  | None => ""
  end.

Definition finf : float := S754_infinity false.

(** Base64 of the JSON texts
    [{"costAmount": 120, "budgetAmount": 100}],
    [{"costAmount": 50, "budgetAmount": 100}],
    [{"costAmount": Infinity, "budgetAmount": Infinity}],
    [{"costAmount": 120}], [{"budgetAmount": 100}],
    [{"costAmount": 120, "budgetAmount": 0}] and of the cut-off text
    [{"costAmount": 120,]. *)
Definition b64_over : string :=
  "eyJjb3N0QW1vdW50IjogMTIwLCAiYnVkZ2V0QW1vdW50IjogMTAwfQ==".
Definition b64_under : string :=
  "eyJjb3N0QW1vdW50IjogNTAsICJidWRnZXRBbW91bnQiOiAxMDB9".
Definition b64_inf : string :=
  "eyJjb3N0QW1vdW50IjogSW5maW5pdHksICJidWRnZXRBbW91bnQiOiBJbmZpbml0eX0=".
Definition b64_no_budget : string := "eyJjb3N0QW1vdW50IjogMTIwfQ==".
Definition b64_no_cost : string := "eyJidWRnZXRBbW91bnQiOiAxMDB9".
Definition b64_zero_budget : string :=
  "eyJjb3N0QW1vdW50IjogMTIwLCAiYnVkZ2V0QW1vdW50IjogMH0=".
Definition b64_cut_off : string := "eyJjb3N0QW1vdW50IjogMTIwLA==".

Definition json_table : list (string * value) :=
  [ (text_of b64_over, VDict [("costAmount", VInt 120); ("budgetAmount", VInt 100)]);
    (text_of b64_under, VDict [("costAmount", VInt 50); ("budgetAmount", VInt 100)]);
    (text_of b64_inf,
     VDict [("costAmount", VFloat finf); ("budgetAmount", VFloat finf)]);
    (text_of b64_no_budget, VDict [("costAmount", VInt 120)]);
    (text_of b64_no_cost, VDict [("budgetAmount", VInt 100)]);
    (text_of b64_zero_budget,
     VDict [("costAmount", VInt 120); ("budgetAmount", VInt 0)]) ].

Definition float_table : list (string * float) :=
  [ ("1.0", float_of_Z 1); ("1", float_of_Z 1); ("2", float_of_Z 2);
    ("0", fzero); ("nan", S754_nan); ("inf", finf) ].

Definition sample_builtins : Builtins := {|
  float_of_string := table_lookup float_table;
  b64decode := sample_b64decode;
  utf8_decode := sample_utf8_decode;
  json_loads := table_lookup json_table
|}.

(** A Pub/Sub event carrying [encoded] as its message data. *)
Definition event_of (encoded : string) : CloudEvent :=
  {| ce_data := VDict [("message", VDict [("data", VStr encoded)])] |}.

Definition one_second : delay := {| d_num := 1; d_den := 1 |}.

Definition replies (l : list answer) : nat -> Reply :=
  fun n => {| latency := one_second; outcome := nth n l (Returns (VDict [])) |}.

Definition world_of (env : list (string * string)) (l : list answer) : World :=
  {| environ := table_lookup env; clock := 0%Q; oracle := replies l;
     served := 0; trace := [] |}.

Definition grant (role : string) (members : list string) : value :=
  VDict [("role", VStr role); ("members", VList (map VStr members))].

Definition policy_of (bindings : list value) : value :=
  VDict [("version", VInt 1); ("bindings", VList bindings); ("etag", VStr "BwX")].

Definition sample_env : list (string * string) :=
  [ ("GCP_PROJECT_ID", "city"); ("CLOUD_RUN_SERVICES", "web, api") ].

Definition dry_env : list (string * string) :=
  ("BUDGET_GUARD_DRY_RUN", "TRUE") :: sample_env.

Definition public_policy : value :=
  policy_of [ grant "roles/run.admin" ["user:ops@example.com"; "allUsers"];
              grant "roles/run.invoker" ["allUsers"; "user:dev@example.com"];
              grant "roles/run.invoker" ["allUsers"] ].

Definition private_policy : value :=
  policy_of [ grant "roles/run.admin" ["user:ops@example.com"; "allUsers"];
              grant "roles/run.invoker" ["user:dev@example.com"] ].

(** The rewrite of [public_policy]: the invoker binding keeps its one
    private member and the binding of the public member alone is gone. *)
Definition trimmed_bindings : list value :=
  [ grant "roles/run.admin" ["user:ops@example.com"; "allUsers"];
    grant "roles/run.invoker" ["user:dev@example.com"] ].

Definition operation_name : value := VStr "operations/op-1".

Definition pending_operation : value :=
  VDict [("name", operation_name); ("done", VBool false)].

Definition done_operation : value :=
  VDict [("name", operation_name); ("done", VBool true)].

Definition failed_operation : value :=
  VDict [("name", operation_name); ("done", VBool true);
         ("error", VDict [("code", VInt 13); ("message", VStr "internal")])].

(** Done, with an error field that is an empty object. *)
Definition odd_operation : value :=
  VDict [("name", operation_name); ("done", VBool true); ("error", VDict [])].

(** Replies of a remote side on which everything succeeds, for the services
    [web] and [api]: credentials, refresh, client; for [web] the policy, the
    policy write, a patch that starts an operation, a poll that finds it
    pending and one that finds it done; for [api] a policy without public
    grant and a patch that completes at once. *)
Definition healthy_replies : list answer :=
  [ Returns VNone; Returns VNone; Returns VNone;
    Returns public_policy; Returns private_policy;
    Returns pending_operation; Returns pending_operation; Returns done_operation;
    Returns private_policy; Returns (VDict []) ].

(** The same, but the operation on [web] ends in an error. *)
Definition failing_replies : list answer :=
  [ Returns VNone; Returns VNone; Returns VNone;
    Returns public_policy; Returns private_policy;
    Returns pending_operation; Returns failed_operation;
    Returns private_policy; Returns (VDict []) ].

Definition web_name : string := "projects/city/locations/us-central1/services/web".
Definition api_name : string := "projects/city/locations/us-central1/services/api".

(** The world a computation leaves, for worlds too long to write down. *)
Definition world_after {A} (m : M A) (w : World) : World :=
  match m w with
  | Some (_, w') => w'
  | None => w
  end.

(** The result of a run and the trace it leaves. *)
Definition run_trace {A} (m : M A) (w : World) : option (res A * list Event) :=
  option_map (fun rw => (fst rw, trace (snd rw))) (m w).

(** ** Reading a policy

    The vocabulary in which the properties of the rewrite are stated. *)

(** The bindings a policy holds, as the loop visits them. *)
Definition bindings_of (policy : value) : res (list value) :=
  (bindings <- py_get policy "bindings" (VList []) ;; py_iter bindings)%R.

(** The binding grants the invoker role. *)
Definition is_invoker (binding : value) : bool :=
  match py_get binding "role" VNone with
  | Ok role => negb (ne_str role invoker_role)
  | Raise _ => false
  end.

(** The members of a binding, as the comprehension visits them. *)
Definition members_of (binding : value) : res (list value) :=
  (members <- py_get binding "members" (VList []) ;; py_iter members)%R.

(** The binding grants the invoker role to the public member. *)
Definition has_public (binding : value) : bool :=
  andb (is_invoker binding)
       (match members_of binding with
        | Ok items => negb (forallb not_public items)
        | Raise _ => false
        end).

(** What becomes of one binding in the rewritten list: it is kept as it is,
    dropped, or replaced by a copy with the public member filtered out. *)
Inductive rewritten : value -> list value -> Prop :=
| rewritten_keep (d : list (string * value)) :
    is_invoker (VDict d) = false ->
    rewritten (VDict d) [VDict d]
| rewritten_drop (binding : value) (items : list value) :
    is_invoker binding = true ->
    members_of binding = Ok items ->
    filter not_public items = [] ->
    rewritten binding []
| rewritten_trim (binding copied : value) (items : list value) :
    is_invoker binding = true ->
    members_of binding = Ok items ->
    filter not_public items <> [] ->
    py_setitem binding "members" (VList (filter not_public items)) = Ok copied ->
    rewritten binding [copied].

(** [l'] is [l] with every occurrence of [x] taken out, the other elements
    in their order. *)
Inductive without (x : value) : list value -> list value -> Prop :=
| without_nil : without x [] []
| without_drop (l l' : list value) :
    without x l l' -> without x (x :: l) l'
| without_keep (y : value) (l l' : list value) :
    y <> x -> without x l l' -> without x (y :: l) (y :: l').

(** The public member, as a member of a policy. *)
Definition public_member : value := VStr all_users.

(** A policy that is a dict of bindings, each a dict whose members are a
    list, is rewritten without an exception. *)
Definition well_formed_binding (binding : value) : Prop :=
  exists d, binding = VDict d /\
            exists l, py_get binding "members" (VList []) = Ok (VList l).

Definition well_formed_policy (policy : value) : Prop :=
  exists bindings,
    py_get policy "bindings" (VList []) = Ok (VList bindings) /\
    Forall well_formed_binding bindings.

(** ** Watching the waiter

    The vocabulary in which the outcome of [_wait_operation] is stated. *)

(** What the loop body makes of one reply to its poll: [None] when the
    operation is still pending and the loop goes on, otherwise the way the
    wait ends. *)
Definition verdict (a : answer) : option (res unit) :=
  match a with
  | Fails info => Some (Raise (ClientError info))
  | Returns operation =>
      match py_get operation "done" VNone with
      | Raise e => Some (Raise e)
      | Ok done =>
          if truthy done then
            match py_get operation "error" VNone with
            | Raise e => Some (Raise e)
            | Ok error =>
                if truthy error then
                  match py_getitem operation "error" with
                  | Ok detail => Some (Raise (RuntimeError detail))
                  | Raise e => Some (Raise e)
                  end
                else Some (Ok tt)
            end
          else None
      end
  end.

(** The operation reports completion: [operation.get("done")] is true. *)
Definition reports_done (operation : value) : Prop :=
  exists done, py_get operation "done" VNone = Ok done /\ truthy done = true.

(** The operation is still pending. *)
Definition reports_pending (operation : value) : Prop :=
  exists done, py_get operation "done" VNone = Ok done /\ truthy done = false.

(** [operation.get("error")] *)
Definition error_field (operation : value) : res value :=
  py_get operation "error" VNone.

(** A poll made between two worlds of one run and the response it got. *)
Definition observed (w w' : World) (operation : value) : Prop :=
  exists k, served w <= k < served w' /\ outcome (oracle w k) = Returns operation.

(** One turn of the loop on a pending operation: a poll, then [sleep(2)]. *)
Definition turn (name : value) (w : World) : World :=
  after_sleep 2 (after_call (EGetOperation name) w).

Fixpoint turns (name : value) (n : nat) (w : World) : World :=
  match n with
  | O => w
  | S n' => turns name n' (turn name w)
  end.

Fixpoint cycles (name : value) (n : nat) : list Event :=
  match n with
  | O => []
  | S n' => EGetOperation name :: ESleep 2 :: cycles name n'
  end.

(** ** Reading a trace

    The vocabulary in which the effects of a run are stated. *)

(** A call that changes the remote side: a policy write or a patch. *)
Definition is_mutation (ev : Event) : bool :=
  match ev with
  | ESetIamPolicy _ _ | EPatch _ _ _ => true
  | _ => false
  end.

(** The service names of the per-service log lines of a trace, in order. *)
Fixpoint restricted (tr : list Event) : list string :=
  match tr with
  | [] => []
  | ELog _ (LogRestricting service_name) :: rest => service_name :: restricted rest
  | _ :: rest => restricted rest
  end.

(** The final log line, with its count of services. *)
Definition is_finished (ev : Event) : bool :=
  match ev with
  | ELog _ (LogFinished _) => true
  | _ => false
  end.

(** The log line of an invocation that skips the guard. *)
Definition is_skip_line (ev : Event) : bool :=
  match ev with
  | ELog _ (LogSkipGuard _ _) => true
  | _ => false
  end.

(** An event of the orchestrator itself, not of the editor, the restrictor
    or the waiter. *)
Definition is_orchestrator_line (ev : Event) : bool :=
  match ev with
  | ELog _ (LogRestricting _) | ELog _ (LogFinished _) => true
  | _ => false
  end.

(** [w'] is [w] after some more events, all of them in [P]. *)
Definition extends (P : Event -> Prop) (w w' : World) : Prop :=
  environ w' = environ w /\ oracle w' = oracle w /\ served w <= served w' /\
  exists tr, trace w' = trace w ++ tr /\ Forall P tr.

(** Whatever the computation does, it only adds events of [P]. *)
Definition emits (P : Event -> Prop) {A} (m : M A) : Prop :=
  forall w r w', m w = Some (r, w') -> extends P w w'.

(** The computation comes to an end in every world. *)
Definition total {A} (m : M A) : Prop :=
  forall w, exists r w', m w = Some (r, w').

(** An event that is not a policy write and not a patch. *)
Definition quiet (ev : Event) : Prop := is_mutation ev = false.

(** An event of the editor, the restrictor or the waiter. *)
Definition inner (ev : Event) : Prop := is_orchestrator_line ev = false.

(** More sample texts: base64 of [[1]], of [{}], of
    [{"costAmount": null, "budgetAmount": 100}], of
    [{"costAmount": 120, "budgetAmount": NaN}] and of [{"costAmount": null}],
    and a library interface whose [json.loads] knows them too. *)
Definition b64_list : string := "WzFd".
Definition b64_empty_object : string := "e30=".
Definition b64_null_cost : string :=
  "eyJjb3N0QW1vdW50IjogbnVsbCwgImJ1ZGdldEFtb3VudCI6IDEwMH0=".
Definition b64_nan_budget : string :=
  "eyJjb3N0QW1vdW50IjogMTIwLCAiYnVkZ2V0QW1vdW50IjogTmFOfQ==".
Definition b64_null_cost_alone : string := "eyJjb3N0QW1vdW50IjogbnVsbH0=".

Definition wider_json_table : list (string * value) :=
  [ (text_of b64_list, VList [VInt 1]);
    (text_of b64_empty_object, VDict []);
    (text_of b64_null_cost,
     VDict [("costAmount", VNone); ("budgetAmount", VInt 100)]);
    (text_of b64_nan_budget,
     VDict [("costAmount", VInt 120); ("budgetAmount", VFloat S754_nan)]);
    (text_of b64_null_cost_alone, VDict [("costAmount", VNone)]) ]
  ++ json_table.

(** An environment whose threshold is not a number. *)
Definition bad_threshold_env : list (string * string) :=
  [ ("BUDGET_STOP_THRESHOLD", "abc");
    ("GCP_PROJECT_ID", "city"); ("CLOUD_RUN_SERVICES", "web, api") ].

Definition wider_builtins : Builtins := {|
  float_of_string := table_lookup float_table;
  b64decode := sample_b64decode;
  utf8_decode := sample_utf8_decode;
  json_loads := table_lookup wider_json_table
|}.

(** An environment without a project. *)
Definition no_project_env : list (string * string) :=
  [ ("CLOUD_RUN_SERVICES", "web, api") ].

(** ** Reading a configuration

    The vocabulary in which the properties of the configuration and of the
    calls of a whole invocation are stated. *)

(** The character occurs in the string. *)
Fixpoint has_char (c : ascii) (s : string) : bool :=
  match s with
  | EmptyString => false
  | String c' rest => orb (Ascii.eqb c' c) (has_char c rest)
  end.

(** [",".join(services)] *)
Fixpoint join_commas (services : list string) : string :=
  match services with
  | [] => EmptyString
  | service :: rest =>
      match rest with
      | [] => service
      | _ :: _ => service ++ String "," (join_commas rest)
      end
  end.

(** A string of white space characters only. *)
Inductive white : string -> Prop :=
| white_empty : white EmptyString
| white_more (sp w : string) : In sp spaces -> white w -> white (sp ++ w)%string.

(** The string begins, or ends, with a white space character. *)
Definition begins_white (s : string) : Prop :=
  exists sp rest, In sp spaces /\ s = (sp ++ rest)%string.

Definition ends_white (s : string) : Prop :=
  exists init sp, In sp spaces /\ s = (init ++ sp)%string.

(** A service name as the orchestrator uses it: not empty, no white space
    at either end, no comma. *)
Definition clean (service : string) : Prop :=
  service <> EmptyString /\ ~ begins_white service /\ ~ ends_white service /\
  has_char "," service = false.

(** One string is the beginning of the other. *)
Fixpoint overlap (a b : string) : bool :=
  match a, b with
  | String x a', String y b' => andb (Ascii.eqb x y) (overlap a' b')
  | _, _ => true
  end.

(** The encoding is not empty, holds no comma, and is the beginning of no
    other white space character. *)
Definition separate (sp : string) : bool :=
  andb (negb (String.eqb sp EmptyString))
       (andb (negb (has_char "," sp))
             (forallb (fun other => implb (overlap sp other) (String.eqb sp other))
                      spaces)).

(** The project, the region and the services an invocation in [w] works on. *)
Definition configured_project (w : World) : string :=
  match environ w "GCP_PROJECT_ID" with Some project => project | None => EmptyString end.

Definition configured_region (w : World) : string :=
  env_or w "CLOUD_RUN_REGION" "us-central1".

Definition configured_services (w : World) : list string :=
  parse_services (env_or w "CLOUD_RUN_SERVICES" "").

(** The resource names of the configured services. *)
Definition configured_names (w : World) : list string :=
  map (service_path (configured_project w) (configured_region w))
      (configured_services w).

(** A call on a service resource names one of [names], and a patch is the
    ingress patch. *)
Definition touches_only (names : list string) (ev : Event) : Prop :=
  match ev with
  | EGetIamPolicy resource => In resource names
  | ESetIamPolicy resource _ => In resource names
  | EPatch name updateMask body =>
      In name names /\ updateMask = "ingress" /\ body = ingress_body
  | _ => True
  end.

(** A policy write sends a policy in which no binding grants the invoker
    role to the public member. *)
Definition safe_write (ev : Event) : Prop :=
  match ev with
  | ESetIamPolicy _ body =>
      exists policy bindings,
        body = VDict [("policy", policy)] /\
        bindings_of policy = Ok bindings /\
        existsb has_public bindings = false
  | _ => True
  end.

(** A call that sets up credentials or the API client. *)
Definition is_setup (ev : Event) : bool :=
  match ev with
  | EAuthDefault | ECredentialsRefresh | EBuild => true
  | _ => false
  end.

(** A call that reads or changes a service or polls an operation. *)
Definition is_service_call (ev : Event) : bool :=
  match ev with
  | EGetIamPolicy _ | ESetIamPolicy _ _ | EPatch _ _ _ | EGetOperation _ => true
  | _ => false
  end.


(** The invocation on [cloud_event] in [w] gets past the budget check and
    the threshold check, with these amounts and this display name. *)
Definition guard_fires {B : Builtins} (cloud_event : CloudEvent) (w : World)
  (c b : float) (display : value) : Prop :=
  exists payload t,
    _parse_payload cloud_event = Ok payload /\
    truthy payload = true /\
    amount payload "costAmount" = Ok c /\
    amount payload "budgetAmount" = Ok b /\
    float_of_string (env_or w "BUDGET_STOP_THRESHOLD" "1.0") = Some t /\
    display_name_of payload = Ok display /\
    fle b fzero = false /\
    flt (fdiv c b) t = false.

(** The world in which remediation starts: the ratio has been logged. *)
Definition fired_world (w : World) (c b : float) (display : value) : World :=
  emit (ELog INFO (LogBudgetUpdate c b (fdiv c b) display)) w.


(** The resources whose policy a trace reads, and the resources it patches,
    in order. *)
Fixpoint policies_read (tr : list Event) : list string :=
  match tr with
  | [] => []
  | EGetIamPolicy resource :: rest => resource :: policies_read rest
  | _ :: rest => policies_read rest
  end.

Fixpoint patched (tr : list Event) : list string :=
  match tr with
  | [] => []
  | EPatch name _ _ :: rest => name :: patched rest
  | _ :: rest => patched rest
  end.

(** An event that is neither a policy read nor a patch. *)
Definition is_read_or_patch (ev : Event) : bool :=
  match ev with
  | EGetIamPolicy _ | EPatch _ _ _ => true
  | _ => false
  end.

(** ** Float facts used by the threshold evaluator *)

Lemma SFcompare_antisym (x y : float) :
  SFcompare y x = option_map CompOpp (SFcompare x y).
Proof.
  destruct x as [sx|sx| |sx mx ex], y as [sy|sy| |sy my ey]; cbn;
    try reflexivity;
    try (destruct sx; reflexivity);
    try (destruct sy; reflexivity);
    try (destruct sx, sy; reflexivity).
  destruct sx, sy; cbn; try reflexivity;
    rewrite (Z.compare_antisym ex ey);
    destruct (ex ?= ey)%Z; cbn; try reflexivity;
    pose proof (Pos.compare_cont_antisym mx my Eq) as A; cbn in A;
    change (PosDef.Pos.compare_cont Eq my mx) with (Pos.compare_cont Eq my mx);
    change (PosDef.Pos.compare_cont Eq mx my) with (Pos.compare_cont Eq mx my);
    rewrite <- A; try rewrite CompOpp_involutive; reflexivity.
Qed.

(** Away from NaN, [x < y] is the negation of [x >= y]. *)
Lemma flt_negb_fge (x y : float) :
  is_nan x = false -> is_nan y = false -> flt x y = negb (fge x y).
Proof.
  intros Hx Hy. unfold flt, fge, fle, SFltb, SFleb.
  rewrite (SFcompare_antisym y x).
  destruct (SFcompare y x) as [[]|] eqn:E; cbn; try reflexivity.
  destruct x, y; cbn in *; discriminate.
Qed.

(** With a NaN on either side both [x < y] and [x >= y] are false. *)
Lemma nan_unordered (x y : float) :
  is_nan x = true \/ is_nan y = true -> flt x y = false /\ fge x y = false.
Proof.
  intros [H|H]; destruct x, y; cbn in *; try discriminate; auto.
Qed.

Lemma feq_not_flt (x y : float) : feq x y = true -> flt x y = false.
Proof.
  unfold feq, flt, SFeqb, SFltb. destruct (SFcompare x y) as [[]|]; auto; discriminate.
Qed.

Lemma feq_fge (x y : float) : feq x y = true -> fge x y = true.
Proof.
  unfold feq, fge, fle, SFeqb, SFleb. rewrite (SFcompare_antisym x y).
  destruct (SFcompare x y) as [[]|]; cbn; auto; discriminate.
Qed.

Lemma positive_not_le_zero (b : float) : fgt b fzero = true -> fle b fzero = false.
Proof.
  destruct b as [s|s| |s m e]; try destruct s; cbn; auto; discriminate.
Qed.

Lemma fdiv_zero_positive (b : float) : fgt b fzero = true -> fdiv fzero b = fzero.
Proof.
  destruct b as [s|s| |s m e]; try destruct s; cbn; auto; discriminate.
Qed.

Example sample_text_decodes :
  option_map list_ascii_of_string
    (match sample_b64decode b64_no_cost with
     | Some raw => sample_utf8_decode raw
     | None => None
     end)
  = Some (map ascii_of_nat
            [123; 34; 98; 117; 100; 103; 101; 116; 65; 109; 111; 117; 110; 116;
             34; 58; 32; 49; 48; 48; 125]).
Proof. vm_compute. reflexivity. Qed.

(** ** The decision of [handle_budget_alert] *)

Section Decision.

Context {B : Builtins}.

Lemma amount_dict (payload : value) (key : string) (x : float) :
  amount payload key = Ok x -> exists d, payload = VDict d.
Proof.
  unfold amount. destruct payload; cbn; try discriminate. eauto.
Qed.

(** The run of the handler on a payload whose amounts and threshold convert:
    lines 99 to 114, with [remediate] standing for lines 116 to 137. *)
Lemma handle_budget_alert_decoded
  (cloud_event : CloudEvent) (w : World) (payload display : value) (c b t : float) :
  _parse_payload cloud_event = Ok payload ->
  truthy payload = true ->
  amount payload "costAmount" = Ok c ->
  amount payload "budgetAmount" = Ok b ->
  float_of_string (env_or w "BUDGET_STOP_THRESHOLD" "1.0") = Some t ->
  display_name_of payload = Ok display ->
  handle_budget_alert cloud_event w =
    if fle b fzero then Some (Ok tt, emit (ELog WARNING (LogInvalidBudget b)) w)
    else
      let ratio := fdiv c b in
      let w1 := emit (ELog INFO (LogBudgetUpdate c b ratio display)) w in
      if flt ratio t then Some (Ok tt, emit (ELog INFO (LogSkipGuard ratio t)) w1)
      else remediate (_to_bool (environ w "BUDGET_GUARD_DRY_RUN")) w1.
Proof.
  intros Hp Ht Hc Hb Hth Hd.
  unfold handle_budget_alert, bind, lift, getenv_default, getenv, log.
  rewrite Hp, Ht, Hc, Hb. cbn. rewrite Hth. cbn.
  destruct (fle b fzero); [reflexivity|].
  rewrite Hd. cbn. destruct (flt (fdiv c b) t); reflexivity.
Qed.

Lemma display_name_total (payload : value) (x : float) (key : string) :
  amount payload key = Ok x -> exists display, display_name_of payload = Ok display.
Proof.
  intros H. destruct (amount_dict _ _ H) as [d ->]. cbn. eauto.
Qed.

(** [float] on line 94 or 95 raises: the handler ends there, and nothing has
    been logged or called. *)
Lemma cost_not_converted (cloud_event : CloudEvent) (w : World) (payload : value)
  (e : exn) :
  _parse_payload cloud_event = Ok payload ->
  truthy payload = true ->
  amount payload "costAmount" = Raise e ->
  handle_budget_alert cloud_event w = Some (Raise e, w).
Proof.
  intros Hp Ht Hc. unfold handle_budget_alert, bind, lift. rewrite Hp, Ht, Hc.
  reflexivity.
Qed.

(** [float] on line 96 rejects the threshold: the handler ends there. *)
Lemma threshold_not_converted (cloud_event : CloudEvent) (w : World) (payload : value)
  (c b : float) :
  _parse_payload cloud_event = Ok payload ->
  truthy payload = true ->
  amount payload "costAmount" = Ok c ->
  amount payload "budgetAmount" = Ok b ->
  float_of_string (env_or w "BUDGET_STOP_THRESHOLD" "1.0") = None ->
  handle_budget_alert cloud_event w = Some (Raise ValueError, w).
Proof.
  intros Hp Ht Hc Hb Hth. unfold handle_budget_alert, bind, lift, getenv_default.
  rewrite Hp, Ht, Hc, Hb. cbn. rewrite Hth. reflexivity.
Qed.

(** The exceptions of [float(payload.get(key, 0))] on a JSON object. *)
Lemma amount_raises (d : list (string * value)) (key : string) (e : exn) :
  amount (VDict d) key = Raise e ->
  e = TypeError \/ e = ValueError \/ e = OverflowError.
Proof.
  assert (F : forall x : res float,
             (x = Raise TypeError \/ x = Raise ValueError \/ x = Raise OverflowError
              \/ exists f, x = Ok f) ->
             x = Raise e -> e = TypeError \/ e = ValueError \/ e = OverflowError).
  { intros x [->|[->|[->|[f ->]]]] H; try discriminate; injection H as <-; auto. }
  unfold amount. cbn. apply F.
  destruct (dict_lookup d key) as [v|]; cbn [rbind].
  - destruct v as [| |z| |s| |]; cbn [py_float]; eauto 6.
    + destruct (float_of_Z z); eauto 6.
    + destruct (float_of_string s); cbn [of_option]; eauto 6.
  - cbn [py_float]. destruct (float_of_Z 0); eauto 6.
Qed.

(** With a budget amount that is not positive the handler makes no client
    call, whatever the cost amount and the threshold are, even when one of
    them does not convert. *)
Lemma invalid_budget_no_calls
  (cloud_event : CloudEvent) (w : World) (payload : value) (b : float) :
  _parse_payload cloud_event = Ok payload ->
  truthy payload = true ->
  amount payload "budgetAmount" = Ok b ->
  fle b fzero = true ->
  (exists e, handle_budget_alert cloud_event w = Some (Raise e, w)) \/
  handle_budget_alert cloud_event w
    = Some (Ok tt, emit (ELog WARNING (LogInvalidBudget b)) w).
Proof.
  intros Hp Ht Hb Hle.
  destruct (amount payload "costAmount") as [c|e] eqn:Hc.
  - destruct (float_of_string (env_or w "BUDGET_STOP_THRESHOLD" "1.0")) as [t|] eqn:Hth.
    + right. destruct (display_name_total _ _ Hb) as [dn Hd].
      rewrite (handle_budget_alert_decoded _ w Hp Ht Hc Hb Hth Hd), Hle. reflexivity.
    + left. exists ValueError. exact (threshold_not_converted _ w Hp Ht Hc Hb Hth).
  - left. exists e. exact (cost_not_converted _ w Hp Ht Hc).
Qed.

(** C2 (as amended): with a budget amount that converts to a number [<= 0],
    the handler logs the invalid-budget warning and returns, with no other
    event, for every cost amount that converts and every threshold that
    [float] accepts; a cost amount that does not convert ends the invocation
    with the exception of line 94 ([TypeError], [ValueError] or
    [OverflowError]) and a threshold that [float] rejects ends it with
    [ValueError], in both cases with nothing logged.  In every case the
    world is left without a client call. *)
Theorem invalid_budget_skips
  (cloud_event : CloudEvent) (w : World) (payload : value) (b : float) :
  _parse_payload cloud_event = Ok payload ->
  truthy payload = true ->
  amount payload "budgetAmount" = Ok b ->
  fle b fzero = true ->
  (forall c t,
      amount payload "costAmount" = Ok c ->
      float_of_string (env_or w "BUDGET_STOP_THRESHOLD" "1.0") = Some t ->
      handle_budget_alert cloud_event w
        = Some (Ok tt, emit (ELog WARNING (LogInvalidBudget b)) w)) /\
  (forall e,
      amount payload "costAmount" = Raise e ->
      handle_budget_alert cloud_event w = Some (Raise e, w) /\
      (e = TypeError \/ e = ValueError \/ e = OverflowError)) /\
  (forall c,
      amount payload "costAmount" = Ok c ->
      float_of_string (env_or w "BUDGET_STOP_THRESHOLD" "1.0") = None ->
      handle_budget_alert cloud_event w = Some (Raise ValueError, w)) /\
  (handle_budget_alert cloud_event w
     = Some (Ok tt, emit (ELog WARNING (LogInvalidBudget b)) w) \/
   exists e, handle_budget_alert cloud_event w = Some (Raise e, w)) /\
  (exists r w',
      handle_budget_alert cloud_event w = Some (r, w') /\
      served w' = served w /\
      (trace w' = trace w \/
       trace w' = trace w ++ [ELog WARNING (LogInvalidBudget b)])).
Proof.
  intros Hp Ht Hb Hle. split; [|split; [|split; [|split]]].
  - intros c t Hc Hth. destruct (display_name_total _ _ Hb) as [dn Hd].
    rewrite (handle_budget_alert_decoded _ w Hp Ht Hc Hb Hth Hd), Hle. reflexivity.
  - intros e Hc. split; [exact (cost_not_converted _ w Hp Ht Hc)|].
    destruct (amount_dict _ _ Hb) as [d ->]. exact (amount_raises _ _ Hc).
  - intros c Hc Hth. exact (threshold_not_converted _ w Hp Ht Hc Hb Hth).
  - destruct (invalid_budget_no_calls _ w Hp Ht Hb Hle) as [E|E]; [right|left]; exact E.
  - destruct (invalid_budget_no_calls _ w Hp Ht Hb Hle) as [[e E]|E]; rewrite E.
    + exists (Raise e), w. auto.
    + eexists _, _. split; [reflexivity|]. cbn. auto.
Qed.

(** C9 (as amended): an amount that the payload lacks is read as [0.0].
    Without [budgetAmount] no client call is made: the handler skips with
    the invalid-budget warning when the cost amount and the threshold
    convert, and ends with the exception of [float] when the cost amount
    (line 94) or the threshold (line 96) does not.  Without [costAmount] and
    with [budgetAmount > 0] the ratio is [0.0] and the handler skips for
    every threshold above zero. *)
Theorem absent_amount_is_zero
  (cloud_event : CloudEvent) (w : World) (d : list (string * value)) :
  _parse_payload cloud_event = Ok (VDict d) ->
  truthy (VDict d) = true ->
  (forall key, dict_lookup d key = None -> amount (VDict d) key = Ok fzero) /\
  (dict_lookup d "budgetAmount" = None ->
   ((exists e, handle_budget_alert cloud_event w = Some (Raise e, w)) \/
    handle_budget_alert cloud_event w
      = Some (Ok tt, emit (ELog WARNING (LogInvalidBudget fzero)) w)) /\
   (forall c t,
      amount (VDict d) "costAmount" = Ok c ->
      float_of_string (env_or w "BUDGET_STOP_THRESHOLD" "1.0") = Some t ->
      handle_budget_alert cloud_event w
        = Some (Ok tt, emit (ELog WARNING (LogInvalidBudget fzero)) w)) /\
   (forall e,
      amount (VDict d) "costAmount" = Raise e ->
      handle_budget_alert cloud_event w = Some (Raise e, w) /\
      (e = TypeError \/ e = ValueError \/ e = OverflowError)) /\
   (forall c,
      amount (VDict d) "costAmount" = Ok c ->
      float_of_string (env_or w "BUDGET_STOP_THRESHOLD" "1.0") = None ->
      handle_budget_alert cloud_event w = Some (Raise ValueError, w))) /\
  (dict_lookup d "costAmount" = None ->
   forall b t display,
     amount (VDict d) "budgetAmount" = Ok b ->
     fgt b fzero = true ->
     float_of_string (env_or w "BUDGET_STOP_THRESHOLD" "1.0") = Some t ->
     fgt t fzero = true ->
     display_name_of (VDict d) = Ok display ->
     handle_budget_alert cloud_event w
       = Some (Ok tt,
               emit (ELog INFO (LogSkipGuard fzero t))
                 (emit (ELog INFO (LogBudgetUpdate fzero b fzero display)) w))).
Proof.
  intros Hp Ht.
  assert (Z0 : forall key, dict_lookup d key = None -> amount (VDict d) key = Ok fzero).
  { intros key Hk. unfold amount. cbn. rewrite Hk. reflexivity. }
  split; [exact Z0|]. split.
  - intros Hk. split; [|split; [|split]].
    + apply (invalid_budget_no_calls _ w Hp Ht (Z0 _ Hk)). reflexivity.
    + intros c t Hc Hth.
      assert (Hd : display_name_of (VDict d) = Ok
                     (match dict_lookup d "budgetDisplayName" with
                      | Some v => v | None => VNone end)) by reflexivity.
      rewrite (handle_budget_alert_decoded _ w Hp Ht Hc (Z0 _ Hk) Hth Hd).
      reflexivity.
    + intros e Hc. split; [exact (cost_not_converted _ w Hp Ht Hc)|].
      exact (amount_raises _ _ Hc).
    + intros c Hc Hth. exact (threshold_not_converted _ w Hp Ht Hc (Z0 _ Hk) Hth).
  - intros Hk b t display Hb Hpos Hth Htpos Hd.
    rewrite (handle_budget_alert_decoded _ w Hp Ht (Z0 _ Hk) Hb Hth Hd).
    rewrite (positive_not_le_zero _ Hpos), (fdiv_zero_positive _ Hpos).
    cbn zeta. unfold fgt in Htpos. rewrite Htpos. reflexivity.
Qed.

End Decision.

(** ** Payloads that do not decode *)

Section Decoding.

Context {B : Builtins}.

Lemma parse_raises_handle_raises (cloud_event : CloudEvent) (w : World) (e : exn) :
  _parse_payload cloud_event = Raise e ->
  handle_budget_alert cloud_event w = Some (Raise e, w).
Proof.
  intros H. unfold handle_budget_alert, bind, lift. rewrite H. reflexivity.
Qed.

(** C7: when the message data is a non-empty string that is not base64, or
    whose bytes are not UTF-8, or whose text is not JSON, the handler raises
    the decoder's exception and leaves the world as it was: nothing is
    logged, no client call is made, and the payload is not taken for an
    empty one. *)
Theorem decoding_failure_aborts (cloud_event : CloudEvent) (w : World) (s : string) :
  encoded_data cloud_event = Ok (VStr s) ->
  s <> EmptyString ->
  (b64decode s = None ->
   handle_budget_alert cloud_event w = Some (Raise BinasciiError, w)) /\
  (forall raw,
      b64decode s = Some raw -> utf8_decode raw = None ->
      handle_budget_alert cloud_event w = Some (Raise UnicodeDecodeError, w)) /\
  (forall raw decoded,
      b64decode s = Some raw -> utf8_decode raw = Some decoded ->
      json_loads decoded = None ->
      handle_budget_alert cloud_event w = Some (Raise JSONDecodeError, w)).
Proof.
  intros He Hs.
  assert (T : negb (truthy (VStr s)) = false).
  { cbn. destruct (String.eqb_spec s EmptyString); [contradiction|reflexivity]. }
  repeat split; intros; apply parse_raises_handle_raises;
    unfold _parse_payload; rewrite He; cbn [rbind]; rewrite T;
    repeat match goal with H : _ = _ |- _ => rewrite H; cbn [rbind of_option] end;
    reflexivity.
Qed.

End Decoding.

(** ** The policy rewrite *)

Lemma dict_lookup_set_same (d : list (string * value)) (k : string) (v : value) :
  dict_lookup (dict_set d k v) k = Some v.
Proof.
  induction d as [|[k' v'] d IH]; cbn.
  - rewrite String.eqb_refl. reflexivity.
  - destruct (String.eqb k k') eqn:E; cbn; rewrite E; auto.
Qed.

Lemma dict_lookup_set_other (d : list (string * value)) (k k' : string) (v : value) :
  k' <> k -> dict_lookup (dict_set d k v) k' = dict_lookup d k'.
Proof.
  intros Hne. induction d as [|[k0 v0] d IH]; cbn.
  - destruct (String.eqb_spec k' k); [contradiction|reflexivity].
  - destruct (String.eqb_spec k k0) as [->|Hk]; cbn.
    + destruct (String.eqb_spec k' k0); [contradiction|reflexivity].
    + rewrite IH. reflexivity.
Qed.

Lemma dict_set_twice (d : list (string * value)) (k : string) (v v' : value) :
  dict_set (dict_set d k v) k v' = dict_set d k v'.
Proof.
  induction d as [|[k0 v0] d IH]; cbn.
  - rewrite String.eqb_refl. reflexivity.
  - destruct (String.eqb k k0) eqn:E; cbn; rewrite E; [reflexivity|]. rewrite IH.
    reflexivity.
Qed.

Lemma filter_length_forallb {A} (p : A -> bool) (l : list A) :
  Nat.eqb (length (filter p l)) (length l) = forallb p l.
Proof.
  induction l as [|a l IH]; cbn; [reflexivity|].
  destruct (p a); cbn; [exact IH|].
  apply Nat.eqb_neq. pose proof (filter_length_le p l). lia.
Qed.

Lemma filter_forallb {A} (p : A -> bool) (l : list A) :
  forallb p (filter p l) = true.
Proof.
  induction l as [|a l IH]; cbn; [reflexivity|].
  destruct (p a) eqn:E; cbn; [rewrite E|]; exact IH.
Qed.

Lemma forallb_filter_id {A} (p : A -> bool) (l : list A) :
  forallb p l = true -> filter p l = l.
Proof.
  induction l as [|a l IH]; cbn; [reflexivity|].
  destruct (p a); cbn; [intros H; rewrite IH; auto|discriminate].
Qed.

(** One turn of the loop, in the vocabulary of [rewritten]. *)
Lemma rewrite_step_spec (binding : value) (u u' : list value) (r r' : bool) :
  rewrite_step (u, r) binding = Ok (u', r') <->
  exists image,
    rewritten binding image /\ u' = u ++ image /\ r' = orb r (has_public binding).
Proof.
  unfold rewrite_step. split.
  - destruct binding as [| | | | |l|d]; cbn; try discriminate.
    unfold has_public, is_invoker, members_of. cbn.
    set (role := match dict_lookup d "role" with Some v => v | None => VNone end).
    set (members := match dict_lookup d "members" with
                    | Some v => v | None => VList [] end).
    destruct (ne_str role invoker_role) eqn:Er.
    + intros H. injection H as <- <-. exists [VDict d]. split.
      * apply rewritten_keep. unfold is_invoker. cbn. fold role. rewrite Er.
        reflexivity.
      * cbn. rewrite orb_false_r. auto.
    + destruct (py_iter members) as [items|e] eqn:Ei; cbn; [|discriminate].
      rewrite filter_length_forallb.
      assert (Hr : (if forallb not_public items then r else true)
                   = orb r (negb (forallb not_public items))).
      { destruct (forallb not_public items), r; reflexivity. }
      assert (Hinv : is_invoker (VDict d) = true).
      { unfold is_invoker. cbn. fold role. rewrite Er. reflexivity. }
      assert (Hm : members_of (VDict d) = Ok items).
      { unfold members_of. cbn. fold members. rewrite Ei. reflexivity. }
      destruct (filter not_public items) as [|m f] eqn:Ef.
      * intros H. injection H as <- <-. exists []. split.
        -- eapply rewritten_drop; eauto.
        -- rewrite app_nil_r. auto.
      * intros H. injection H as <- <-.
        exists [VDict (dict_set d "members" (VList (m :: f)))]. split.
        -- eapply rewritten_trim; eauto; rewrite Ef; [discriminate|reflexivity].
        -- auto.
  - intros (image & Hw & -> & ->). inversion Hw; subst.
    + unfold has_public. rewrite H. cbn [andb]. rewrite orb_false_r.
      unfold is_invoker in H. cbn in H |- *.
      destruct (ne_str _ invoker_role); [reflexivity|discriminate].
    + unfold has_public. rewrite H, H0. cbn [andb].
      destruct binding as [| | | | |l|d]; try discriminate.
      unfold is_invoker in H. unfold members_of in H0. cbn in H, H0 |- *.
      destruct (ne_str _ invoker_role); [discriminate|].
      rewrite H0. cbn. rewrite filter_length_forallb, H1, app_nil_r.
      destruct (forallb not_public items), r; reflexivity.
    + unfold has_public. rewrite H, H0. cbn [andb].
      destruct binding as [| | | | |l|d]; try discriminate.
      unfold is_invoker in H. unfold members_of in H0. cbn in H, H0, H2 |- *.
      destruct (ne_str _ invoker_role); [discriminate|].
      rewrite H0. cbn. rewrite filter_length_forallb.
      injection H2 as <-.
      destruct (filter not_public items) as [|m f]; [contradiction|].
      destruct (forallb not_public items), r; reflexivity.
Qed.

(** The whole loop: the rewritten list is the concatenation, in order, of the
    images of the bindings; [removed] tells whether a public invoker grant
    was met. *)
Lemma rewrite_loop_spec (bindings : list value) :
  forall (u u' : list value) (r r' : bool),
    rewrite_loop bindings (u, r) = Ok (u', r') <->
    exists images,
      Forall2 rewritten bindings images /\
      u' = u ++ concat images /\
      r' = orb r (existsb has_public bindings).
Proof.
  induction bindings as [|b bs IH]; intros u u' r r'; cbn [rewrite_loop].
  - split.
    + intros H. injection H as <- <-. exists []. cbn.
      rewrite app_nil_r, orb_false_r. auto.
    + intros (images & HF & -> & ->). inversion HF; subst. cbn.
      rewrite app_nil_r, orb_false_r. reflexivity.
  - split.
    + destruct (rewrite_step (u, r) b) as [[u1 r1]|e] eqn:Es; cbn [rbind];
        [|discriminate].
      intros H. apply IH in H. destruct H as (images & HF & -> & ->).
      apply rewrite_step_spec in Es. destruct Es as (image & Hw & -> & ->).
      exists (image :: images). cbn. rewrite <- app_assoc, orb_assoc. auto.
    + intros (images & HF & -> & ->). inversion HF as [|? image ? images' Hw HF']; subst.
      assert (Es : rewrite_step (u, r) b = Ok (u ++ image, orb r (has_public b))).
      { apply rewrite_step_spec. eauto. }
      rewrite Es. cbn [rbind]. apply IH. exists images'. cbn.
      rewrite <- app_assoc, orb_assoc. auto.
Qed.

Lemma rewrite_policy_spec (policy : value) (updated : list value) (removed : bool) :
  rewrite_policy policy = Ok (updated, removed) <->
  exists bindings images,
    bindings_of policy = Ok bindings /\
    Forall2 rewritten bindings images /\
    updated = concat images /\
    removed = existsb has_public bindings.
Proof.
  unfold rewrite_policy, bindings_of.
  destruct (py_get policy "bindings" (VList [])) as [b|e]; cbn [rbind].
  - destruct (py_iter b) as [items|e]; cbn [rbind].
    + rewrite rewrite_loop_spec. split.
      * intros (images & HF & -> & ->). exists items, images. auto.
      * intros (bs & images & E & HF & -> & ->). injection E as <-.
        exists images. auto.
    + split; [discriminate|]. intros (bs & images & E & _). discriminate.
  - split; [discriminate|]. intros (bs & images & E & _). discriminate.
Qed.

Lemma is_invoker_set_members (d : list (string * value)) (v : value) :
  is_invoker (VDict (dict_set d "members" v)) = is_invoker (VDict d).
Proof.
  unfold is_invoker. cbn. rewrite dict_lookup_set_other; [reflexivity|discriminate].
Qed.

Lemma members_of_set_members (d : list (string * value)) (f : list value) :
  members_of (VDict (dict_set d "members" (VList f))) = Ok f.
Proof.
  unfold members_of. cbn. rewrite dict_lookup_set_same. reflexivity.
Qed.

(** A rewritten invoker binding is a copy whose members are what the filter
    left, in their order: at least one, and none of them public. *)
Lemma rewritten_trimmed (binding copied : value) (image : list value) :
  rewritten binding image -> In copied image -> is_invoker copied = true ->
  is_invoker binding = true /\
  exists items,
    members_of binding = Ok items /\
    members_of copied = Ok (filter not_public items) /\
    filter not_public items <> [] /\
    py_setitem binding "members" (VList (filter not_public items)) = Ok copied.
Proof.
  intros Hw Hin Hinv. inversion Hw; subst; cbn in Hin.
  - destruct Hin as [<-|[]]. congruence.
  - contradiction.
  - destruct Hin as [<-|[]]. split; [assumption|]. exists items.
    destruct binding as [| | | | |l|d]; try discriminate.
    cbn in H2. injection H2 as <-.
    rewrite members_of_set_members. auto.
Qed.

(** The bindings of other roles pass through: the image of such a binding
    is the binding, and the image of an invoker binding holds none. *)
Lemma rewritten_other_roles (binding : value) (image : list value) :
  rewritten binding image ->
  filter (fun b => negb (is_invoker b)) image
  = filter (fun b => negb (is_invoker b)) [binding].
Proof.
  intros Hw. inversion Hw; subst; cbn.
  - reflexivity.
  - rewrite H. reflexivity.
  - destruct binding as [| | | | |l|d]; try discriminate.
    cbn in H2. injection H2 as <-.
    rewrite is_invoker_set_members, H. reflexivity.
Qed.

(** Every binding of a rewritten list is left as it is by a second rewrite. *)
Lemma rewritten_stable (binding : value) (image : list value) :
  rewritten binding image ->
  Forall (fun b => rewritten b [b] /\ has_public b = false) image.
Proof.
  intros Hw. inversion Hw; subst.
  - constructor; [|constructor]. split; [assumption|].
    unfold has_public. rewrite H. reflexivity.
  - constructor.
  - constructor; [|constructor].
    destruct binding as [| | | | |l|d]; try discriminate.
    cbn in H2. injection H2 as <-.
    set (f := filter not_public items) in *.
    assert (Hf : forallb not_public f = true) by apply filter_forallb.
    split.
    + eapply rewritten_trim with (items := f).
      * rewrite is_invoker_set_members. assumption.
      * apply members_of_set_members.
      * rewrite (forallb_filter_id _ _ Hf). assumption.
      * cbn. rewrite (forallb_filter_id _ _ Hf), dict_set_twice. reflexivity.
    + unfold has_public. rewrite members_of_set_members, Hf.
      apply andb_false_r.
Qed.

Lemma stable_rewrite_loop (updated : list value) :
  Forall (fun b => rewritten b [b] /\ has_public b = false) updated ->
  rewrite_loop updated ([], false) = Ok (updated, false).
Proof.
  intros HF. apply rewrite_loop_spec.
  exists (map (fun b => [b]) updated). repeat split.
  - induction HF as [|b l [Hb _] _ IH]; cbn; constructor; assumption.
  - cbn. induction updated as [|b l IH]; cbn; [reflexivity|].
    inversion HF; subst. f_equal. apply IH. assumption.
  - cbn. induction HF as [|b l [_ Hb] _ IH]; cbn; [reflexivity|].
    rewrite Hb. exact IH.
Qed.

Lemma Forall2_concat_Forall {A C} (R : A -> list C -> Prop) (P : C -> Prop)
  (l : list A) (images : list (list C)) :
  Forall2 R l images ->
  (forall a image, R a image -> Forall P image) ->
  Forall P (concat images).
Proof.
  intros HF HR. induction HF as [|a image l' images' Ha _ IH]; cbn.
  - constructor.
  - apply Forall_app. split; [eapply HR; eassumption|exact IH].
Qed.

(** Rewriting the policy that a rewrite produced changes nothing and finds
    nothing to remove. *)
Lemma rewrite_policy_idempotent (policy policy' : value) (updated : list value)
  (removed : bool) :
  rewrite_policy policy = Ok (updated, removed) ->
  py_setitem policy "bindings" (VList updated) = Ok policy' ->
  rewrite_policy policy' = Ok (updated, false).
Proof.
  intros Hr Hs. apply rewrite_policy_spec in Hr.
  destruct Hr as (bs & images & Hb & HF & -> & _).
  destruct policy as [| | | | |l|d]; try discriminate.
  cbn in Hs. injection Hs as <-.
  unfold rewrite_policy. cbn. rewrite dict_lookup_set_same. cbn.
  apply stable_rewrite_loop.
  eapply Forall2_concat_Forall; [exact HF|]. apply rewritten_stable.
Qed.

(** A well-formed policy is rewritten without an exception. *)
Lemma rewrite_policy_total (policy : value) :
  well_formed_policy policy ->
  exists updated removed, rewrite_policy policy = Ok (updated, removed).
Proof.
  intros (bs & Hb & HF). unfold rewrite_policy. rewrite Hb. cbn [rbind py_iter].
  clear Hb. generalize (@nil value) false.
  induction HF as [|b l (d & -> & items & Hm) _ IH]; intros u r; cbn [rewrite_loop].
  - eauto.
  - assert (E : exists acc, rewrite_step (u, r) (VDict d) = Ok acc).
    { unfold rewrite_step. cbn in Hm |- *. injection Hm as Hm. rewrite Hm.
      destruct (ne_str _ invoker_role); cbn; [eauto|].
      destruct (filter not_public items); eauto. }
    destruct E as ([u1 r1] & ->). cbn [rbind]. apply IH.
Qed.

(** ** The operation waiter *)

Lemma Qltb_true (x y : Q) : Qltb x y = true <-> (x < y)%Q.
Proof.
  unfold Qltb. rewrite negb_true_iff. split.
  - intros H. apply Qnot_le_lt. intros L. apply Qle_bool_iff in L. congruence.
  - intros H. destruct (Qle_bool y x) eqn:E; [|reflexivity].
    apply Qle_bool_iff in E. exfalso. exact (Qlt_not_le _ _ H E).
Qed.

Lemma Qltb_false (x y : Q) : Qltb x y = false <-> (y <= x)%Q.
Proof.
  unfold Qltb. rewrite negb_false_iff. apply Qle_bool_iff.
Qed.

Lemma seconds_nonneg (d : delay) : (0 <= seconds d)%Q.
Proof.
  unfold seconds, Qle. cbn. lia.
Qed.

Lemma turn_clock (name : value) (w : World) :
  (clock w + 2 <= clock (turn name w))%Q.
Proof.
  unfold turn, after_sleep, after_call. cbn.
  pose proof (seconds_nonneg (latency (next_reply w))).
  change (inject_Z 2) with 2%Q. lra.
Qed.

Lemma turns_served (name : value) (n : nat) :
  forall w, served (turns name n w) = served w + n.
Proof.
  induction n as [|n IH]; intros w; cbn; [lia|]. rewrite IH. cbn. lia.
Qed.

Lemma turns_oracle (name : value) (n : nat) :
  forall w, oracle (turns name n w) = oracle w.
Proof.
  induction n as [|n IH]; intros w; cbn; [reflexivity|]. rewrite IH. reflexivity.
Qed.

Lemma turns_environ (name : value) (n : nat) :
  forall w, environ (turns name n w) = environ w.
Proof.
  induction n as [|n IH]; intros w; cbn; [reflexivity|]. rewrite IH. reflexivity.
Qed.

Lemma turns_trace (name : value) (n : nat) :
  forall w, trace (turns name n w) = trace w ++ cycles name n.
Proof.
  induction n as [|n IH]; intros w; cbn.
  - rewrite app_nil_r. reflexivity.
  - rewrite IH. cbn. rewrite <- !app_assoc. reflexivity.
Qed.

(** One turn of the loop before the deadline. *)
Lemma wait_loop_step (fuel : nat) (name : value) (deadline : Q) (w : World) :
  Qltb (clock w) deadline = true ->
  wait_loop (S fuel) name deadline w =
    match verdict (outcome (next_reply w)) with
    | Some r => Some (r, after_call (EGetOperation name) w)
    | None => wait_loop fuel name deadline (turn name w)
    end.
Proof.
  intros Hlt. cbn [wait_loop]. rewrite Hlt.
  unfold bind, external, lift, raise, ret, sleep, verdict, turn.
  destruct (outcome (next_reply w)) as [operation|info]; cbn [outcome_of]; [|reflexivity].
  destruct (py_get operation "done" VNone) as [done|e]; [|reflexivity].
  destruct (truthy done); [|reflexivity].
  destruct (py_get operation "error" VNone) as [error|e]; [|reflexivity].
  destruct (truthy error); [|reflexivity].
  destruct (py_getitem operation "error"); reflexivity.
Qed.

Lemma wait_loop_expired (fuel : nat) (name : value) (deadline : Q) (w : World) :
  Qltb (clock w) deadline = false ->
  wait_loop fuel name deadline w = Some (Raise (TimeoutError name), w).
Proof.
  intros H. destruct fuel; cbn [wait_loop]; rewrite H; reflexivity.
Qed.

(** With fuel for the time that is left, the loop makes [n] polls that find
    the operation pending, each before the deadline and followed by a sleep,
    and then either finds the deadline passed or makes a last poll that
    settles the outcome. *)
Lemma wait_loop_run (name : value) (deadline : Q) (fuel : nat) :
  forall w,
    (deadline - clock w <= 2 * inject_Z (Z.of_nat fuel))%Q ->
    exists n,
      (forall j, j < n ->
                 verdict (outcome (oracle w (served w + j))) = None /\
                 Qltb (clock (turns name j w)) deadline = true) /\
      ((Qltb (clock (turns name n w)) deadline = false /\
        wait_loop fuel name deadline w
          = Some (Raise (TimeoutError name), turns name n w)) \/
       (Qltb (clock (turns name n w)) deadline = true /\
        exists r,
          verdict (outcome (oracle w (served w + n))) = Some r /\
          wait_loop fuel name deadline w
            = Some (r, after_call (EGetOperation name) (turns name n w)))).
Proof.
  induction fuel as [|fuel IH]; intros w Hfuel.
  - exists 0. split; [intros j Hj; lia|]. left.
    assert (E : Qltb (clock w) deadline = false).
    { apply Qltb_false. change (inject_Z (Z.of_nat 0)) with 0%Q in Hfuel. lra. }
    split; [exact E|]. apply wait_loop_expired. exact E.
  - destruct (Qltb (clock w) deadline) eqn:Hlt.
    + rewrite (@wait_loop_step fuel name deadline w Hlt).
      destruct (verdict (outcome (next_reply w))) as [r|] eqn:Ev.
      * exists 0. split; [intros j Hj; lia|]. right. cbn [turns].
        split; [exact Hlt|]. exists r. rewrite Nat.add_0_r. auto.
      * destruct (IH (turn name w)) as (n & Hpend & Hend).
        { pose proof (turn_clock name w) as Hc.
          rewrite Nat2Z.inj_succ, <- Z.add_1_r, inject_Z_plus in Hfuel.
          change (inject_Z 1) with 1%Q in Hfuel. lra. }
        exists (S n). split.
        -- intros j Hj. destruct j as [|j].
           ++ rewrite Nat.add_0_r. auto.
           ++ destruct (Hpend j ltac:(lia)) as [Hv Hq]. split; [|exact Hq].
              cbn in Hv. rewrite <- Nat.add_succ_comm. exact Hv.
        -- cbn [turns]. replace (served w + S n) with (served (turn name w) + n)
             by (cbn; lia).
           exact Hend.
    + exists 0. split; [intros j Hj; lia|]. left. cbn [turns].
      split; [exact Hlt|]. apply wait_loop_expired. exact Hlt.
Qed.

Lemma verdict_pending (a : answer) :
  verdict a = None <-> exists operation, a = Returns operation /\ reports_pending operation.
Proof.
  unfold verdict, reports_pending. split.
  - destruct a as [operation|info]; [|discriminate].
    destruct (py_get operation "done" VNone) as [done|e] eqn:Edone; [|discriminate].
    destruct (truthy done) eqn:Ed.
    + destruct (py_get operation "error" VNone) as [error|e] eqn:Eerr; [|discriminate].
      destruct (truthy error); [|discriminate].
      destruct (py_getitem operation "error"); discriminate.
    + intros _. eauto.
  - intros (operation & -> & done & -> & ->). reflexivity.
Qed.

Lemma truthy_error_getitem (operation error : value) :
  py_get operation "error" VNone = Ok error -> truthy error = true ->
  py_getitem operation "error" = Ok error.
Proof.
  destruct operation as [| | | | |l|d]; cbn; try discriminate.
  destruct (dict_lookup d "error") as [v|]; cbn.
  - intros H _. injection H as ->. reflexivity.
  - intros H T. injection H as <-. discriminate.
Qed.

Lemma verdict_succeeded (a : answer) :
  verdict a = Some (Ok tt) <->
  exists operation,
    a = Returns operation /\ reports_done operation /\
    exists error, error_field operation = Ok error /\ truthy error = false.
Proof.
  unfold verdict, reports_done, error_field. split.
  - destruct a as [operation|info]; [|discriminate].
    destruct (py_get operation "done" VNone) as [done|e] eqn:Edone; [|discriminate].
    destruct (truthy done) eqn:Ed; [|discriminate].
    destruct (py_get operation "error" VNone) as [error|e] eqn:Eerr; [|discriminate].
    destruct (truthy error) eqn:Ee.
    + destruct (py_getitem operation "error"); discriminate.
    + intros _. exists operation. split; [reflexivity|].
      split; [exists done; auto|]. exists error; auto.
  - intros (operation & -> & (done & -> & ->) & error & -> & ->). reflexivity.
Qed.

Lemma verdict_failed (a : answer) (detail : value) :
  verdict a = Some (Raise (RuntimeError detail)) <->
  exists operation,
    a = Returns operation /\ reports_done operation /\
    error_field operation = Ok detail /\ truthy detail = true.
Proof.
  unfold verdict, reports_done, error_field. split.
  - destruct a as [operation|info]; [|discriminate].
    destruct (py_get operation "done" VNone) as [done|e] eqn:Edone.
    2:{ destruct operation; cbn in Edone; try discriminate;
        injection Edone as <-; discriminate. }
    destruct (truthy done) eqn:Ed; [|discriminate].
    destruct (py_get operation "error" VNone) as [error|e] eqn:Eerr.
    2:{ destruct operation; cbn in Eerr; try discriminate;
        injection Eerr as <-; discriminate. }
    destruct (truthy error) eqn:Ee; [|discriminate].
    rewrite (truthy_error_getitem _ Eerr Ee).
    intros H. injection H as <-. exists operation. split; [reflexivity|].
    split; [exists done; auto|]. auto.
  - intros (operation & -> & (done & -> & ->) & Herr & Ht).
    rewrite Herr, Ht, (truthy_error_getitem _ Herr Ht). reflexivity.
Qed.

Lemma verdict_never_timeout (a : answer) (name : value) :
  verdict a <> Some (Raise (TimeoutError name)).
Proof.
  unfold verdict. destruct a as [operation|info]; [|discriminate].
  destruct operation as [| | | | |l|d]; cbn; try discriminate.
  destruct (truthy _); [|discriminate].
  destruct (truthy _) eqn:Ee; [|discriminate].
  destruct (dict_lookup d "error"); discriminate.
Qed.

Lemma verdict_client_error (a : answer) (info : string) :
  verdict a = Some (Raise (ClientError info)) <-> a = Fails info.
Proof.
  unfold verdict. split.
  - destruct a as [operation|info']; [|intros H; injection H as <-; reflexivity].
    destruct operation as [| | | | |l|d]; cbn; try discriminate.
    destruct (truthy _); [|discriminate].
    destruct (truthy _); [|discriminate].
    destruct (dict_lookup d "error"); discriminate.
  - intros ->. reflexivity.
Qed.

Lemma wait_fuel_enough (timeout_seconds : Z) (c : Q) :
  (c + inject_Z timeout_seconds - c
   <= 2 * inject_Z (Z.of_nat (wait_fuel timeout_seconds)))%Q.
Proof.
  assert (H : (timeout_seconds <= Z.of_nat (wait_fuel timeout_seconds))%Z)
    by (unfold wait_fuel; lia).
  assert (H0 : (0 <= Z.of_nat (wait_fuel timeout_seconds))%Z) by lia.
  rewrite Zle_Qle in H. rewrite Zle_Qle in H0.
  change (inject_Z 0) with 0%Q in H0. lra.
Qed.

(** C6 (as amended): the waiter polls, sleeping two seconds after every poll
    that finds the operation pending, and always comes to an end.  It returns
    exactly when a poll it made reports the operation done with no error, the
    error field being absent or false in the sense of Python; it raises the
    operation failure with the error detail exactly when a poll reports done
    with an error field that is true; it raises the timeout exactly when
    every poll it made found the operation pending, and then the deadline
    [now + timeout_seconds] has passed; an exception of the client in a poll
    is the outcome of the wait.  Every poll begins before the deadline, which
    is looked at only then: a reply that comes in after it still counts. *)
Theorem wait_operation_outcome (name : value) (timeout_seconds : Z) (w : World) :
  let deadline := (clock w + inject_Z timeout_seconds)%Q in
  exists r w',
    _wait_operation name timeout_seconds w = Some (r, w') /\
    (r = Ok tt <->
     exists operation,
       observed w w' operation /\ reports_done operation /\
       exists error, error_field operation = Ok error /\ truthy error = false) /\
    (forall detail,
        r = Raise (RuntimeError detail) <->
        exists operation,
          observed w w' operation /\ reports_done operation /\
          error_field operation = Ok detail /\ truthy detail = true) /\
    (r = Raise (TimeoutError name) <->
     forall k, served w <= k < served w' ->
               exists operation,
                 outcome (oracle w k) = Returns operation /\
                 reports_pending operation) /\
    (r = Raise (TimeoutError name) -> (deadline <= clock w')%Q) /\
    (forall info,
        r = Raise (ClientError info) <->
        exists k, served w <= k < served w' /\ outcome (oracle w k) = Fails info) /\
    (forall j, served w + j < served w' ->
               (clock (turns name j w) < deadline)%Q) /\
    exists n,
      trace w' = trace w ++ cycles name n ++
                 match r with
                 | Raise (TimeoutError _) => []
                 | _ => [EGetOperation name]
                 end.
Proof.
  intros deadline. unfold _wait_operation. fold deadline.
  destruct (@wait_loop_run name deadline (wait_fuel timeout_seconds) w
              (wait_fuel_enough timeout_seconds (clock w)))
    as (n & Hpend & [[Hq Hrun]|[Hq (r & Hv & Hrun)]]).
  - (* the deadline passed after [n] pending polls *)
    exists (Raise (TimeoutError name)), (turns name n w).
    split; [exact Hrun|].
    assert (Hnone : forall k, served w <= k < served (turns name n w) ->
                              verdict (outcome (oracle w k)) = None).
    { intros k Hk. rewrite turns_served in Hk.
      destruct (Hpend (k - served w)) as [Hv _]; [lia|].
      replace (served w + (k - served w)) with k in Hv by lia. exact Hv. }
    repeat split.
    + discriminate.
    + intros (operation & (k & Hk & Ho) & Hdone & Herr).
      assert (E : verdict (outcome (oracle w k)) = Some (Ok tt)).
      { apply verdict_succeeded. eauto. }
      rewrite (Hnone k Hk) in E. discriminate.
    + discriminate.
    + intros (operation & (k & Hk & Ho) & Hdone & Herr).
      assert (E : verdict (outcome (oracle w k)) = Some (Raise (RuntimeError detail))).
      { apply verdict_failed. eauto. }
      rewrite (Hnone k Hk) in E. discriminate.
    + intros _ k Hk. apply verdict_pending. exact (Hnone k Hk).
    + intros _. apply Qltb_false. exact Hq.
    + discriminate.
    + intros (k & Hk & Ho).
      assert (E : verdict (outcome (oracle w k)) = Some (Raise (ClientError info))).
      { apply verdict_client_error. exact Ho. }
      rewrite (Hnone k Hk) in E. discriminate.
    + intros j Hj. rewrite turns_served in Hj.
      apply Qltb_true. apply (Hpend j). lia.
    + exists n. rewrite turns_trace, app_nil_r. reflexivity.
  - (* a last poll settles the outcome *)
    exists r, (after_call (EGetOperation name) (turns name n w)).
    split; [exact Hrun|].
    assert (Hserved : served (after_call (EGetOperation name) (turns name n w))
                      = S (served w + n)).
    { cbn. rewrite turns_served. reflexivity. }
    assert (Hlast : forall k r0,
               served w <= k < S (served w + n) ->
               verdict (outcome (oracle w k)) = Some r0 -> r0 = r).
    { intros k r0 Hk E.
      destruct (Nat.eq_dec k (served w + n)) as [->|Hne].
      - rewrite Hv in E. injection E as <-. reflexivity.
      - destruct (Hpend (k - served w)) as [Hv' _]; [lia|].
        replace (served w + (k - served w)) with k in Hv' by lia.
        rewrite Hv' in E. discriminate. }
    unfold observed. rewrite Hserved. repeat split.
    + intros ->. apply verdict_succeeded in Hv.
      destruct Hv as (operation & Ho & Hrest). exists operation.
      split; [|exact Hrest]. exists (served w + n). split; [lia|exact Ho].
    + intros (operation & (k & Hk & Ho) & Hdone & Herr).
      symmetry. apply (Hlast k (Ok tt) Hk). apply verdict_succeeded. eauto.
    + intros ->. apply verdict_failed in Hv.
      destruct Hv as (operation & Ho & Hrest). exists operation.
      split; [|exact Hrest]. exists (served w + n). split; [lia|exact Ho].
    + intros (operation & (k & Hk & Ho) & Hdone & Herr).
      symmetry. apply (Hlast k (Raise (RuntimeError detail)) Hk).
      apply verdict_failed. eauto.
    + intros ->. exfalso. exact (verdict_never_timeout _ Hv).
    + intros Hall. exfalso.
      destruct (Hall (served w + n)) as (operation & Ho & Hp); [lia|].
      assert (E : verdict (outcome (oracle w (served w + n))) = None).
      { apply verdict_pending. eauto. }
      rewrite Hv in E. discriminate.
    + intros ->. exfalso. exact (verdict_never_timeout _ Hv).
    + intros ->. apply verdict_client_error in Hv.
      exists (served w + n). split; [lia|exact Hv].
    + intros (k & Hk & Ho).
      symmetry. apply (Hlast k (Raise (ClientError info)) Hk).
      apply verdict_client_error. exact Ho.
    + intros j Hj. apply Qltb_true.
      destruct (Nat.eq_dec j n) as [->|Hne]; [exact Hq|].
      apply (Hpend j). lia.
    + exists n. cbn [trace after_call]. rewrite turns_trace, <- app_assoc.
      f_equal. f_equal.
      destruct r as [[]|e]; [reflexivity|].
      destruct e; try reflexivity.
      exfalso. exact (verdict_never_timeout _ Hv).
Qed.

(** ** Effects of the computations *)

Section Effects.

Variable P : Event -> Prop.

Lemma extends_refl (w : World) : extends P w w.
Proof.
  repeat split; auto. exists []. rewrite app_nil_r. auto.
Qed.

Lemma extends_trans (w1 w2 w3 : World) :
  extends P w1 w2 -> extends P w2 w3 -> extends P w1 w3.
Proof.
  intros (E1 & O1 & S1 & t1 & T1 & F1) (E2 & O2 & S2 & t2 & T2 & F2).
  repeat split; try congruence; try lia.
  exists (t1 ++ t2). rewrite T2, T1, app_assoc. split; [reflexivity|].
  apply Forall_app. auto.
Qed.

Lemma extends_emit (ev : Event) (w : World) : P ev -> extends P w (emit ev w).
Proof.
  intros H. repeat split; auto. exists [ev]. auto.
Qed.

Lemma extends_after_call (ev : Event) (w : World) :
  P ev -> extends P w (after_call ev w).
Proof.
  intros H. repeat split; cbn; auto. exists [ev]. auto.
Qed.

Lemma extends_after_sleep (secs : Z) (w : World) :
  P (ESleep secs) -> extends P w (after_sleep secs w).
Proof.
  intros H. repeat split; cbn; auto. exists [ESleep secs]. auto.
Qed.

Lemma emits_ret {A} (a : A) : emits P (ret a).
Proof.
  intros w r w' H. injection H as _ <-. apply extends_refl.
Qed.

Lemma emits_raise {A} (e : exn) : emits P (@raise A e).
Proof.
  intros w r w' H. injection H as _ <-. apply extends_refl.
Qed.

Lemma emits_lift {A} (x : res A) : emits P (lift x).
Proof.
  intros w r w' H. injection H as _ <-. apply extends_refl.
Qed.

Lemma emits_getenv (name : string) : emits P (getenv name).
Proof.
  intros w r w' H. injection H as _ <-. apply extends_refl.
Qed.

Lemma emits_getenv_default (name default : string) :
  emits P (getenv_default name default).
Proof.
  intros w r w' H. injection H as _ <-. apply extends_refl.
Qed.

Lemma emits_log (lvl : Level) (record : LogRecord) :
  P (ELog lvl record) -> emits P (log lvl record).
Proof.
  intros HP w r w' H. injection H as _ <-. apply extends_emit. exact HP.
Qed.

Lemma emits_external (ev : Event) : P ev -> emits P (external ev).
Proof.
  intros HP w r w' H. injection H as _ <-. apply extends_after_call. exact HP.
Qed.

Lemma emits_sleep (secs : Z) : P (ESleep secs) -> emits P (sleep secs).
Proof.
  intros HP w r w' H. injection H as _ <-. apply extends_after_sleep. exact HP.
Qed.

Lemma emits_bind {A C} (m : M A) (k : A -> M C) :
  emits P m -> (forall a, emits P (k a)) -> emits P (bind m k).
Proof.
  intros Hm Hk w r w' H. unfold bind in H.
  destruct (m w) as [[[a|e] w1]|] eqn:E; [| |discriminate].
  - eapply extends_trans; [eapply Hm; eassumption|eapply Hk; eassumption].
  - injection H as _ <-. eapply Hm; eassumption.
Qed.

Lemma wait_loop_emits (name : value) (deadline : Q) (fuel : nat) :
  P (EGetOperation name) -> P (ESleep 2) ->
  emits P (wait_loop fuel name deadline).
Proof.
  intros Hg Hs. induction fuel as [|fuel IH]; intros w r w' H.
  - cbn in H. destruct (Qltb (clock w) deadline); [discriminate|].
    injection H as _ <-. apply extends_refl.
  - destruct (Qltb (clock w) deadline) eqn:Hlt.
    + rewrite (@wait_loop_step fuel name deadline w Hlt) in H.
      destruct (verdict (outcome (next_reply w))).
      * injection H as _ <-. apply extends_after_call. exact Hg.
      * eapply extends_trans; [|eapply IH; eassumption].
        unfold turn. eapply extends_trans.
        -- apply extends_after_call. exact Hg.
        -- apply extends_after_sleep. exact Hs.
    + rewrite (@wait_loop_expired (S fuel) name deadline w Hlt) in H.
      injection H as _ <-. apply extends_refl.
Qed.

Lemma wait_operation_emits (name : value) (timeout_seconds : Z) :
  P (EGetOperation name) -> P (ESleep 2) ->
  emits P (_wait_operation name timeout_seconds).
Proof.
  intros Hg Hs w r w' H. unfold _wait_operation in H.
  eapply wait_loop_emits; eassumption.
Qed.

Lemma drop_public_invoker_emits (service_name : string) (dry_run : bool) :
  P (EGetIamPolicy service_name) ->
  P (ELog INFO (LogDryRunInvoker service_name)) ->
  (dry_run = false -> forall body, P (ESetIamPolicy service_name body)) ->
  emits P (_drop_public_invoker service_name dry_run).
Proof.
  intros Hg Hl Hs. unfold _drop_public_invoker.
  apply emits_bind; [apply emits_external; exact Hg|]. intros policy.
  apply emits_bind; [apply emits_lift|]. intros [updated removed].
  destruct (negb removed); [apply emits_ret|].
  destruct dry_run.
  - apply emits_bind; [apply emits_log; exact Hl|]. intros _. apply emits_ret.
  - apply emits_bind; [apply emits_lift|]. intros policy'.
    apply emits_bind; [apply emits_external; apply Hs; reflexivity|].
    intros _. apply emits_ret.
Qed.

Lemma restrict_ingress_emits (service_name : string) (dry_run : bool) :
  P (ELog INFO (LogDryRunIngress service_name)) ->
  (dry_run = false ->
   P (EPatch service_name "ingress" ingress_body) /\
   P (ESleep 2) /\ forall name, P (EGetOperation name)) ->
  emits P (_restrict_ingress service_name dry_run).
Proof.
  intros Hl Hp. unfold _restrict_ingress. destruct dry_run.
  - apply emits_log. exact Hl.
  - destruct (Hp eq_refl) as (H1 & H2 & H3).
    apply emits_bind; [apply emits_external; exact H1|]. intros operation.
    apply emits_bind; [apply emits_lift|]. intros operation_name.
    destruct (truthy operation_name); [|apply emits_ret].
    apply wait_operation_emits; auto.
Qed.

Lemma for_each_emits (body : string -> M unit) (services : list string) :
  (forall service, emits P (body service)) -> emits P (for_each body services).
Proof.
  intros Hb. induction services as [|s l IH]; cbn [for_each].
  - apply emits_ret.
  - apply emits_bind; [apply Hb|]. intros _. exact IH.
Qed.

End Effects.

(** [total]: every computation of the program comes to an end. *)

Lemma total_bind {A C} (m : M A) (k : A -> M C) :
  total m -> (forall a, total (k a)) -> total (bind m k).
Proof.
  intros Hm Hk w. unfold bind. destruct (Hm w) as (r & w1 & ->).
  destruct r as [a|e]; [apply Hk|eauto].
Qed.

Lemma total_ret {A} (a : A) : total (ret a).
Proof. intros w. unfold ret. eauto. Qed.

Lemma total_lift {A} (x : res A) : total (lift x).
Proof. intros w. unfold lift. eauto. Qed.

Lemma total_log (lvl : Level) (record : LogRecord) : total (log lvl record).
Proof. intros w. unfold log. eauto. Qed.

Lemma total_external (ev : Event) : total (external ev).
Proof. intros w. unfold external. eauto. Qed.

Lemma total_getenv (name : string) : total (getenv name).
Proof. intros w. unfold getenv. eauto. Qed.

Lemma total_getenv_default (name default : string) :
  total (getenv_default name default).
Proof. intros w. unfold getenv_default. eauto. Qed.

Lemma wait_operation_total (name : value) (timeout_seconds : Z) :
  total (_wait_operation name timeout_seconds).
Proof.
  intros w. unfold _wait_operation.
  destruct (@wait_loop_run name (clock w + inject_Z timeout_seconds)%Q
              (wait_fuel timeout_seconds) w
              (wait_fuel_enough timeout_seconds (clock w)))
    as (n & _ & [[_ H]|[_ (r & _ & H)]]); rewrite H; eauto.
Qed.

Lemma drop_public_invoker_total (service_name : string) (dry_run : bool) :
  total (_drop_public_invoker service_name dry_run).
Proof.
  unfold _drop_public_invoker.
  apply total_bind; [apply total_external|]. intros policy.
  apply total_bind; [apply total_lift|]. intros [updated removed].
  destruct (negb removed); [apply total_ret|].
  destruct dry_run.
  - apply total_bind; [apply total_log|]. intros _. apply total_ret.
  - apply total_bind; [apply total_lift|]. intros policy'.
    apply total_bind; [apply total_external|]. intros _. apply total_ret.
Qed.

Lemma restrict_ingress_total (service_name : string) (dry_run : bool) :
  total (_restrict_ingress service_name dry_run).
Proof.
  unfold _restrict_ingress. destruct dry_run; [apply total_log|].
  apply total_bind; [apply total_external|]. intros operation.
  apply total_bind; [apply total_lift|]. intros operation_name.
  destruct (truthy operation_name); [apply wait_operation_total|apply total_ret].
Qed.

Lemma guard_service_total (project_id region : string) (dry_run : bool)
  (service : string) :
  total (guard_service project_id region dry_run service).
Proof.
  unfold guard_service.
  apply total_bind; [apply total_log|]. intros _.
  apply total_bind; [apply drop_public_invoker_total|]. intros _.
  apply restrict_ingress_total.
Qed.

Lemma for_each_total (body : string -> M unit) (services : list string) :
  (forall service, total (body service)) -> total (for_each body services).
Proof.
  intros Hb. induction services as [|s l IH]; cbn [for_each].
  - apply total_ret.
  - apply total_bind; [apply Hb|]. intros _. exact IH.
Qed.

Lemma remediate_total (dry_run : bool) : total (remediate dry_run).
Proof.
  unfold remediate.
  apply total_bind; [apply total_getenv|]. intros project_id.
  apply total_bind; [apply total_getenv_default|]. intros region.
  apply total_bind; [apply total_getenv_default|]. intros services_raw.
  destruct project_id as [project|]; [|apply total_log].
  destruct (parse_services services_raw) as [|s l]; [apply total_log|].
  destruct (String.eqb project EmptyString); [apply total_log|].
  apply total_bind; [|intros _].
  { unfold acquire_clients. repeat (apply total_bind; [apply total_external|intros _]).
    apply total_ret. }
  apply total_bind; [|intros _; apply total_log].
  apply for_each_total. intros service. apply guard_service_total.
Qed.

(** The handler comes to an end on every event and in every world. *)
Lemma handle_budget_alert_total {B : Builtins} (cloud_event : CloudEvent) :
  total (handle_budget_alert cloud_event).
Proof.
  unfold handle_budget_alert.
  apply total_bind; [apply total_lift|]. intros payload.
  destruct (negb (truthy payload)); [apply total_log|].
  apply total_bind; [apply total_lift|]. intros c.
  apply total_bind; [apply total_lift|]. intros b.
  apply total_bind; [apply total_getenv_default|]. intros threshold_raw.
  apply total_bind; [apply total_lift|]. intros t.
  apply total_bind; [apply total_getenv|]. intros dry_run_raw.
  destruct (fle b fzero); [apply total_log|].
  apply total_bind; [apply total_lift|]. intros display.
  apply total_bind; [apply total_log|]. intros _.
  destruct (flt (fdiv c b) t); [apply total_log|apply remediate_total].
Qed.

(** ** The run of the policy editor *)

(** The run of [_drop_public_invoker] on the policy the remote side returns. *)
Lemma drop_public_invoker_run (service_name : string) (dry_run : bool) (w : World)
  (policy : value) (updated : list value) (removed : bool) :
  outcome (next_reply w) = Returns policy ->
  rewrite_policy policy = Ok (updated, removed) ->
  _drop_public_invoker service_name dry_run w =
    let w1 := after_call (EGetIamPolicy service_name) w in
    if negb removed then Some (Ok false, w1)
    else if dry_run then
      Some (Ok true, emit (ELog INFO (LogDryRunInvoker service_name)) w1)
    else
      match py_setitem policy "bindings" (VList updated) with
      | Ok policy' =>
          Some (rbind (outcome_of (outcome (next_reply w1))) (fun _ => Ok true),
                after_call (ESetIamPolicy service_name (VDict [("policy", policy')])) w1)
      | Raise e => Some (Raise e, w1)
      end.
Proof.
  intros Ho Hr. unfold _drop_public_invoker, bind, external, lift, log, ret.
  rewrite Ho. cbn [outcome_of]. rewrite Hr.
  destruct removed; cbn [negb]; [|reflexivity].
  destruct dry_run; [reflexivity|].
  destruct (py_setitem policy "bindings" (VList updated)); [|reflexivity].
  destruct (outcome_of (outcome (next_reply _))); reflexivity.
Qed.

Lemma rewrite_policy_dict (policy : value) (acc : list value * bool) :
  rewrite_policy policy = Ok acc -> exists d, policy = VDict d.
Proof.
  unfold rewrite_policy. destruct policy; cbn; try discriminate. eauto.
Qed.

(** C4: a policy that a first run has rewritten is left alone by a second
    run: the rewrite of the written policy gives the same bindings and
    [removed = False].  Whenever the filtering removes no member the
    function returns [False] after the one read, and when the remote side
    hands back what the first run wrote, the second run returns [False]
    without a write. *)
Theorem policy_editor_idempotent :
  (forall policy policy' updated removed,
      rewrite_policy policy = Ok (updated, removed) ->
      py_setitem policy "bindings" (VList updated) = Ok policy' ->
      rewrite_policy policy' = Ok (updated, false)) /\
  (forall service_name dry_run w policy updated,
      outcome (next_reply w) = Returns policy ->
      rewrite_policy policy = Ok (updated, false) ->
      _drop_public_invoker service_name dry_run w
        = Some (Ok false, after_call (EGetIamPolicy service_name) w)) /\
  (forall service_name w policy policy' updated written,
      outcome (next_reply w) = Returns policy ->
      rewrite_policy policy = Ok (updated, true) ->
      py_setitem policy "bindings" (VList updated) = Ok policy' ->
      let w1 := after_call (EGetIamPolicy service_name) w in
      let w2 := after_call
                  (ESetIamPolicy service_name (VDict [("policy", policy')])) w1 in
      outcome (next_reply w1) = Returns written ->
      outcome (next_reply w2) = Returns policy' ->
      _drop_public_invoker service_name false w = Some (Ok true, w2) /\
      _drop_public_invoker service_name false w2
        = Some (Ok false, after_call (EGetIamPolicy service_name) w2)).
Proof.
  split; [exact rewrite_policy_idempotent|]. split.
  - intros service_name dry_run w policy updated Ho Hr.
    rewrite (drop_public_invoker_run service_name dry_run w Ho Hr). reflexivity.
  - intros service_name w policy policy' updated written Ho Hr Hs w1 w2 Ho1 Ho2.
    split.
    + rewrite (drop_public_invoker_run service_name false w Ho Hr).
      cbn [negb]. rewrite Hs. fold w1. rewrite Ho1. reflexivity.
    + pose proof (rewrite_policy_idempotent _ Hr Hs) as Hr2.
      rewrite (drop_public_invoker_run service_name false w2 Ho2 Hr2). reflexivity.
Qed.

(** The test of line 53 fails on the public member and on nothing else. *)
Lemma not_public_false (member : value) :
  not_public member = false <-> member = public_member.
Proof.
  unfold not_public, public_member, ne_str. destruct member; split; try discriminate.
  - intros H. apply negb_false_iff, String.eqb_eq in H. rewrite H. reflexivity.
  - intros H. injection H as ->. rewrite String.eqb_refl. reflexivity.
Qed.

(** What the comprehension of line 53 leaves: the members without the public
    one. *)
Lemma filter_not_public (items : list value) :
  without public_member items (filter not_public items).
Proof.
  induction items as [|m l IH]; cbn [filter]; [constructor|].
  destruct (not_public m) eqn:E.
  - apply without_keep; [|exact IH]. intros H. apply not_public_false in H. congruence.
  - apply not_public_false in E. subst m. apply without_drop. exact IH.
Qed.

Lemma without_spec (x : value) (l l' : list value) :
  without x l l' -> ~ In x l' /\ forall y, In y l -> y <> x -> In y l'.
Proof.
  induction 1 as [|l l' _ [IH1 IH2]|y l l' Hy _ [IH1 IH2]].
  - split; [intros []|intros y []].
  - split; [exact IH1|]. intros y [<-|Hin] Hne; [contradiction|]. apply IH2; assumption.
  - split.
    + intros [E|Hin]; [exact (Hy E)|exact (IH1 Hin)].
    + intros z [<-|Hin] Hne; [left; reflexivity|right; apply IH2; assumption].
Qed.

(** The image of a binding, said without the test of the code: a binding of
    another role is its own image; the image of an invoker binding is
    nothing when it has no member but the public one, and otherwise one
    invoker binding whose members are its members without the public one. *)
Lemma rewritten_image (binding : value) (image : list value) :
  rewritten binding image ->
  (is_invoker binding = false -> image = [binding]) /\
  (is_invoker binding = true ->
   exists items members,
     members_of binding = Ok items /\
     without public_member items members /\
     match members with
     | [] => image = []
     | _ :: _ =>
         exists copied,
           image = [copied] /\ is_invoker copied = true /\
           members_of copied = Ok members
     end).
Proof.
  intros Hw. inversion Hw as [d Hi|b items Hi Hm Hf|b copied items Hi Hm Hf Hs]; subst.
  - split; [reflexivity|]. intros H. congruence.
  - split; [intros H; congruence|]. intros _.
    exists items, []. split; [exact Hm|]. split; [|reflexivity].
    rewrite <- Hf. apply filter_not_public.
  - split; [intros H; congruence|]. intros _.
    exists items, (filter not_public items). split; [exact Hm|].
    split; [apply filter_not_public|].
    destruct binding as [| | | | |l|d]; try discriminate.
    cbn in Hs. injection Hs as <-.
    destruct (filter not_public items) as [|m f] eqn:E; [contradiction|].
    eexists. split; [reflexivity|]. split.
    + rewrite is_invoker_set_members. exact Hi.
    + apply members_of_set_members.
Qed.

(** C5: the rewritten binding list is the concatenation, in order, of the
    images of the fetched bindings: a binding of another role is its own
    image; an invoker binding becomes a copy whose members are its members
    without the public one, in their order, or nothing when no member is
    left.  So the bindings of other roles appear unchanged and in order, and
    every invoker binding of the result has members, none of them the public
    member ["allUsers"]; this list is what the policy write sends. *)
Theorem policy_rewrite_shape (policy : value) (updated : list value) (removed : bool) :
  rewrite_policy policy = Ok (updated, removed) ->
  (exists bindings images,
      bindings_of policy = Ok bindings /\
      Forall2 rewritten bindings images /\
      updated = concat images /\
      filter (fun b => negb (is_invoker b)) updated
      = filter (fun b => negb (is_invoker b)) bindings /\
      Forall2 (fun binding image =>
                 (is_invoker binding = false -> image = [binding]) /\
                 (is_invoker binding = true ->
                  exists items members,
                    members_of binding = Ok items /\
                    without public_member items members /\
                    match members with
                    | [] => image = []
                    | _ :: _ =>
                        exists copied,
                          image = [copied] /\ is_invoker copied = true /\
                          members_of copied = Ok members
                    end))
              bindings images) /\
  Forall (fun copied =>
            is_invoker copied = true ->
            exists members,
              members_of copied = Ok members /\
              members <> [] /\ forallb not_public members = true /\
              ~ In (VStr "allUsers") members)
         updated /\
  (forall service_name w,
      outcome (next_reply w) = Returns policy ->
      removed = true ->
      exists policy' r,
        py_setitem policy "bindings" (VList updated) = Ok policy' /\
        py_get policy' "bindings" (VList []) = Ok (VList updated) /\
        _drop_public_invoker service_name false w
          = Some (r, after_call
                       (ESetIamPolicy service_name (VDict [("policy", policy')]))
                       (after_call (EGetIamPolicy service_name) w))).
Proof.
  intros Hr. pose proof Hr as Hspec. apply rewrite_policy_spec in Hspec.
  destruct Hspec as (bs & images & Hb & HF & -> & ->). split; [|split].
  - exists bs, images. split; [exact Hb|]. split; [exact HF|].
    split; [reflexivity|]. split.
    + clear Hr Hb. induction HF as [|b image l images' Hw _ IH]; cbn; [reflexivity|].
      rewrite filter_app, IH, (rewritten_other_roles Hw). cbn.
      destruct (negb (is_invoker b)); reflexivity.
    + clear Hr Hb. induction HF as [|b image l images' Hw _ IH]; constructor;
        [apply rewritten_image; exact Hw|exact IH].
  - clear Hr Hb. induction HF as [|b image l images' Hw _ IH]; cbn; [constructor|].
    apply Forall_app. split; [|exact IH].
    apply Forall_forall. intros copied Hin Hinv.
    destruct (@rewritten_trimmed b copied image Hw Hin Hinv) as (_ & items & _ & Hm & Hne & _).
    exists (filter not_public items).
    split; [exact Hm|]. split; [exact Hne|]. split; [apply filter_forallb|].
    exact (proj1 (without_spec (filter_not_public items))).
  - intros service_name w Ho Hrem.
    destruct (rewrite_policy_dict _ Hr) as (d & ->).
    exists (VDict (dict_set d "bindings" (VList (concat images)))).
    eexists. split; [reflexivity|]. split.
    + cbn. rewrite dict_lookup_set_same. reflexivity.
    + rewrite (drop_public_invoker_run service_name false w Ho Hr).
      rewrite Hrem. reflexivity.
Qed.

(** ** The orchestrator *)

Lemma restricted_app (tr1 tr2 : list Event) :
  restricted (tr1 ++ tr2) = restricted tr1 ++ restricted tr2.
Proof.
  induction tr1 as [|ev tr1 IH]; cbn; [reflexivity|].
  destruct ev as [lvl []| | | | | | | |]; cbn; rewrite IH; reflexivity.
Qed.

Lemma inner_restricted (tr : list Event) :
  Forall inner tr ->
  restricted tr = [] /\ Forall (fun ev => is_finished ev = false) tr.
Proof.
  induction 1 as [|ev tr Hev _ [IH1 IH2]]; cbn; [auto|].
  unfold inner in Hev.
  destruct ev as [lvl []| | | | | | | |]; cbn in *; try discriminate; auto.
Qed.

(** One service: the line of the orchestrator, then the editor, then the
    restrictor on the world the editor left. *)
Lemma guard_service_run (project_id region : string) (dry_run : bool)
  (service : string) (w : World) :
  guard_service project_id region dry_run service w =
    let service_name := service_path project_id region service in
    match _drop_public_invoker service_name dry_run
            (emit (ELog INFO (LogRestricting service_name)) w) with
    | Some (Ok _, w1) => _restrict_ingress service_name dry_run w1
    | Some (Raise e, w1) => Some (Raise e, w1)
    | None => None
    end.
Proof.
  unfold guard_service, bind, log. cbn zeta.
  destruct (_drop_public_invoker _ _ _) as [[[a|e] w1]|]; reflexivity.
Qed.

Lemma guard_service_trace (project_id region : string) (dry_run : bool)
  (service : string) (w w' : World) (r : res unit) :
  guard_service project_id region dry_run service w = Some (r, w') ->
  exists tr,
    trace w' = trace w
               ++ ELog INFO (LogRestricting (service_path project_id region service))
               :: tr /\
    Forall inner tr.
Proof.
  intros H. unfold guard_service in H. cbn zeta in H.
  set (service_name := service_path project_id region service) in *.
  unfold bind at 1 in H. unfold log at 1 in H.
  assert (E : emits inner
                (bind (_drop_public_invoker service_name dry_run)
                      (fun _ => _restrict_ingress service_name dry_run))).
  { apply emits_bind.
    - apply drop_public_invoker_emits; reflexivity.
    - intros _. apply restrict_ingress_emits; try reflexivity.
      intros _. repeat split. }
  apply E in H. destruct H as (_ & _ & _ & tr & Ht & HF).
  exists tr. split; [|exact HF]. rewrite Ht. cbn. rewrite <- app_assoc. reflexivity.
Qed.

Lemma for_each_app (body : string -> M unit) (l1 l2 : list string) (w : World) :
  for_each body (l1 ++ l2) w =
    match for_each body l1 w with
    | Some (Ok _, w1) => for_each body l2 w1
    | Some (Raise e, w1) => Some (Raise e, w1)
    | None => None
    end.
Proof.
  revert w. induction l1 as [|s l1 IH]; intros w; cbn [for_each app].
  - reflexivity.
  - unfold bind. destruct (body s w) as [[[[]|e] w1]|]; [apply IH|reflexivity..].
Qed.

(** The services a loop has completed, read off the trace. *)
Lemma for_each_trace (project_id region : string) (dry_run : bool)
  (services : list string) :
  forall w w',
    for_each (guard_service project_id region dry_run) services w = Some (Ok tt, w') ->
    exists tr,
      trace w' = trace w ++ tr /\
      restricted tr = map (service_path project_id region) services /\
      Forall (fun ev => is_finished ev = false) tr.
Proof.
  induction services as [|s l IH]; intros w w' H; cbn [for_each] in H.
  - injection H as <-. exists []. rewrite app_nil_r. auto.
  - unfold bind in H.
    destruct (guard_service project_id region dry_run s w) as [[[[]|e] w1]|] eqn:E;
      try discriminate.
    destruct (guard_service_trace _ _ _ _ _ E) as (tr1 & T1 & F1).
    destruct (IH _ _ H) as (tr2 & T2 & R2 & F2).
    destruct (inner_restricted F1) as [R1 N1].
    exists ((ELog INFO (LogRestricting (service_path project_id region s)) :: tr1) ++ tr2).
    repeat split.
    + rewrite T2, T1, <- app_assoc. reflexivity.
    + rewrite restricted_app. cbn. rewrite R1, R2. reflexivity.
    + apply Forall_app. split; [constructor; auto|exact F2].
Qed.

(** The run of [remediate] under a complete configuration. *)
Lemma remediate_run (dry_run : bool) (w : World) (project : string) :
  environ w "GCP_PROJECT_ID" = Some project ->
  project <> EmptyString ->
  let region := env_or w "CLOUD_RUN_REGION" "us-central1" in
  let services := parse_services (env_or w "CLOUD_RUN_SERVICES" "") in
  services <> [] ->
  remediate dry_run w =
    match acquire_clients w with
    | Some (Ok _, w0) =>
        match for_each (guard_service project region dry_run) services w0 with
        | Some (Ok _, w2) =>
            Some (Ok tt, emit (ELog INFO (LogFinished (length services))) w2)
        | Some (Raise e, w2) => Some (Raise e, w2)
        | None => None
        end
    | Some (Raise e, w0) => Some (Raise e, w0)
    | None => None
    end.
Proof.
  intros Hp Hne region services Hs.
  unfold remediate, bind at 1, getenv. rewrite Hp.
  unfold bind at 1, getenv_default at 1. unfold bind at 1, getenv_default at 1.
  fold region. fold services.
  destruct services as [|s l] eqn:Es; [contradiction|].
  destruct (String.eqb_spec project EmptyString); [contradiction|].
  unfold bind, log.
  destruct (acquire_clients w) as [[[[]|e] w0]|]; reflexivity.
Qed.

(** The remediation stage, lines 116 to 137, under a complete configuration
    and with the clients acquired. *)
Lemma remediate_in_order (dry_run : bool) (w w0 : World) (project : string) :
  environ w "GCP_PROJECT_ID" = Some project ->
  project <> EmptyString ->
  let region := env_or w "CLOUD_RUN_REGION" "us-central1" in
  let services := parse_services (env_or w "CLOUD_RUN_SERVICES" "") in
  let body := guard_service project region dry_run in
  let name := service_path project region in
  services <> [] ->
  acquire_clients w = Some (Ok tt, w0) ->
  (forall service w1,
      body service w1 =
        match _drop_public_invoker (name service) dry_run
                (emit (ELog INFO (LogRestricting (name service))) w1) with
        | Some (Ok _, w2) => _restrict_ingress (name service) dry_run w2
        | Some (Raise e, w2) => Some (Raise e, w2)
        | None => None
        end) /\
  (forall completed service rest e w1 w2,
      services = completed ++ service :: rest ->
      for_each body completed w0 = Some (Ok tt, w1) ->
      body service w1 = Some (Raise e, w2) ->
      remediate dry_run w = Some (Raise e, w2) /\
      exists tr,
        trace w2 = trace w0 ++ tr /\
        restricted tr = map name (completed ++ [service]) /\
        Forall (fun ev => is_finished ev = false) tr) /\
  (forall w2,
      for_each body services w0 = Some (Ok tt, w2) ->
      remediate dry_run w
        = Some (Ok tt, emit (ELog INFO (LogFinished (length services))) w2) /\
      exists tr,
        trace w2 = trace w0 ++ tr /\
        restricted tr = map name services /\
        Forall (fun ev => is_finished ev = false) tr).
Proof.
  intros Hp Hne region services body name Hs Hc.
  split; [intros service w1; apply guard_service_run|]. split.
  - intros completed service rest e w1 w2 Hsplit Hdone Hfail. split.
    + rewrite (remediate_run dry_run w Hp Hne Hs), Hc.
      fold region services body. rewrite Hsplit, for_each_app, Hdone.
      cbn [for_each]. unfold bind. rewrite Hfail. reflexivity.
    + destruct (for_each_trace _ _ _ _ _ Hdone) as (tr1 & T1 & R1 & F1).
      destruct (guard_service_trace _ _ _ _ _ Hfail) as (tr2 & T2 & F2).
      destruct (inner_restricted F2) as [R2 N2].
      exists (tr1 ++ ELog INFO (LogRestricting (name service)) :: tr2).
      repeat split.
      * rewrite T2, T1, <- app_assoc. reflexivity.
      * rewrite restricted_app, map_app. cbn. rewrite R1, R2. reflexivity.
      * apply Forall_app. split; [exact F1|constructor; auto].
  - intros w2 Hall. split.
    + rewrite (remediate_run dry_run w Hp Hne Hs), Hc.
      fold region services body. rewrite Hall. reflexivity.
    + exact (for_each_trace _ _ _ _ _ Hall).
Qed.

(** C8: in an invocation whose guard fires, the services are taken in the
    order of the configured list, and for each the editor runs before the
    restrictor.  An exception raised while a service is remediated is the
    result of the invocation: the world is left as it was when the exception
    was raised, the services after it are not touched, and the final count is
    not logged; the count is logged when the loop has completed every
    service. *)
Theorem services_in_order_until_failure {B : Builtins}
  (cloud_event : CloudEvent) (w w0 : World) (payload display : value)
  (c b t : float) (project : string) :
  _parse_payload cloud_event = Ok payload ->
  truthy payload = true ->
  amount payload "costAmount" = Ok c ->
  amount payload "budgetAmount" = Ok b ->
  float_of_string (env_or w "BUDGET_STOP_THRESHOLD" "1.0") = Some t ->
  display_name_of payload = Ok display ->
  fle b fzero = false ->
  flt (fdiv c b) t = false ->
  environ w "GCP_PROJECT_ID" = Some project ->
  project <> EmptyString ->
  let dry_run := _to_bool (environ w "BUDGET_GUARD_DRY_RUN") in
  let region := env_or w "CLOUD_RUN_REGION" "us-central1" in
  let services := parse_services (env_or w "CLOUD_RUN_SERVICES" "") in
  let body := guard_service project region dry_run in
  let name := service_path project region in
  services <> [] ->
  acquire_clients (emit (ELog INFO (LogBudgetUpdate c b (fdiv c b) display)) w)
    = Some (Ok tt, w0) ->
  (forall service w1,
      body service w1 =
        match _drop_public_invoker (name service) dry_run
                (emit (ELog INFO (LogRestricting (name service))) w1) with
        | Some (Ok _, w2) => _restrict_ingress (name service) dry_run w2
        | Some (Raise e, w2) => Some (Raise e, w2)
        | None => None
        end) /\
  (forall completed service rest e w1 w2,
      services = completed ++ service :: rest ->
      for_each body completed w0 = Some (Ok tt, w1) ->
      body service w1 = Some (Raise e, w2) ->
      handle_budget_alert cloud_event w = Some (Raise e, w2) /\
      exists tr,
        trace w2 = trace w0 ++ tr /\
        restricted tr = map name (completed ++ [service]) /\
        Forall (fun ev => is_finished ev = false) tr) /\
  (forall w2,
      for_each body services w0 = Some (Ok tt, w2) ->
      handle_budget_alert cloud_event w
        = Some (Ok tt, emit (ELog INFO (LogFinished (length services))) w2) /\
      exists tr,
        trace w2 = trace w0 ++ tr /\
        restricted tr = map name services /\
        Forall (fun ev => is_finished ev = false) tr).
Proof.
  intros Hp Ht Hc Hb Hth Hd Hvalid Hfire Hproj Hne dry_run region services body name
         Hs Hacq.
  set (w1 := emit (ELog INFO (LogBudgetUpdate c b (fdiv c b) display)) w) in *.
  assert (E : handle_budget_alert cloud_event w = remediate dry_run w1).
  { rewrite (handle_budget_alert_decoded cloud_event w Hp Ht Hc Hb Hth Hd).
    rewrite Hvalid. cbn zeta. rewrite Hfire. reflexivity. }
  rewrite E.
  exact (@remediate_in_order dry_run w1 w0 project Hproj Hne Hs Hacq).
Qed.

(** ** Dry run *)

Lemma acquire_clients_emits (P : Event -> Prop) :
  P EAuthDefault -> P ECredentialsRefresh -> P EBuild -> emits P acquire_clients.
Proof.
  intros H1 H2 H3. unfold acquire_clients.
  apply emits_bind; [apply emits_external; exact H1|]. intros _.
  apply emits_bind; [apply emits_external; exact H2|]. intros _.
  apply emits_bind; [apply emits_external; exact H3|]. intros _.
  apply emits_ret.
Qed.

Lemma guard_service_dry_quiet (project_id region service : string) :
  emits quiet (guard_service project_id region true service).
Proof.
  unfold guard_service. cbn zeta.
  apply emits_bind; [apply emits_log; reflexivity|]. intros _.
  apply emits_bind.
  - apply drop_public_invoker_emits; try reflexivity. discriminate.
  - intros _. apply restrict_ingress_emits; [reflexivity|discriminate].
Qed.

Lemma remediate_dry_quiet : emits quiet (remediate true).
Proof.
  unfold remediate.
  apply emits_bind; [apply emits_getenv|]. intros project_id.
  apply emits_bind; [apply emits_getenv_default|]. intros region.
  apply emits_bind; [apply emits_getenv_default|]. intros services_raw.
  destruct project_id as [project|]; [|apply emits_log; reflexivity].
  destruct (parse_services services_raw) as [|s l]; [apply emits_log; reflexivity|].
  destruct (String.eqb project EmptyString); [apply emits_log; reflexivity|].
  apply emits_bind; [apply acquire_clients_emits; reflexivity|]. intros _.
  apply emits_bind; [|intros _; apply emits_log; reflexivity].
  apply for_each_emits. intros service. apply guard_service_dry_quiet.
Qed.

Lemma handle_budget_alert_dry_quiet {B : Builtins} (cloud_event : CloudEvent)
  (w w' : World) (r : res unit) :
  _to_bool (environ w "BUDGET_GUARD_DRY_RUN") = true ->
  handle_budget_alert cloud_event w = Some (r, w') ->
  extends quiet w w'.
Proof.
  intros Hdry H.
  unfold handle_budget_alert, bind, lift, getenv_default, getenv, log in H.
  destruct (_parse_payload cloud_event) as [payload|e];
    [|injection H as _ <-; apply extends_refl].
  destruct (negb (truthy payload));
    [injection H as _ <-; apply extends_emit; reflexivity|].
  destruct (amount payload "costAmount") as [c|e];
    [|injection H as _ <-; apply extends_refl].
  destruct (amount payload "budgetAmount") as [b|e];
    [|injection H as _ <-; apply extends_refl].
  destruct (of_option ValueError _) as [t|e];
    [|injection H as _ <-; apply extends_refl].
  destruct (fle b fzero);
    [injection H as _ <-; apply extends_emit; reflexivity|].
  destruct (display_name_of payload) as [display|e];
    [|injection H as _ <-; apply extends_refl].
  destruct (flt (fdiv c b) t).
  - injection H as _ <-.
    eapply extends_trans; apply extends_emit; reflexivity.
  - rewrite Hdry in H.
    eapply extends_trans; [|eapply remediate_dry_quiet; exact H].
    apply extends_emit. reflexivity.
Qed.

(** C3: under dry run the editor makes its one read and no policy write,
    and still returns [True] when the rewrite found a public grant; the
    restrictor logs its intent and returns with no call at all; and a whole
    invocation whose dry-run flag is set comes to an end without a policy
    write or a patch among the events it adds, whatever the event, the
    policies and the services are. *)
Theorem dry_run_never_mutates {B : Builtins} :
  (forall service_name w,
      exists r w',
        _drop_public_invoker service_name true w = Some (r, w') /\
        extends quiet w w') /\
  (forall service_name w policy updated,
      outcome (next_reply w) = Returns policy ->
      rewrite_policy policy = Ok (updated, true) ->
      _drop_public_invoker service_name true w
        = Some (Ok true,
                emit (ELog INFO (LogDryRunInvoker service_name))
                  (after_call (EGetIamPolicy service_name) w))) /\
  (forall service_name w,
      _restrict_ingress service_name true w
        = Some (Ok tt, emit (ELog INFO (LogDryRunIngress service_name)) w)) /\
  (forall cloud_event w,
      _to_bool (environ w "BUDGET_GUARD_DRY_RUN") = true ->
      exists r w',
        handle_budget_alert cloud_event w = Some (r, w') /\
        extends quiet w w').
Proof.
  split; [|split; [|split]].
  - intros service_name w.
    destruct (drop_public_invoker_total service_name true w) as (r & w' & H).
    exists r, w'. split; [exact H|].
    eapply drop_public_invoker_emits; [..|exact H]; try reflexivity. discriminate.
  - intros service_name w policy updated Ho Hr.
    rewrite (drop_public_invoker_run service_name true w Ho Hr). reflexivity.
  - intros service_name w. reflexivity.
  - intros cloud_event w Hdry.
    destruct (handle_budget_alert_total cloud_event w) as (r & w' & H).
    exists r, w'. split; [exact H|].
    exact (handle_budget_alert_dry_quiet _ _ Hdry H).
Qed.

(** ** The threshold decision *)

Lemma guard_service_never_skips (project_id region : string) (dry_run : bool)
  (service : string) :
  emits (fun ev => is_skip_line ev = false)
        (guard_service project_id region dry_run service).
Proof.
  unfold guard_service. cbn zeta.
  apply emits_bind; [apply emits_log; reflexivity|]. intros _.
  apply emits_bind.
  - apply drop_public_invoker_emits; [reflexivity|reflexivity|].
    intros _ body. reflexivity.
  - intros _. apply restrict_ingress_emits; [reflexivity|].
    intros _. split; [reflexivity|]. split; [reflexivity|]. intros name. reflexivity.
Qed.

(** The remediation path of lines 116 to 137 logs no skip line. *)
Lemma remediate_never_skips (dry_run : bool) :
  emits (fun ev => is_skip_line ev = false) (remediate dry_run).
Proof.
  unfold remediate.
  apply emits_bind; [apply emits_getenv|]. intros project_id.
  apply emits_bind; [apply emits_getenv_default|]. intros region.
  apply emits_bind; [apply emits_getenv_default|]. intros services_raw.
  destruct project_id as [project|]; [|apply emits_log; reflexivity].
  destruct (parse_services services_raw) as [|s l]; [apply emits_log; reflexivity|].
  destruct (String.eqb project EmptyString); [apply emits_log; reflexivity|].
  apply emits_bind; [apply acquire_clients_emits; reflexivity|]. intros _.
  apply emits_bind; [|intros _; apply emits_log; reflexivity].
  apply for_each_emits. intros service. apply guard_service_never_skips.
Qed.

Lemma existsb_none {A} (f : A -> bool) (l : list A) :
  Forall (fun a => f a = false) l -> existsb f l = false.
Proof.
  induction 1 as [|a l Ha _ IH]; cbn; [reflexivity|]. rewrite Ha, IH. reflexivity.
Qed.

(** C1 (as amended): for a non-empty payload whose [budgetAmount] converts
    to a number [> 0].  When the cost amount converts and [float] accepts
    the threshold, the handler logs cost, budget and
    [ratio = costAmount / budgetAmount], then skips when [ratio < threshold]
    and runs the remediation path otherwise; the skip line is among the
    events that follow the budget line exactly when [ratio < threshold], and
    then the invocation has returned normally without a client call.  When
    neither the ratio nor the threshold is NaN this is: remediation iff
    [ratio >= threshold]; equality of ratio and threshold remediates.  With a
    NaN on either side [ratio >= threshold] is false and the handler
    remediates.  When the cost amount does not convert or [float] rejects
    the threshold, the handler raises on line 94 or 96 and the world is as
    it was: no ratio is computed. *)
Theorem threshold_decision {B : Builtins}
  (cloud_event : CloudEvent) (w : World) (payload : value) (b : float) :
  _parse_payload cloud_event = Ok payload ->
  truthy payload = true ->
  amount payload "budgetAmount" = Ok b ->
  fgt b fzero = true ->
  (forall c t display,
      amount payload "costAmount" = Ok c ->
      float_of_string (env_or w "BUDGET_STOP_THRESHOLD" "1.0") = Some t ->
      display_name_of payload = Ok display ->
      let ratio := fdiv c b in
      let w1 := emit (ELog INFO (LogBudgetUpdate c b ratio display)) w in
      let skip := Some (Ok tt, emit (ELog INFO (LogSkipGuard ratio t)) w1) in
      let go := remediate (_to_bool (environ w "BUDGET_GUARD_DRY_RUN")) w1 in
      handle_budget_alert cloud_event w = (if flt ratio t then skip else go) /\
      (is_nan ratio = false -> is_nan t = false ->
       handle_budget_alert cloud_event w = (if fge ratio t then go else skip)) /\
      (feq ratio t = true -> handle_budget_alert cloud_event w = go) /\
      (is_nan ratio = true \/ is_nan t = true ->
       fge ratio t = false /\ handle_budget_alert cloud_event w = go) /\
      (exists r w' tr,
          handle_budget_alert cloud_event w = Some (r, w') /\
          trace w' = trace w1 ++ tr /\
          existsb is_skip_line tr = flt ratio t /\
          (flt ratio t = true -> r = Ok tt /\ served w' = served w))) /\
  (exists display, display_name_of payload = Ok display) /\
  (forall e,
      amount payload "costAmount" = Raise e ->
      handle_budget_alert cloud_event w = Some (Raise e, w) /\
      (e = TypeError \/ e = ValueError \/ e = OverflowError)) /\
  (forall c,
      amount payload "costAmount" = Ok c ->
      float_of_string (env_or w "BUDGET_STOP_THRESHOLD" "1.0") = None ->
      handle_budget_alert cloud_event w = Some (Raise ValueError, w)).
Proof.
  intros Hp Ht Hb Hpos. split; [|split; [|split]].
  - intros c t display Hc Hth Hd ratio w1 skip go.
    assert (E : handle_budget_alert cloud_event w = (if flt ratio t then skip else go)).
    { rewrite (handle_budget_alert_decoded _ w Hp Ht Hc Hb Hth Hd).
      rewrite (positive_not_le_zero _ Hpos). reflexivity. }
    split; [exact E|]. split; [|split; [|split]].
    + intros Hr Hn. rewrite E, (flt_negb_fge _ _ Hr Hn).
      destruct (fge ratio t); reflexivity.
    + intros Heq. rewrite E, (feq_not_flt _ _ Heq). reflexivity.
    + intros Hnan. destruct (nan_unordered ratio t Hnan) as [Hlt Hge].
      split; [exact Hge|]. rewrite E, Hlt. reflexivity.
    + rewrite E. destruct (flt ratio t) eqn:Hlt.
      * exists (Ok tt), (emit (ELog INFO (LogSkipGuard ratio t)) w1),
          [ELog INFO (LogSkipGuard ratio t)].
        split; [reflexivity|]. split; [reflexivity|]. split; [reflexivity|].
        intros _. split; reflexivity.
      * destruct (remediate_total (_to_bool (environ w "BUDGET_GUARD_DRY_RUN")) w1)
          as (r & w' & H).
        destruct (@remediate_never_skips _ w1 r w' H) as (_ & _ & _ & tr & Htr & HF).
        exists r, w', tr. split; [exact H|]. split; [exact Htr|].
        split; [apply existsb_none, HF|]. discriminate.
  - exact (display_name_total _ _ Hb).
  - intros e Hc. split; [exact (cost_not_converted _ w Hp Ht Hc)|].
    destruct (amount_dict _ _ Hb) as [d ->]. exact (amount_raises _ _ Hc).
  - intros c Hc Hth. exact (threshold_not_converted _ w Hp Ht Hc Hb Hth).
Qed.

(** ** The dry-run flag *)

(** C10: [_to_bool] is true exactly for a value that is set and whose
    lower-case form is one of ["1"], ["true"], ["yes"], ["on"]; an unset value
    and every other string give false, ["enabled"] among them, and with that
    value in [BUDGET_GUARD_DRY_RUN] an invocation over budget mutates. *)
Theorem to_bool_true_iff (value : option string) :
  (_to_bool value = true <->
   exists v, value = Some v /\
             (lower v = "1" \/ lower v = "true" \/ lower v = "yes" \/ lower v = "on")) /\
  _to_bool None = false /\
  _to_bool (Some "enabled") = false /\
  _to_bool (Some "True") = true /\
  existsb is_mutation
    (trace (world_after
              (handle_budget_alert (B := sample_builtins) (event_of b64_over))
              (world_of (("BUDGET_GUARD_DRY_RUN", "enabled") :: sample_env)
                        healthy_replies)))
  = true.
Proof.
  split;
    [|split; [reflexivity|split; [reflexivity|split;
       [reflexivity|vm_compute; reflexivity]]]].
  destruct value as [v|]; cbn.
  - rewrite orb_false_r, !orb_true_iff, !String.eqb_eq. split.
    + intros H. exists v. split; [reflexivity|exact H].
    + intros (v' & E & H). injection E as <-. exact H.
  - split; [discriminate|]. intros (v & E & _). discriminate.
Qed.

(** ** The program on examples *)

(** Cost 120 of budget 100 at the default threshold: both services are
    locked down and the count is logged. *)
Example scenario_over_budget :
  run_trace (handle_budget_alert (B := sample_builtins) (event_of b64_over))
            (world_of sample_env healthy_replies)
  = Some (Ok tt,
          [ ELog INFO (LogBudgetUpdate (float_of_Z 120) (float_of_Z 100)
                         (fdiv (float_of_Z 120) (float_of_Z 100)) VNone);
            EAuthDefault; ECredentialsRefresh; EBuild;
            ELog INFO (LogRestricting web_name);
            EGetIamPolicy web_name;
            ESetIamPolicy web_name (VDict [("policy", private_policy)]);
            EPatch web_name "ingress" ingress_body;
            EGetOperation operation_name; ESleep 2;
            EGetOperation operation_name;
            ELog INFO (LogRestricting api_name);
            EGetIamPolicy api_name;
            EPatch api_name "ingress" ingress_body;
            ELog INFO (LogFinished 2) ]).
Proof. vm_compute. reflexivity. Qed.

(** Cost 50 of budget 100: the ratio is logged and the guard is skipped. *)
Example scenario_under_budget :
  run_trace (handle_budget_alert (B := sample_builtins) (event_of b64_under))
            (world_of sample_env healthy_replies)
  = Some (Ok tt,
          [ ELog INFO (LogBudgetUpdate (float_of_Z 50) (float_of_Z 100)
                         (fdiv (float_of_Z 50) (float_of_Z 100)) VNone);
            ELog INFO (LogSkipGuard (fdiv (float_of_Z 50) (float_of_Z 100))
                         (float_of_Z 1)) ]).
Proof. vm_compute. reflexivity. Qed.

(** An integer cost amount beyond the range of a double: [float] raises. *)
Example scenario_cost_out_of_range :
  amount (B := sample_builtins) (VDict [("costAmount", VInt (10 ^ 400))]) "costAmount"
  = Raise OverflowError.
Proof. vm_compute. reflexivity. Qed.

(** No message data: a warning, no call. *)
Example scenario_empty_payload :
  run_trace (handle_budget_alert (B := sample_builtins) {| ce_data := VNone |})
            (world_of sample_env healthy_replies)
  = Some (Ok tt, [ELog WARNING LogPayloadEmpty]).
Proof. vm_compute. reflexivity. Qed.

(** Dry run on a service with a public grant: intents are logged, nothing is
    written or patched, and the count is logged. *)
Example scenario_dry_run :
  run_trace (handle_budget_alert (B := sample_builtins) (event_of b64_over))
            (world_of dry_env
               [Returns VNone; Returns VNone; Returns VNone;
                Returns public_policy; Returns private_policy])
  = Some (Ok tt,
          [ ELog INFO (LogBudgetUpdate (float_of_Z 120) (float_of_Z 100)
                         (fdiv (float_of_Z 120) (float_of_Z 100)) VNone);
            EAuthDefault; ECredentialsRefresh; EBuild;
            ELog INFO (LogRestricting web_name);
            EGetIamPolicy web_name;
            ELog INFO (LogDryRunInvoker web_name);
            ELog INFO (LogDryRunIngress web_name);
            ELog INFO (LogRestricting api_name);
            EGetIamPolicy api_name;
            ELog INFO (LogDryRunIngress api_name);
            ELog INFO (LogFinished 2) ]).
Proof. vm_compute. reflexivity. Qed.

(** The operation on the first service fails: the second is not touched. *)
Example scenario_operation_fails :
  run_trace (handle_budget_alert (B := sample_builtins) (event_of b64_over))
            (world_of sample_env failing_replies)
  = Some (Raise (RuntimeError (VDict [("code", VInt 13); ("message", VStr "internal")])),
          [ ELog INFO (LogBudgetUpdate (float_of_Z 120) (float_of_Z 100)
                         (fdiv (float_of_Z 120) (float_of_Z 100)) VNone);
            EAuthDefault; ECredentialsRefresh; EBuild;
            ELog INFO (LogRestricting web_name);
            EGetIamPolicy web_name;
            ESetIamPolicy web_name (VDict [("policy", private_policy)]);
            EPatch web_name "ingress" ingress_body;
            EGetOperation operation_name ]).
Proof. vm_compute. reflexivity. Qed.

(** An operation that never completes: forty polls, each taking one second
    and followed by a sleep of two, run into the deadline of 120. *)
Example scenario_timeout :
  option_map (fun rw => (fst rw, served (snd rw), Qle_bool 120 (clock (snd rw))))
    (_wait_operation operation_name default_timeout_seconds
       {| environ := fun _ => None; clock := 0%Q;
          oracle := fun _ => {| latency := one_second;
                                outcome := Returns pending_operation |};
          served := 0; trace := [] |})
  = Some (Raise (TimeoutError operation_name), 40, true).
Proof. vm_compute. reflexivity. Qed.

(** A poll that begins before the deadline and whose reply, done, comes in
    after it: the waiter returns normally. *)
Example scenario_late_reply :
  option_map (fun rw => (fst rw, served (snd rw), Qle_bool 120 (clock (snd rw))))
    (_wait_operation operation_name default_timeout_seconds
       {| environ := fun _ => None; clock := 0%Q;
          oracle := fun _ => {| latency := {| d_num := 200; d_den := 1 |};
                                outcome := Returns done_operation |};
          served := 0; trace := [] |})
  = Some (Ok tt, 1, true).
Proof. vm_compute. reflexivity. Qed.

(** ** Where the specification and the code part *)

(** C1, counterexample: with cost and budget both [Infinity] (JSON that
    [json.loads] accepts) the budget is positive and the ratio is NaN.  The
    ratio is not [>=] the threshold 1.0, and yet it is not [<] the threshold
    either, so the handler remediates: it writes a policy and patches. *)
Lemma infinite_amounts_fire_the_guard :
  let w := world_of sample_env healthy_replies in
  let ratio := fdiv finf finf in
  let went_on :=
    match handle_budget_alert (B := sample_builtins) (event_of b64_inf) w with
    | Some (_, w') => existsb is_mutation (trace w')
    | None => false
    end in
  amount (B := sample_builtins)
    (VDict [("costAmount", VFloat finf); ("budgetAmount", VFloat finf)])
    "budgetAmount" = Ok finf /\
  fgt finf fzero = true /\
  ~ (went_on = true <-> fge ratio (float_of_Z 1) = true).
Proof.
  cbv zeta. split; [reflexivity|]. split; [reflexivity|].
  intros [H _].
  assert (E : fge (fdiv finf finf) (float_of_Z 1) = false) by reflexivity.
  rewrite E in H. apply Bool.diff_false_true. apply H.
  vm_compute. reflexivity.
Qed.

(** C2, counterexample: budget 0 and a threshold that is not a number.  The
    budget amount converts and is [<= 0], and yet the handler does not log
    the warning and return: [float] on line 96 raises [ValueError] before
    the budget is looked at, and nothing is logged. *)
Lemma zero_budget_bad_threshold_raises :
  let w := world_of bad_threshold_env healthy_replies in
  let payload := VDict [("costAmount", VInt 120); ("budgetAmount", VInt 0)] in
  let run := handle_budget_alert (B := sample_builtins) (event_of b64_zero_budget) w in
  _parse_payload (B := sample_builtins) (event_of b64_zero_budget) = Ok payload /\
  truthy payload = true /\
  amount (B := sample_builtins) payload "budgetAmount" = Ok fzero /\
  fle fzero fzero = true /\
  run = Some (Raise ValueError, w) /\
  ~ (exists w', run = Some (Ok tt, w') /\
                In (ELog WARNING (LogInvalidBudget fzero)) (trace w')).
Proof.
  cbv zeta. split; [reflexivity|]. split; [reflexivity|]. split; [reflexivity|].
  split; [reflexivity|].
  assert (E : handle_budget_alert (B := sample_builtins) (event_of b64_zero_budget)
                (world_of bad_threshold_env healthy_replies)
              = Some (Raise ValueError, world_of bad_threshold_env healthy_replies))
    by (vm_compute; reflexivity).
  split; [exact E|]. intros (w' & H & _). rewrite E in H. discriminate.
Qed.

(** C9, counterexample: a payload that lacks [budgetAmount] and whose
    [costAmount] is [null].  It is not treated as an invalid budget:
    [float(None)] on line 94 raises [TypeError] before [budgetAmount] is
    read, no warning is logged and the invocation does not return
    normally. *)
Lemma absent_budget_null_cost_raises :
  let w := world_of sample_env healthy_replies in
  let d := [("costAmount", VNone)] in
  let run := handle_budget_alert (B := wider_builtins) (event_of b64_null_cost_alone) w in
  _parse_payload (B := wider_builtins) (event_of b64_null_cost_alone) = Ok (VDict d) /\
  truthy (VDict d) = true /\
  dict_lookup d "budgetAmount" = None /\
  run = Some (Raise TypeError, w) /\
  ~ (exists w', run = Some (Ok tt, w') /\
                In (ELog WARNING (LogInvalidBudget fzero)) (trace w')).
Proof.
  cbv zeta. split; [reflexivity|]. split; [reflexivity|]. split; [reflexivity|].
  assert (E : handle_budget_alert (B := wider_builtins) (event_of b64_null_cost_alone)
                (world_of sample_env healthy_replies)
              = Some (Raise TypeError, world_of sample_env healthy_replies))
    by (vm_compute; reflexivity).
  split; [exact E|]. intros (w' & H & _). rewrite E in H. discriminate.
Qed.

(** C6, counterexample: the poll reports the operation done and the reply
    has an error field, an empty object; the waiter returns normally and
    does not raise the operation failure. *)
Lemma empty_error_field_succeeds :
  let w := world_of [] [Returns odd_operation] in
  let r := option_map fst (_wait_operation operation_name default_timeout_seconds w) in
  reports_done odd_operation /\
  (exists error, py_getitem odd_operation "error" = Ok error) /\
  ~ ((exists detail, r = Some (Raise (RuntimeError detail))) <->
     (reports_done odd_operation /\
      exists error, py_getitem odd_operation "error" = Ok error)).
Proof.
  cbv zeta.
  assert (D : reports_done odd_operation).
  { exists (VBool true). split; reflexivity. }
  assert (F : exists error, py_getitem odd_operation "error" = Ok error).
  { exists (VDict []). reflexivity. }
  split; [exact D|]. split; [exact F|].
  intros [_ H]. destruct (H (conj D F)) as (detail & E).
  vm_compute in E. discriminate.
Qed.

(** ** The theorems at concrete inputs *)

Lemma threshold_decision_witness :
  let w := world_of sample_env healthy_replies in
  let c := float_of_Z 120 in
  let b := float_of_Z 100 in
  amount (B := sample_builtins)
    (VDict [("costAmount", VInt 120); ("budgetAmount", VInt 100)]) "budgetAmount"
  = Ok b /\
  fgt b fzero = true /\
  handle_budget_alert (B := sample_builtins) (event_of b64_over) w
  = remediate false (emit (ELog INFO (LogBudgetUpdate c b (fdiv c b) VNone)) w).
Proof.
  cbv zeta. split; [reflexivity|]. split; [reflexivity|].
  refine (proj1 (proj1 (@threshold_decision sample_builtins
                          (event_of b64_over) (world_of sample_env healthy_replies)
                          (VDict [("costAmount", VInt 120); ("budgetAmount", VInt 100)])
                          (float_of_Z 100) _ _ _ _)
                       (float_of_Z 120) (float_of_Z 1) VNone _ _ _));
    vm_compute; reflexivity.
Defined.

Lemma invalid_budget_skips_witness :
  let w := world_of sample_env healthy_replies in
  amount (B := sample_builtins)
    (VDict [("costAmount", VInt 120); ("budgetAmount", VInt 0)]) "budgetAmount"
  = Ok fzero /\
  fle fzero fzero = true /\
  handle_budget_alert (B := sample_builtins) (event_of b64_zero_budget) w
  = Some (Ok tt, emit (ELog WARNING (LogInvalidBudget fzero)) w).
Proof.
  cbv zeta. split; [reflexivity|]. split; [reflexivity|].
  refine (proj1 (@invalid_budget_skips sample_builtins
                   (event_of b64_zero_budget) (world_of sample_env healthy_replies)
                   (VDict [("costAmount", VInt 120); ("budgetAmount", VInt 0)])
                   fzero _ _ _ _)
                (float_of_Z 120) (float_of_Z 1) _ _); vm_compute; reflexivity.
Defined.

Lemma absent_amount_is_zero_witness :
  let w := world_of sample_env healthy_replies in
  handle_budget_alert (B := sample_builtins) (event_of b64_no_cost) w
  = Some (Ok tt,
          emit (ELog INFO (LogSkipGuard fzero (float_of_Z 1)))
            (emit (ELog INFO (LogBudgetUpdate fzero (float_of_Z 100) fzero VNone)) w)).
Proof.
  cbv zeta.
  refine (proj2 (proj2 (@absent_amount_is_zero sample_builtins
                          (event_of b64_no_cost) (world_of sample_env healthy_replies)
                          [("budgetAmount", VInt 100)] _ _))
                _ (float_of_Z 100) (float_of_Z 1) VNone _ _ _ _ _);
    vm_compute; reflexivity.
Defined.

Lemma decoding_failure_aborts_witness :
  let w := world_of sample_env healthy_replies in
  handle_budget_alert (B := sample_builtins) (event_of "a") w
  = Some (Raise BinasciiError, w) /\
  handle_budget_alert (B := sample_builtins) (event_of "//57fQ==") w
  = Some (Raise UnicodeDecodeError, w) /\
  handle_budget_alert (B := sample_builtins) (event_of b64_cut_off) w
  = Some (Raise JSONDecodeError, w).
Proof.
  cbv zeta. split; [|split].
  - refine (proj1 (@decoding_failure_aborts sample_builtins (event_of "a")
                     (world_of sample_env healthy_replies) "a" _ _) _);
      [reflexivity|discriminate|reflexivity].
  - refine (proj1 (proj2 (@decoding_failure_aborts sample_builtins
                            (event_of "//57fQ==")
                            (world_of sample_env healthy_replies) "//57fQ==" _ _))
                  [xff; xfe; x7b; x7d] _ _);
      [reflexivity|discriminate|reflexivity|reflexivity].
  - refine (proj2 (proj2 (@decoding_failure_aborts sample_builtins
                            (event_of b64_cut_off)
                            (world_of sample_env healthy_replies) b64_cut_off _ _))
                  _ (text_of b64_cut_off) _ _ _);
      [reflexivity|discriminate|reflexivity|reflexivity|reflexivity].
Defined.

Lemma dry_run_never_mutates_witness :
  let w := world_of dry_env healthy_replies in
  (exists r w',
      handle_budget_alert (B := sample_builtins) (event_of b64_over) w = Some (r, w') /\
      extends quiet w w') /\
  let w1 := world_of dry_env [Returns public_policy] in
  _drop_public_invoker web_name true w1
  = Some (Ok true,
          emit (ELog INFO (LogDryRunInvoker web_name))
            (after_call (EGetIamPolicy web_name) w1)).
Proof.
  cbv zeta. split.
  - refine (proj2 (proj2 (proj2 (@dry_run_never_mutates sample_builtins)))
                  (event_of b64_over) (world_of dry_env healthy_replies) _).
    reflexivity.
  - refine (proj1 (proj2 (@dry_run_never_mutates sample_builtins))
                  web_name (world_of dry_env [Returns public_policy])
                  public_policy trimmed_bindings _ _).
    + reflexivity.
    + reflexivity.
Defined.

Lemma policy_editor_idempotent_witness :
  let w := world_of [] [Returns public_policy; Returns private_policy;
                        Returns private_policy] in
  let w1 := after_call (EGetIamPolicy web_name) w in
  let w2 := after_call
              (ESetIamPolicy web_name (VDict [("policy", private_policy)])) w1 in
  rewrite_policy private_policy = Ok (trimmed_bindings, false) /\
  _drop_public_invoker web_name false w = Some (Ok true, w2) /\
  _drop_public_invoker web_name false w2
  = Some (Ok false, after_call (EGetIamPolicy web_name) w2).
Proof.
  cbv zeta. split.
  - refine (proj1 policy_editor_idempotent public_policy private_policy
                  trimmed_bindings true _ _); reflexivity.
  - refine (proj2 (proj2 policy_editor_idempotent) web_name
                  (world_of [] [Returns public_policy; Returns private_policy;
                                Returns private_policy])
                  public_policy private_policy trimmed_bindings private_policy
                  _ _ _ _ _); reflexivity.
Defined.

Lemma policy_rewrite_shape_witness :
  rewrite_policy public_policy = Ok (trimmed_bindings, true) /\
  filter (fun b => negb (is_invoker b)) trimmed_bindings
  = [grant "roles/run.admin" ["user:ops@example.com"; "allUsers"]] /\
  Forall (fun copied =>
            is_invoker copied = true ->
            exists members,
              members_of copied = Ok members /\
              members <> [] /\ forallb not_public members = true /\
              ~ In (VStr "allUsers") members)
         trimmed_bindings.
Proof.
  split; [reflexivity|]. split; [reflexivity|].
  refine (proj1 (proj2 (@policy_rewrite_shape public_policy trimmed_bindings true _))).
  reflexivity.
Defined.

Lemma services_in_order_until_failure_witness :
  let w := world_of sample_env failing_replies in
  let c := float_of_Z 120 in
  let b := float_of_Z 100 in
  let w0 := world_after acquire_clients
              (emit (ELog INFO (LogBudgetUpdate c b (fdiv c b) VNone)) w) in
  let w2 := world_after (guard_service "city" "us-central1" false "web") w0 in
  let failure := RuntimeError (VDict [("code", VInt 13); ("message", VStr "internal")]) in
  handle_budget_alert (B := sample_builtins) (event_of b64_over) w
  = Some (Raise failure, w2) /\
  exists tr,
    trace w2 = trace w0 ++ tr /\
    restricted tr = [web_name] /\
    Forall (fun ev => is_finished ev = false) tr.
Proof.
  cbv zeta.
  set (w := world_of sample_env failing_replies).
  set (w0 := world_after acquire_clients
               (emit (ELog INFO (LogBudgetUpdate (float_of_Z 120) (float_of_Z 100)
                                   (fdiv (float_of_Z 120) (float_of_Z 100)) VNone)) w)).
  refine (proj1 (proj2
            (@services_in_order_until_failure sample_builtins
               (event_of b64_over) w w0
               (VDict [("costAmount", VInt 120); ("budgetAmount", VInt 100)]) VNone
               (float_of_Z 120) (float_of_Z 100) (float_of_Z 1) "city"
               _ _ _ _ _ _ _ _ _ _ _ _))
            [] "web" ["api"]
            (RuntimeError (VDict [("code", VInt 13); ("message", VStr "internal")]))
            w0 (world_after (guard_service "city" "us-central1" false "web") w0)
            _ _ _);
    try (vm_compute; reflexivity); try discriminate.
Defined.

(** ** The list of services *)

Lemma split_on_nonempty (sep : ascii) (s : string) : split_on sep s <> [].
Proof.
  destruct s as [|c rest]; cbn; [discriminate|].
  destruct (Ascii.eqb c sep); [discriminate|].
  destruct (split_on sep rest); discriminate.
Qed.

Lemma split_on_app (sep : ascii) (a b : string) :
  split_on sep (a ++ String sep b) = split_on sep a ++ split_on sep b.
Proof.
  induction a as [|c a IH]; cbn.
  - rewrite Ascii.eqb_refl. reflexivity.
  - destruct (Ascii.eqb c sep); [rewrite IH; reflexivity|].
    rewrite IH. pose proof (split_on_nonempty sep a) as Hne.
    destruct (split_on sep a) as [|h t]; [contradiction|reflexivity].
Qed.

Lemma split_on_absent (sep : ascii) (s : string) :
  has_char sep s = false -> split_on sep s = [s].
Proof.
  induction s as [|c rest IH]; cbn; [reflexivity|].
  intros H. apply orb_false_iff in H. destruct H as [Hc Hrest].
  rewrite Hc, (IH Hrest). reflexivity.
Qed.

Lemma split_on_pieces (sep : ascii) (s : string) :
  Forall (fun piece => has_char sep piece = false) (split_on sep s).
Proof.
  induction s as [|c rest IH]; cbn.
  - constructor; [reflexivity|constructor].
  - destruct (Ascii.eqb c sep) eqn:E.
    + constructor; [reflexivity|exact IH].
    + destruct (split_on sep rest) as [|h t]; [repeat constructor; cbn; rewrite E; reflexivity|].
      inversion IH; subst. constructor; [|assumption]. cbn. rewrite E. assumption.
Qed.

Lemma append_empty_r (s : string) : (s ++ EmptyString)%string = s.
Proof. induction s as [|c s IH]; cbn; [reflexivity|rewrite IH; reflexivity]. Qed.

Lemma append_associative (a b c : string) :
  ((a ++ b) ++ c = a ++ (b ++ c))%string.
Proof. induction a as [|x a IH]; cbn; [reflexivity|rewrite IH; reflexivity]. Qed.

Lemma append_length (a b : string) :
  String.length (a ++ b)%string = String.length a + String.length b.
Proof. induction a as [|x a IH]; cbn; [reflexivity|rewrite IH; reflexivity]. Qed.

Lemma append_injective (prefix a b : string) :
  (prefix ++ a = prefix ++ b)%string -> a = b.
Proof.
  induction prefix as [|c prefix IH]; cbn; [auto|].
  intros H. injection H as H. apply IH, H.
Qed.

Lemma has_char_app (c : ascii) (a b : string) :
  has_char c (a ++ b)%string = orb (has_char c a) (has_char c b).
Proof.
  induction a as [|x a IH]; cbn; [reflexivity|]. rewrite IH, orb_assoc. reflexivity.
Qed.

Lemma after_prefix_spec (p s rest : string) :
  after_prefix p s = Some rest <-> s = (p ++ rest)%string.
Proof.
  revert s. induction p as [|a p IH]; intros s; cbn.
  - split; intros H; [injection H as ->; reflexivity|subst; reflexivity].
  - destruct s as [|b s]; [split; discriminate|].
    destruct (Ascii.eqb_spec a b) as [->|Hne].
    + rewrite IH. split; intros H; [subst; reflexivity|injection H as ->; reflexivity].
    + split; [discriminate|]. intros H. injection H as E _. congruence.
Qed.

Lemma after_any_some (candidates : list string) (s rest : string) :
  after_any candidates s = Some rest ->
  exists p, In p candidates /\ s = (p ++ rest)%string.
Proof.
  induction candidates as [|p l IH]; cbn; [discriminate|].
  destruct (after_prefix p s) as [r|] eqn:E.
  - intros H. injection H as ->. exists p. split; [left; reflexivity|].
    apply after_prefix_spec, E.
  - intros H. destruct (IH H) as (q & Hq & Hs). exists q. split; [right; exact Hq|exact Hs].
Qed.

Lemma after_any_found (candidates : list string) (p rest : string) :
  In p candidates -> after_any candidates (p ++ rest)%string <> None.
Proof.
  induction candidates as [|q l IH]; cbn; [contradiction|].
  intros [->|Hin].
  - assert (E : after_prefix p (p ++ rest)%string = Some rest) by (apply after_prefix_spec; reflexivity).
    rewrite E. discriminate.
  - destruct (after_prefix q (p ++ rest)%string); [discriminate|apply IH, Hin].
Qed.

Lemma overlap_app (a b r r' : string) :
  (a ++ r = b ++ r')%string -> overlap a b = true.
Proof.
  revert b. induction a as [|x a IH]; intros [|y b]; cbn; try reflexivity.
  intros H. injection H as -> H. rewrite Ascii.eqb_refl. cbn. apply IH, H.
Qed.

Lemma spaces_separate (sp : string) : In sp spaces -> separate sp = true.
Proof.
  assert (H : forallb separate spaces = true) by (vm_compute; reflexivity).
  rewrite forallb_forall in H. apply H.
Qed.

Lemma space_not_empty (sp : string) : In sp spaces -> sp <> EmptyString.
Proof.
  intros H. apply spaces_separate in H. unfold separate in H.
  apply andb_true_iff in H. destruct H as [H _].
  apply negb_true_iff in H. apply String.eqb_neq, H.
Qed.

Lemma space_no_comma (sp : string) : In sp spaces -> has_char "," sp = false.
Proof.
  intros H. apply spaces_separate in H. unfold separate in H.
  apply andb_true_iff in H. destruct H as [_ H].
  apply andb_true_iff in H. destruct H as [H _].
  apply negb_true_iff, H.
Qed.

Lemma spaces_prefix_free (a b r r' : string) :
  In a spaces -> In b spaces -> (a ++ r = b ++ r')%string -> a = b /\ r = r'.
Proof.
  intros Ha Hb H. pose proof (overlap_app _ _ _ _ H) as Ho.
  pose proof (spaces_separate Ha) as Hs. unfold separate in Hs.
  apply andb_true_iff in Hs. destruct Hs as [_ Hs].
  apply andb_true_iff in Hs. destruct Hs as [_ Hs].
  rewrite forallb_forall in Hs. specialize (Hs b Hb). rewrite Ho in Hs. cbn in Hs.
  apply String.eqb_eq in Hs. subst b. split; [reflexivity|].
  exact (append_injective _ _ _ H).
Qed.

Lemma after_space_some (s rest : string) :
  after_space s = Some rest -> exists sp, In sp spaces /\ s = (sp ++ rest)%string.
Proof. apply after_any_some. Qed.

Lemma after_space_app (sp rest : string) :
  In sp spaces -> after_space (sp ++ rest)%string = Some rest.
Proof.
  intros Hin. destruct (after_space (sp ++ rest)%string) as [r|] eqn:E.
  - destruct (after_space_some _ E) as (sp' & Hin' & H).
    destruct (spaces_prefix_free _ _ Hin Hin' H) as [_ ->]. reflexivity.
  - exfalso. exact (after_any_found spaces sp rest Hin E).
Qed.

Lemma after_space_none (s : string) : after_space s = None <-> ~ begins_white s.
Proof.
  split.
  - intros H (sp & rest & Hin & ->). rewrite (after_space_app rest Hin) in H. discriminate.
  - intros H. destruct (after_space s) as [rest|] eqn:E; [|reflexivity].
    exfalso. apply H. destruct (after_space_some _ E) as (sp & Hin & Hs). exists sp, rest. auto.
Qed.

Lemma after_space_shorter (s rest : string) :
  after_space s = Some rest -> String.length rest < String.length s.
Proof.
  intros H. destruct (after_space_some _ H) as (sp & Hin & ->).
  rewrite append_length. pose proof (space_not_empty Hin) as Hne.
  destruct sp; [contradiction|cbn; lia].
Qed.

Lemma lstrip_loop_enough (n m : nat) (s : string) :
  String.length s <= n -> String.length s <= m -> lstrip_loop n s = lstrip_loop m s.
Proof.
  revert m s. induction n as [|n IH]; intros m s Hn Hm.
  - destruct s; [|cbn in Hn; lia]. destruct m; reflexivity.
  - destruct m as [|m].
    + destruct s; [reflexivity|cbn in Hm; lia].
    + cbn [lstrip_loop]. destruct (after_space s) as [rest|] eqn:E; [|reflexivity].
      pose proof (after_space_shorter _ E). apply IH; lia.
Qed.

(** The loop of [lstrip] has the turns it needs. *)
Lemma lstrip_equation (s : string) :
  lstrip s = match after_space s with
             | Some rest => lstrip rest
             | None => s
             end.
Proof.
  unfold lstrip. destruct (String.length s) as [|n] eqn:L.
  - destruct s; [reflexivity|discriminate].
  - cbn [lstrip_loop]. destruct (after_space s) as [rest|] eqn:E; [|reflexivity].
    pose proof (after_space_shorter _ E). apply lstrip_loop_enough; lia.
Qed.

Lemma by_length (P : string -> Prop) :
  (forall s, (forall rest, after_space s = Some rest -> P rest) -> P s) ->
  forall s, P s.
Proof.
  intros step s. remember (String.length s) as n eqn:L.
  revert s L. induction n as [n IH] using lt_wf_ind. intros s ->.
  apply step. intros rest E. apply (IH (String.length rest)); [|reflexivity].
  apply after_space_shorter, E.
Qed.

Lemma lstrip_split (s : string) : exists l, white l /\ s = (l ++ lstrip s)%string.
Proof.
  induction s as [s IH] using by_length. rewrite lstrip_equation.
  destruct (after_space s) as [rest|] eqn:E.
  - destruct (IH rest eq_refl) as (l & Hl & Hs).
    destruct (after_space_some _ E) as (sp & Hin & ->).
    exists (sp ++ l)%string. split; [constructor; assumption|].
    rewrite append_associative, <- Hs. reflexivity.
  - exists EmptyString. split; [constructor|reflexivity].
Qed.

Lemma lstrip_stable (s : string) : after_space (lstrip s) = None.
Proof.
  induction s as [s IH] using by_length. rewrite lstrip_equation.
  destruct (after_space s) as [rest|] eqn:E; [apply IH; reflexivity|exact E].
Qed.

Lemma lstrip_white_app (l s : string) :
  white l -> lstrip (l ++ s)%string = lstrip s.
Proof.
  induction 1 as [|sp w Hin _ IH]; [reflexivity|].
  rewrite append_associative, lstrip_equation, (after_space_app _ Hin). exact IH.
Qed.

Lemma lstrip_white (l : string) : white l <-> lstrip l = EmptyString.
Proof.
  split.
  - intros H. rewrite <- (append_empty_r l), (lstrip_white_app _ H). reflexivity.
  - intros H. destruct (lstrip_split l) as (w & Hw & Hs).
    rewrite H, append_empty_r in Hs. subst. exact Hw.
Qed.

Lemma white_no_comma (w : string) : white w -> has_char "," w = false.
Proof.
  induction 1 as [|sp w Hin _ IH]; [reflexivity|].
  rewrite has_char_app, IH, (space_no_comma Hin). reflexivity.
Qed.

Lemma white_end (w : string) : white w -> w = EmptyString \/ ends_white w.
Proof.
  induction 1 as [|sp w Hin _ IH]; [left; reflexivity|]. right.
  destruct IH as [->|(init & sp' & Hin' & ->)].
  - exists EmptyString, sp. rewrite append_empty_r. auto.
  - exists (sp ++ init)%string, sp'. rewrite append_associative. auto.
Qed.

Lemma rstrip_split (s : string) : exists r, white r /\ s = (rstrip s ++ r)%string.
Proof.
  induction s as [|c rest IH]; [exists EmptyString; split; [constructor|reflexivity]|].
  cbn [rstrip]. destruct (String.eqb_spec (lstrip (String c rest)) EmptyString) as [E|E].
  - exists (String c rest). split; [apply lstrip_white, E|reflexivity].
  - destruct IH as (r & Hr & Hs). exists r. split; [exact Hr|].
    cbn. rewrite <- Hs. reflexivity.
Qed.

Lemma rstrip_no_white_end (s : string) : ~ ends_white (rstrip s).
Proof.
  induction s as [|c rest IH]; intros (init & sp & Hin & H).
  - cbn in H. destruct init; [|discriminate]. cbn in H.
    exact (space_not_empty Hin (eq_sym H)).
  - cbn [rstrip] in H.
    destruct (String.eqb_spec (lstrip (String c rest)) EmptyString) as [E|E].
    + destruct init; [|discriminate]. cbn in H.
      exact (space_not_empty Hin (eq_sym H)).
    + destruct init as [|x init].
      * cbn in H. apply E. apply lstrip_white.
        destruct (rstrip_split rest) as (r & Hr & Hs).
        rewrite Hs.
        change (String c (rstrip rest ++ r)%string)
          with (String c (rstrip rest) ++ r)%string.
        rewrite H. constructor; assumption.
      * cbn in H. injection H as _ H. apply IH. exists init, sp. auto.
Qed.

Lemma rstrip_fixed (s : string) : ~ ends_white s -> rstrip s = s.
Proof.
  induction s as [|c rest IH]; intros H; [reflexivity|].
  cbn [rstrip]. destruct (String.eqb_spec (lstrip (String c rest)) EmptyString) as [E|E].
  - exfalso. apply lstrip_white in E. destruct (white_end E) as [E'|E']; [discriminate|].
    exact (H E').
  - rewrite IH; [reflexivity|]. intros (init & sp & Hin & ->). apply H.
    exists (String c init), sp. auto.
Qed.

Lemma lstrip_fixed (s : string) : ~ begins_white s -> lstrip s = s.
Proof.
  intros H. apply after_space_none in H. rewrite lstrip_equation, H. reflexivity.
Qed.

Lemma lstrip_no_white_begin (s : string) : ~ begins_white (lstrip s).
Proof. apply after_space_none, lstrip_stable. Qed.

(** What [strip] does: white space goes at both ends, and only there. *)
Lemma strip_spec (s : string) :
  (exists l r, white l /\ white r /\ s = (l ++ strip s ++ r)%string) /\
  ~ begins_white (strip s) /\ ~ ends_white (strip s).
Proof.
  unfold strip. destruct (lstrip_split s) as (l & Hl & Hs).
  destruct (rstrip_split (lstrip s)) as (r & Hr & Hu).
  split; [|split].
  - exists l, r. split; [exact Hl|]. split; [exact Hr|]. rewrite <- Hu. exact Hs.
  - intros (sp & rest & Hin & E). apply (@lstrip_no_white_begin s).
    exists sp, (rest ++ r)%string. split; [exact Hin|].
    rewrite Hu at 1. rewrite E, append_associative. reflexivity.
  - apply rstrip_no_white_end.
Qed.

Lemma strip_fixed (s : string) : ~ begins_white s -> ~ ends_white s -> strip s = s.
Proof.
  intros Hb He. unfold strip. rewrite (lstrip_fixed Hb). apply rstrip_fixed, He.
Qed.

Lemma strip_white (w : string) : white w -> strip w = EmptyString.
Proof.
  intros H. unfold strip. apply lstrip_white in H. rewrite H. reflexivity.
Qed.

Lemma strip_has_char (c : ascii) (s : string) :
  has_char c s = false -> has_char c (strip s) = false.
Proof.
  intros H. destruct (strip_spec s) as ((l & r & _ & _ & E) & _).
  rewrite E, !has_char_app in H.
  apply orb_false_iff in H. destruct H as [_ H].
  apply orb_false_iff in H. apply H.
Qed.

(** A name is clean exactly when it is not empty, [strip] leaves it as it is
    and it holds no comma. *)
Lemma clean_iff (service : string) :
  clean service <->
  service <> EmptyString /\ strip service = service /\ has_char "," service = false.
Proof.
  split.
  - intros (Hne & Hb & He & Hc). split; [exact Hne|]. split; [|exact Hc].
    apply strip_fixed; assumption.
  - intros (Hne & Hs & Hc). destruct (strip_spec service) as (_ & Hb & He).
    rewrite Hs in Hb, He. split; [exact Hne|]. split; [exact Hb|]. split; assumption.
Qed.

(** X1: every name that [parse_services] yields is usable as it stands: it
    is not empty, it neither begins nor ends with a white space character
    (of ASCII or beyond: the no-break space, the em space, the ideographic
    space and the others of [whitespace]), it holds no comma, and [strip]
    leaves it as it is. *)
Theorem parse_services_clean (services_raw : string) :
  Forall (fun service => clean service /\ strip service = service)
         (parse_services services_raw).
Proof.
  unfold parse_services. apply Forall_forall. intros service Hin.
  apply in_map_iff in Hin. destruct Hin as (piece & <- & Hin).
  apply filter_In in Hin. destruct Hin as [Hin Hkeep].
  pose proof (split_on_pieces "," services_raw) as Hp.
  rewrite Forall_forall in Hp. specialize (Hp piece Hin).
  destruct (strip_spec piece) as (_ & Hb & He).
  split; [|apply strip_fixed; assumption].
  split; [|split; [exact Hb|split; [exact He|]]].
  - intros E. rewrite E in Hkeep. discriminate.
  - apply strip_has_char, Hp.
Qed.

Lemma parse_services_comma (a b : string) :
  parse_services (a ++ String "," b) = parse_services a ++ parse_services b.
Proof.
  unfold parse_services. rewrite split_on_app, filter_app, map_app. reflexivity.
Qed.

Lemma parse_services_white (blank : string) : white blank -> parse_services blank = [].
Proof.
  intros H. unfold parse_services.
  rewrite (split_on_absent "," blank (white_no_comma H)). cbn [filter].
  rewrite (strip_white H). reflexivity.
Qed.

(** X2: splitting composes: the services of two lists joined by a comma are
    the services of the first followed by the services of the second; and an
    entry between two commas that is empty or made of white space characters
    only, whichever they are, contributes nothing.  Each character of
    [whitespace] alone is such an entry. *)
Theorem parse_services_app (a b : string) :
  parse_services (a ++ String "," b) = parse_services a ++ parse_services b /\
  (forall blank,
      white blank ->
      parse_services (a ++ String "," (blank ++ String "," b))
      = parse_services a ++ parse_services b) /\
  (forall point, In point whitespace -> white (utf8 point)).
Proof.
  split; [apply parse_services_comma|]. split.
  - intros blank H. rewrite !parse_services_comma, (parse_services_white H). reflexivity.
  - intros point Hin. rewrite <- (append_empty_r (utf8 point)).
    constructor; [apply in_map, Hin|constructor].
Qed.

Lemma parse_services_one (service : string) :
  clean service -> parse_services service = [service].
Proof.
  intros (Hne & Hb & He & Hc). unfold parse_services.
  rewrite (@split_on_absent "," service Hc). cbn [filter].
  rewrite (strip_fixed Hb He).
  destruct (String.eqb_spec service EmptyString); [contradiction|].
  cbn. rewrite (strip_fixed Hb He). reflexivity.
Qed.

(** X3: a list of clean names (not empty, no white space character at
    either end, no comma), written with commas between them, is read back as
    it was; the empty list is written as the empty string, which is read as
    no service. *)
Theorem parse_services_join (services : list string) :
  Forall clean services -> parse_services (join_commas services) = services.
Proof.
  induction 1 as [|service rest Hc _ IH]; [reflexivity|].
  cbn [join_commas]. destruct rest as [|next rest'].
  - apply parse_services_one, Hc.
  - rewrite parse_services_comma, IH, (parse_services_one Hc). reflexivity.
Qed.

(** White space beyond ASCII in the list of services: a no-break space
    before a name, an em space after it and an entry that is an ideographic
    space. *)
Example scenario_unicode_spaces :
  parse_services
    ("web," ++ utf8 0xA0 ++ "api" ++ utf8 0x2003 ++ "," ++ utf8 0x3000 ++ ", x y ,")
  = ["web"; "api"; "x y"].
Proof. vm_compute. reflexivity. Qed.

(** Every character of [whitespace] is taken off at both ends, and the
    characters that look like white space and are none for [str.isspace]
    (NUL, the Mongolian vowel separator, the zero width space, the word
    joiner, the byte order mark) stay, as does a byte that is part of no
    character. *)
Example scenario_strip_characters :
  forallb (fun point => String.eqb (strip (utf8 point ++ "a b" ++ utf8 point)) "a b")
          whitespace = true /\
  forallb (fun point => String.eqb (strip (utf8 point)) (utf8 point))
          [0x00; 0x180E; 0x200B; 0x2060; 0xFEFF]%N = true /\
  strip (String (ascii_of_N 0xA0) " a ") = String (ascii_of_N 0xA0) " a" /\
  strip (String (ascii_of_N 0xC2) " ") = String (ascii_of_N 0xC2) "".
Proof. vm_compute. repeat split. Qed.

(** X4: within one project and region, different services have different
    resource names. *)
Theorem service_path_injective (project_id region a b : string) :
  a <> b -> service_path project_id region a <> service_path project_id region b.
Proof.
  unfold service_path. intros Hne H. apply Hne.
  repeat (apply append_injective in H). exact H.
Qed.

(** ** Payloads the handler does not evaluate *)

Section Payloads.

Context {B : Builtins}.

Lemma empty_payload_warns (cloud_event : CloudEvent) (w : World) (payload : value) :
  _parse_payload cloud_event = Ok payload ->
  truthy payload = false ->
  handle_budget_alert cloud_event w
    = Some (Ok tt, emit (ELog WARNING LogPayloadEmpty) w).
Proof.
  intros Hp Ht. unfold handle_budget_alert, bind, lift. rewrite Hp, Ht. reflexivity.
Qed.

(** X5: an event without data, without a message, or whose message has no
    data or empty data, and an event whose data decodes to an empty or false
    JSON value, is answered with the empty-payload warning and nothing
    else: no decoding is attempted in the first cases, and no call is made. *)
Theorem nothing_to_do_on_empty_payload (cloud_event : CloudEvent) (w : World) :
  let done := Some (Ok tt, emit (ELog WARNING LogPayloadEmpty) w) in
  (truthy (ce_data cloud_event) = false ->
   handle_budget_alert cloud_event w = done) /\
  (forall d,
      ce_data cloud_event = VDict d -> dict_lookup d "message" = None ->
      handle_budget_alert cloud_event w = done) /\
  (forall d m encoded,
      ce_data cloud_event = VDict d ->
      dict_lookup d "message" = Some (VDict m) ->
      (dict_lookup m "data" = None \/
       (dict_lookup m "data" = Some encoded /\ truthy encoded = false)) ->
      handle_budget_alert cloud_event w = done) /\
  (forall s raw decoded payload,
      encoded_data cloud_event = Ok (VStr s) ->
      b64decode s = Some raw -> utf8_decode raw = Some decoded ->
      json_loads decoded = Some payload ->
      truthy payload = false ->
      handle_budget_alert cloud_event w = done).
Proof.
  cbv zeta. split; [|split; [|split]].
  - intros H. apply (@empty_payload_warns _ _ (VDict [])); [|reflexivity].
    unfold _parse_payload, encoded_data. rewrite H. reflexivity.
  - intros d Hd Hm. apply (@empty_payload_warns _ _ (VDict [])); [|reflexivity].
    unfold _parse_payload, encoded_data. rewrite Hd.
    destruct (truthy (VDict d)); cbn; [rewrite Hm|]; reflexivity.
  - intros d m encoded Hd Hm Hdata.
    apply (@empty_payload_warns _ _ (VDict [])); [|reflexivity].
    unfold _parse_payload, encoded_data. rewrite Hd.
    assert (T : truthy (VDict d) = true) by (destruct d; [discriminate|reflexivity]).
    rewrite T. cbn. rewrite Hm. cbn.
    destruct Hdata as [Hnone|[Hsome Hfalse]].
    + rewrite Hnone. reflexivity.
    + rewrite Hsome, Hfalse. reflexivity.
  - intros s raw decoded payload He Hb Hu Hj Hf.
    destruct (truthy (VStr s)) eqn:T.
    + apply (@empty_payload_warns _ _ payload); [|exact Hf].
      unfold _parse_payload. rewrite He. cbn [rbind]. rewrite T. cbn [negb].
      rewrite Hb. cbn. rewrite Hu. cbn. rewrite Hj. reflexivity.
    + apply (@empty_payload_warns _ _ (VDict [])); [|reflexivity].
      unfold _parse_payload. rewrite He. cbn [rbind]. rewrite T. reflexivity.
Qed.

End Payloads.

(** ** Invocations that stop early *)

Section Guarding.

Context {B : Builtins}.

Lemma guard_fires_run (cloud_event : CloudEvent) (w : World) (c b : float)
  (display : value) :
  guard_fires cloud_event w c b display ->
  handle_budget_alert cloud_event w
    = remediate (_to_bool (environ w "BUDGET_GUARD_DRY_RUN")) (fired_world w c b display).
Proof.
  intros (payload & t & Hp & Ht & Hc & Hb & Hth & Hd & Hvalid & Hfire).
  rewrite (handle_budget_alert_decoded cloud_event w Hp Ht Hc Hb Hth Hd).
  rewrite Hvalid. cbn zeta. rewrite Hfire. reflexivity.
Qed.

(** X6: a payload that is not empty and not a JSON object (a number, a
    string, a list, [true]) makes the handler raise [AttributeError] at the
    first [payload.get], before anything is logged or called. *)
Theorem scalar_payload_raises (cloud_event : CloudEvent) (w : World) (payload : value) :
  _parse_payload cloud_event = Ok payload ->
  truthy payload = true ->
  (forall d, payload <> VDict d) ->
  handle_budget_alert cloud_event w = Some (Raise AttributeError, w).
Proof.
  intros Hp Ht Hnd. unfold handle_budget_alert, bind, lift. rewrite Hp, Ht. cbn.
  destruct payload; try reflexivity. exfalso. exact (Hnd d eq_refl).
Qed.

(** X7: an amount that is [null], a list or an object raises [TypeError],
    a string that [float] rejects raises [ValueError], and so does a
    threshold that [float] rejects; each aborts the invocation with the
    world as it was, whatever the other values are. *)
Theorem amount_not_a_number_aborts (cloud_event : CloudEvent) (w : World)
  (d : list (string * value)) :
  _parse_payload cloud_event = Ok (VDict d) ->
  truthy (VDict d) = true ->
  (forall key v,
      dict_lookup d key = Some v ->
      (v = VNone \/ (exists l, v = VList l) \/ (exists o, v = VDict o)) ->
      amount (VDict d) key = Raise TypeError) /\
  (forall key s,
      dict_lookup d key = Some (VStr s) -> float_of_string s = None ->
      amount (VDict d) key = Raise ValueError) /\
  (forall e,
      amount (VDict d) "costAmount" = Raise e ->
      handle_budget_alert cloud_event w = Some (Raise e, w)) /\
  (forall c e,
      amount (VDict d) "costAmount" = Ok c ->
      amount (VDict d) "budgetAmount" = Raise e ->
      handle_budget_alert cloud_event w = Some (Raise e, w)) /\
  (forall c b,
      amount (VDict d) "costAmount" = Ok c ->
      amount (VDict d) "budgetAmount" = Ok b ->
      float_of_string (env_or w "BUDGET_STOP_THRESHOLD" "1.0") = None ->
      handle_budget_alert cloud_event w = Some (Raise ValueError, w)).
Proof.
  intros Hp Ht. repeat split.
  - intros key v Hk Hv. unfold amount. cbn. rewrite Hk.
    destruct Hv as [->|[[l ->]|[o ->]]]; reflexivity.
  - intros key s Hk Hs. unfold amount. cbn. rewrite Hk. cbn. rewrite Hs. reflexivity.
  - intros e Hc. unfold handle_budget_alert, bind, lift. rewrite Hp, Ht, Hc.
    reflexivity.
  - intros c e Hc Hb. unfold handle_budget_alert, bind, lift.
    rewrite Hp, Ht, Hc, Hb. reflexivity.
  - intros c b Hc Hb Hth. unfold handle_budget_alert, bind, lift, getenv_default.
    rewrite Hp, Ht, Hc, Hb. cbn. rewrite Hth. reflexivity.
Qed.

(** X8: a budget amount that is NaN is not caught by the test
    [budget_amount <= 0]: the ratio is NaN, no threshold is above it, and the
    handler goes on to remediation, for every cost amount and threshold. *)
Theorem nan_budget_remediates (cloud_event : CloudEvent) (w : World)
  (payload display : value) (c b t : float) :
  _parse_payload cloud_event = Ok payload ->
  truthy payload = true ->
  amount payload "costAmount" = Ok c ->
  amount payload "budgetAmount" = Ok b ->
  float_of_string (env_or w "BUDGET_STOP_THRESHOLD" "1.0") = Some t ->
  display_name_of payload = Ok display ->
  is_nan b = true ->
  is_nan (fdiv c b) = true /\
  handle_budget_alert cloud_event w
    = remediate (_to_bool (environ w "BUDGET_GUARD_DRY_RUN")) (fired_world w c b display).
Proof.
  intros Hp Ht Hc Hb Hth Hd Hnan.
  destruct b; try discriminate.
  assert (Hr : fdiv c S754_nan = S754_nan) by (destruct c; reflexivity).
  split; [rewrite Hr; reflexivity|].
  apply guard_fires_run. exists payload, t. repeat split; auto.
  rewrite Hr. reflexivity.
Qed.

Lemma remediate_unconfigured (dry_run : bool) (w : World) :
  configured_project w = EmptyString \/ configured_services w = [] ->
  remediate dry_run w = Some (Ok tt, emit (ELog ERROR LogMissingEnv) w).
Proof.
  unfold configured_project, configured_services, remediate, bind, getenv,
    getenv_default, log.
  intros [H|H].
  - destruct (environ w "GCP_PROJECT_ID") as [project|]; [|reflexivity].
    subst project. destruct (parse_services _); reflexivity.
  - rewrite H. destruct (environ w "GCP_PROJECT_ID"); reflexivity.
Qed.

(** X9: when the guard fires and the project is unset or empty, or no
    service is configured, the invocation logs the configuration error and
    returns normally: no credentials are asked for and no call is made. *)
Theorem missing_configuration_is_noop (cloud_event : CloudEvent) (w : World)
  (c b : float) (display : value) :
  guard_fires cloud_event w c b display ->
  configured_project w = EmptyString \/ configured_services w = [] ->
  handle_budget_alert cloud_event w
    = Some (Ok tt, emit (ELog ERROR LogMissingEnv) (fired_world w c b display)).
Proof.
  intros Hf Hc. rewrite (guard_fires_run Hf). apply remediate_unconfigured. exact Hc.
Qed.

Lemma remediate_configured (dry_run : bool) (w : World) :
  configured_project w <> EmptyString ->
  configured_services w <> [] ->
  remediate dry_run w =
    match acquire_clients w with
    | Some (Ok _, w0) =>
        match for_each (guard_service (configured_project w) (configured_region w)
                          dry_run)
                (configured_services w) w0 with
        | Some (Ok _, w2) =>
            Some (Ok tt,
                  emit (ELog INFO (LogFinished (length (configured_services w)))) w2)
        | Some (Raise e, w2) => Some (Raise e, w2)
        | None => None
        end
    | Some (Raise e, w0) => Some (Raise e, w0)
    | None => None
    end.
Proof.
  intros Hp Hs. unfold configured_project in *.
  destruct (environ w "GCP_PROJECT_ID") as [project|] eqn:E; [|contradiction].
  exact (@remediate_run dry_run w project E Hp Hs).
Qed.

(** X10: when the credentials or the API client cannot be set up, the
    exception of the client library is the result of the invocation and no
    service has been read, written, patched or polled. *)
Theorem setup_failure_touches_nothing (cloud_event : CloudEvent) (w w0 : World)
  (c b : float) (display : value) (e : exn) :
  guard_fires cloud_event w c b display ->
  configured_project w <> EmptyString ->
  configured_services w <> [] ->
  acquire_clients (fired_world w c b display) = Some (Raise e, w0) ->
  handle_budget_alert cloud_event w = Some (Raise e, w0) /\
  (exists info, e = ClientError info) /\
  exists tr,
    trace w0 = trace (fired_world w c b display) ++ tr /\
    Forall (fun ev => is_setup ev = true) tr /\
    Forall (fun ev => is_service_call ev = false) tr.
Proof.
  intros Hf Hp Hs Ha. split; [|split].
  - rewrite (guard_fires_run Hf).
    rewrite (@remediate_configured _ (fired_world w c b display) Hp Hs), Ha.
    reflexivity.
  - revert Ha. unfold acquire_clients, bind, external, ret.
    generalize (fired_world w c b display). intros w1.
    repeat match goal with
           | |- context [outcome_of (outcome ?r)] =>
               destruct (outcome r) as [?|info]; cbn [outcome_of];
               [|intros H; injection H as <- _; eauto]
           end.
    discriminate.
  - assert (E : emits (fun ev => is_setup ev = true) acquire_clients)
      by (apply acquire_clients_emits; reflexivity).
    destruct (E _ _ _ Ha) as (_ & _ & _ & tr & Ht & HF).
    exists tr. repeat split; auto.
    eapply Forall_impl; [|exact HF]. intros ev Hev. destruct ev; try discriminate;
      reflexivity.
Qed.

End Guarding.

(** ** The calls of a whole invocation *)

Lemma for_each_emits_in (P : Event -> Prop) (body : string -> M unit)
  (services : list string) :
  (forall service, In service services -> emits P (body service)) ->
  emits P (for_each body services).
Proof.
  induction services as [|s l IH]; intros Hb; cbn [for_each].
  - apply emits_ret.
  - apply emits_bind; [apply Hb; left; reflexivity|]. intros _.
    apply IH. intros service Hin. apply Hb. right. exact Hin.
Qed.

Lemma guard_service_emits (P : Event -> Prop) (project_id region : string)
  (dry_run : bool) (service : string) :
  let service_name := service_path project_id region service in
  P (ELog INFO (LogRestricting service_name)) ->
  emits P (_drop_public_invoker service_name dry_run) ->
  emits P (_restrict_ingress service_name dry_run) ->
  emits P (guard_service project_id region dry_run service).
Proof.
  intros service_name Hl Hd Hr. unfold guard_service. cbn zeta. fold service_name.
  apply emits_bind; [apply emits_log; exact Hl|]. intros _.
  apply emits_bind; [exact Hd|]. intros _. exact Hr.
Qed.

Lemma remediate_extends (P : Event -> Prop) (dry_run : bool) (w w' : World)
  (r : res unit) :
  (forall lvl record, P (ELog lvl record)) ->
  (forall ev, is_setup ev = true -> P ev) ->
  (forall service,
      In service (configured_services w) ->
      emits P (guard_service (configured_project w) (configured_region w)
                 dry_run service)) ->
  remediate dry_run w = Some (r, w') ->
  extends P w w'.
Proof.
  intros Hlog Hsetup Hbody H.
  destruct (string_dec (configured_project w) EmptyString) as [Hp|Hp].
  { rewrite remediate_unconfigured in H by (left; exact Hp).
    injection H as _ <-. apply extends_emit, Hlog. }
  destruct (configured_services w) as [|s l] eqn:Hs.
  { rewrite remediate_unconfigured in H by (right; exact Hs).
    injection H as _ <-. apply extends_emit, Hlog. }
  rewrite remediate_configured in H by (try exact Hp; rewrite Hs; discriminate).
  rewrite Hs in H.
  assert (Ha : emits P acquire_clients)
    by (apply acquire_clients_emits; apply Hsetup; reflexivity).
  destruct (acquire_clients w) as [[[[]|e] w0]|] eqn:Ea; try discriminate.
  - assert (Hf : emits P (for_each (guard_service (configured_project w)
                                      (configured_region w) dry_run) (s :: l)))
      by (apply for_each_emits_in; exact Hbody).
    destruct (for_each _ (s :: l) w0) as [[[[]|e] w2]|] eqn:Ef; try discriminate.
    + injection H as _ <-.
      eapply extends_trans; [exact (Ha _ _ _ Ea)|].
      eapply extends_trans; [exact (Hf _ _ _ Ef)|]. apply extends_emit, Hlog.
    + injection H as _ <-.
      eapply extends_trans; [exact (Ha _ _ _ Ea)|]. exact (Hf _ _ _ Ef).
  - injection H as _ <-. exact (Ha _ _ _ Ea).
Qed.

Lemma handle_budget_alert_extends {B : Builtins} (P : Event -> Prop)
  (cloud_event : CloudEvent) (w w' : World) (r : res unit) :
  (forall lvl record, P (ELog lvl record)) ->
  (forall ev, is_setup ev = true -> P ev) ->
  (forall service,
      In service (configured_services w) ->
      emits P (guard_service (configured_project w) (configured_region w)
                 (_to_bool (environ w "BUDGET_GUARD_DRY_RUN")) service)) ->
  handle_budget_alert cloud_event w = Some (r, w') ->
  extends P w w'.
Proof.
  intros Hlog Hsetup Hbody H.
  unfold handle_budget_alert, bind, lift, getenv_default, getenv, log in H.
  destruct (_parse_payload cloud_event) as [payload|e];
    [|injection H as _ <-; apply extends_refl].
  destruct (negb (truthy payload));
    [injection H as _ <-; apply extends_emit, Hlog|].
  destruct (amount payload "costAmount") as [c|e];
    [|injection H as _ <-; apply extends_refl].
  destruct (amount payload "budgetAmount") as [b|e];
    [|injection H as _ <-; apply extends_refl].
  destruct (of_option ValueError _) as [t|e];
    [|injection H as _ <-; apply extends_refl].
  destruct (fle b fzero);
    [injection H as _ <-; apply extends_emit, Hlog|].
  destruct (display_name_of payload) as [display|e];
    [|injection H as _ <-; apply extends_refl].
  destruct (flt (fdiv c b) t).
  - injection H as _ <-.
    eapply extends_trans; apply extends_emit, Hlog.
  - eapply extends_trans; [apply extends_emit, Hlog|].
    eapply remediate_extends; [exact Hlog|exact Hsetup| |exact H].
    exact Hbody.
Qed.

(** X11: an invocation comes to an end, and every policy read, policy write
    and patch it makes names a configured service of the configured project
    and region; every patch is the ingress patch to internal-only. *)
Theorem only_configured_services_touched {B : Builtins}
  (cloud_event : CloudEvent) (w : World) :
  exists r w' tr,
    handle_budget_alert cloud_event w = Some (r, w') /\
    trace w' = trace w ++ tr /\
    Forall (touches_only (configured_names w)) tr.
Proof.
  destruct (handle_budget_alert_total cloud_event w) as (r & w' & H).
  assert (E : extends (touches_only (configured_names w)) w w').
  { eapply handle_budget_alert_extends; [| | |exact H].
    - intros lvl record. exact I.
    - intros ev Hev. destruct ev; try discriminate; exact I.
    - intros service Hin.
      assert (Hname : In (service_path (configured_project w) (configured_region w)
                            service) (configured_names w))
        by (unfold configured_names; apply in_map; exact Hin).
      apply guard_service_emits.
      + exact I.
      + apply drop_public_invoker_emits; [exact Hname|exact I|].
        intros _ body. exact Hname.
      + apply restrict_ingress_emits; [exact I|].
        intros _. split; [|split].
        * split; [exact Hname|split; reflexivity].
        * exact I.
        * intros name. exact I. }
  destruct E as (_ & _ & _ & tr & Ht & HF). exists r, w', tr. auto.
Qed.

Lemma drop_public_invoker_safe (service_name : string) (dry_run : bool) :
  emits safe_write (_drop_public_invoker service_name dry_run).
Proof.
  intros w r w' H.
  unfold _drop_public_invoker, bind, external, lift, log, ret in H.
  destruct (outcome_of (outcome (next_reply w))) as [policy|e];
    [|injection H as _ <-; apply extends_after_call; exact I].
  destruct (rewrite_policy policy) as [[updated removed]|e] eqn:Hr;
    [|injection H as _ <-; apply extends_after_call; exact I].
  destruct removed; cbn [negb] in H;
    [|injection H as _ <-; apply extends_after_call; exact I].
  assert (Eget : extends safe_write w (after_call (EGetIamPolicy service_name) w))
    by (apply extends_after_call; exact I).
  destruct dry_run.
  { injection H as _ <-. eapply extends_trans; [exact Eget|].
    apply extends_emit. exact I. }
  destruct (py_setitem policy "bindings" (VList updated)) as [policy'|e] eqn:Hs;
    [|injection H as _ <-; exact Eget].
  assert (Hsafe : safe_write (ESetIamPolicy service_name (VDict [("policy", policy')]))).
  { pose proof (rewrite_policy_idempotent _ Hr Hs) as Hr'.
    apply rewrite_policy_spec in Hr'.
    destruct Hr' as (bs & images & Hb & _ & _ & Hnone).
    exists policy', bs. auto. }
  assert (E : extends safe_write w
                (after_call (ESetIamPolicy service_name (VDict [("policy", policy')]))
                   (after_call (EGetIamPolicy service_name) w))).
  { eapply extends_trans; [exact Eget|]. apply extends_after_call. exact Hsafe. }
  destruct (outcome_of _); injection H as _ <-; exact E.
Qed.

(** X12: every policy an invocation writes is free of the public invoker
    grant: no binding of the written policy grants the invoker role to
    [allUsers]. *)
Theorem written_policies_have_no_public_invoker {B : Builtins}
  (cloud_event : CloudEvent) (w : World) :
  exists r w' tr,
    handle_budget_alert cloud_event w = Some (r, w') /\
    trace w' = trace w ++ tr /\
    Forall safe_write tr.
Proof.
  destruct (handle_budget_alert_total cloud_event w) as (r & w' & H).
  assert (E : extends safe_write w w').
  { eapply handle_budget_alert_extends; [| | |exact H].
    - intros lvl record. exact I.
    - intros ev Hev. destruct ev; try discriminate; exact I.
    - intros service _. apply guard_service_emits.
      + exact I.
      + apply drop_public_invoker_safe.
      + apply restrict_ingress_emits; [exact I|].
        intros _. repeat split. }
  destruct E as (_ & _ & _ & tr & Ht & HF). exists r, w', tr. auto.
Qed.

(** ** How much an invocation changes *)













(** ** More on the policy editor *)

(** X14: when the read succeeds and the editor returns, its result tells
    whether the fetched policy granted the invoker role to [allUsers] in some
    binding; the policy is written exactly when it did and the run is not a
    dry run, and what is written is the fetched policy with the rewritten
    bindings. *)
Theorem editor_reports_public_grant (service_name : string) (dry_run : bool)
  (w w' : World) (policy : value) (bindings : list value) (v : bool) :
  outcome (next_reply w) = Returns policy ->
  bindings_of policy = Ok bindings ->
  _drop_public_invoker service_name dry_run w = Some (Ok v, w') ->
  v = existsb has_public bindings /\
  let w1 := after_call (EGetIamPolicy service_name) w in
  (v = false /\ w' = w1) \/
  (v = true /\ dry_run = true /\
   w' = emit (ELog INFO (LogDryRunInvoker service_name)) w1) \/
  (v = true /\ dry_run = false /\
   exists updated policy',
     rewrite_policy policy = Ok (updated, true) /\
     py_setitem policy "bindings" (VList updated) = Ok policy' /\
     w' = after_call (ESetIamPolicy service_name (VDict [("policy", policy')])) w1).
Proof.
  intros Ho Hb H.
  destruct (rewrite_policy policy) as [[updated removed]|e] eqn:Hr.
  2:{ unfold _drop_public_invoker, bind, external, lift in H.
      rewrite Ho in H. cbn [outcome_of] in H. rewrite Hr in H. discriminate. }
  rewrite (drop_public_invoker_run service_name dry_run w Ho Hr) in H.
  pose proof Hr as Hspec. apply rewrite_policy_spec in Hspec.
  destruct Hspec as (bs & images & Hb' & _ & _ & Hrem).
  rewrite Hb in Hb'. injection Hb' as <-. cbv zeta in H |- *.
  destruct removed; cbn [negb] in H.
  - destruct dry_run.
    + injection H as <- <-. split; [exact Hrem|]. right. left. auto.
    + destruct (py_setitem policy "bindings" (VList updated)) as [policy'|e] eqn:Hs;
        [|discriminate].
      destruct (outcome_of _); [|discriminate]. injection H as <- <-.
      split; [exact Hrem|]. right. right. repeat split. eauto.
  - injection H as <- <-. split; [exact Hrem|]. left. auto.
Qed.

Lemma Forall2_concat_In {A C} (R : A -> list C -> Prop) (l : list A)
  (images : list (list C)) (x : C) :
  Forall2 R l images -> In x (concat images) ->
  exists a image, In a l /\ R a image /\ In x image.
Proof.
  induction 1 as [|a image l' images' Ha _ IH]; cbn; [contradiction|].
  intros Hin. apply in_app_or in Hin. destruct Hin as [Hin|Hin].
  - exists a, image. auto.
  - destruct (IH Hin) as (a' & image' & Hin' & HR & Hx). exists a', image'. auto.
Qed.

(** X15: the rewrite changes nothing but what it is about: the written
    policy has every other field of the fetched policy (its etag, its
    version) as it was, and every binding of the result has every field but
    its members (its role, a condition) as its original has. *)
Theorem rewrite_keeps_other_fields (policy policy' : value) (updated : list value)
  (removed : bool) :
  rewrite_policy policy = Ok (updated, removed) ->
  py_setitem policy "bindings" (VList updated) = Ok policy' ->
  (forall key default,
      key <> "bindings" -> py_get policy' key default = py_get policy key default) /\
  exists bindings,
    bindings_of policy = Ok bindings /\
    Forall (fun copied =>
              exists original,
                In original bindings /\
                forall key default,
                  key <> "members" ->
                  py_get copied key default = py_get original key default)
           updated.
Proof.
  intros Hr Hs. split.
  - intros key default Hk. destruct policy as [| | | | |l|d]; try discriminate.
    cbn in Hs. injection Hs as <-. cbn.
    rewrite dict_lookup_set_other by exact Hk. reflexivity.
  - apply rewrite_policy_spec in Hr. destruct Hr as (bs & images & Hb & HF & -> & _).
    exists bs. split; [exact Hb|]. apply Forall_forall. intros copied Hin.
    destruct (Forall2_concat_In _ HF Hin) as (b & image & Hb' & Hw & Hx).
    exists b. split; [exact Hb'|]. intros key default Hk.
    inversion Hw; subst; cbn in Hx.
    + destruct Hx as [<-|[]]. reflexivity.
    + contradiction.
    + destruct Hx as [<-|[]].
      destruct b as [| | | | |l|d]; try discriminate.
      cbn in H2. injection H2 as <-. cbn.
      rewrite dict_lookup_set_other by exact Hk. reflexivity.
Qed.

Lemma rewritten_dict (binding : value) (image : list value) :
  rewritten binding image -> exists d, binding = VDict d.
Proof.
  intros Hw. inversion Hw; subst; eauto;
    destruct binding; try discriminate; eauto.
Qed.

(** X16: a policy that cannot be read or rewritten stops the service where
    it is: when the read fails, when the fetched policy is not an object or
    one of its bindings is not, or when the policy write fails, the exception
    is the result of the service's turn and its ingress patch is not
    attempted. *)
Theorem unreadable_policy_stops_service (project_id region : string)
  (dry_run : bool) (service : string) (w : World) :
  let name := service_path project_id region service in
  let w1 := emit (ELog INFO (LogRestricting name)) w in
  let w2 := after_call (EGetIamPolicy name) w1 in
  (forall info,
      outcome (next_reply w1) = Fails info ->
      guard_service project_id region dry_run service w
        = Some (Raise (ClientError info), w2)) /\
  (forall policy e,
      outcome (next_reply w1) = Returns policy ->
      rewrite_policy policy = Raise e ->
      guard_service project_id region dry_run service w = Some (Raise e, w2)) /\
  (forall policy,
      (forall d, policy <> VDict d) -> rewrite_policy policy = Raise AttributeError) /\
  (forall policy bindings binding,
      bindings_of policy = Ok bindings ->
      In binding bindings ->
      (forall d, binding <> VDict d) ->
      exists e, rewrite_policy policy = Raise e) /\
  (forall policy policy' updated info,
      outcome (next_reply w1) = Returns policy ->
      rewrite_policy policy = Ok (updated, true) ->
      py_setitem policy "bindings" (VList updated) = Ok policy' ->
      dry_run = false ->
      outcome (next_reply w2) = Fails info ->
      guard_service project_id region dry_run service w
        = Some (Raise (ClientError info),
                after_call (ESetIamPolicy name (VDict [("policy", policy')])) w2)).
Proof.
  intros name w1 w2. split; [|split; [|split; [|split]]].
  - intros info Ho. rewrite guard_service_run. cbv zeta. fold name. fold w1.
    unfold _drop_public_invoker, bind, external. rewrite Ho. reflexivity.
  - intros policy e Ho Hr. rewrite guard_service_run. cbv zeta. fold name. fold w1.
    unfold _drop_public_invoker, bind, external, lift. rewrite Ho. cbn [outcome_of].
    rewrite Hr. reflexivity.
  - intros policy Hnd. unfold rewrite_policy.
    destruct policy; try reflexivity. exfalso. exact (Hnd d eq_refl).
  - intros policy bindings binding Hb Hin Hnd.
    destruct (rewrite_policy policy) as [[updated removed]|e] eqn:Hr; [|eauto].
    exfalso. apply rewrite_policy_spec in Hr.
    destruct Hr as (bs & images & Hb' & HF & _ & _).
    rewrite Hb in Hb'. injection Hb' as <-.
    clear Hb. induction HF as [|b image l images' Hw _ IH]; [contradiction|].
    destruct Hin as [->|Hin]; [|exact (IH Hin)].
    destruct (rewritten_dict Hw) as (d & ->). exact (Hnd d eq_refl).
  - intros policy policy' updated info Ho Hr Hs -> Ho2.
    rewrite guard_service_run. cbv zeta. fold name. fold w1.
    rewrite (drop_public_invoker_run name false w1 Ho Hr). cbv zeta. cbn [negb].
    rewrite Hs. fold w2. rewrite Ho2. reflexivity.
Qed.

(** ** More on the restrictor and the waiter *)

(** X17: outside dry run the restrictor makes exactly one patch, the ingress
    patch of its service, before anything else; when the patch fails, or
    returns no operation name, nothing follows it; otherwise what follows are
    polls of the operation the patch returned, and sleeps, and the outcome is
    the outcome of the wait. *)
Theorem restrict_ingress_patches_once (service_name : string) (w : World) :
  let patch := EPatch service_name "ingress" ingress_body in
  let w1 := after_call patch w in
  exists r w' tr,
    _restrict_ingress service_name false w = Some (r, w') /\
    trace w' = trace w ++ patch :: tr /\
    Forall quiet tr /\
    (forall info,
        outcome (next_reply w) = Fails info ->
        r = Raise (ClientError info) /\ w' = w1) /\
    (forall operation name,
        outcome (next_reply w) = Returns operation ->
        py_get operation "name" VNone = Ok name ->
        (truthy name = false -> r = Ok tt /\ w' = w1) /\
        (truthy name = true ->
         _wait_operation name default_timeout_seconds w1 = Some (r, w') /\
         Forall (fun ev => ev = EGetOperation name \/ ev = ESleep 2) tr)).
Proof.
  intros patch w1.
  destruct (restrict_ingress_total service_name false w) as (r & w' & H).
  exists r, w'. pose proof H as H0.
  unfold _restrict_ingress, bind, external, lift, ret in H. fold patch w1 in H.
  assert (Z : trace w1 = trace w ++ [patch]) by reflexivity.
  destruct (outcome (next_reply w)) as [operation|info] eqn:Ho; cbn [outcome_of] in H.
  2:{ injection H as <- <-. exists [].
      split; [exact H0|]. split; [exact Z|]. split; [constructor|]. split.
      - intros info' E. injection E as <-. auto.
      - intros operation name E. discriminate. }
  destruct (py_get operation "name" VNone) as [name|e] eqn:Hn.
  2:{ injection H as <- <-. exists [].
      split; [exact H0|]. split; [exact Z|]. split; [constructor|]. split.
      - intros info E. discriminate.
      - intros operation' name E' Hn'. injection E' as <-.
        rewrite Hn in Hn'. discriminate. }
  destruct (truthy name) eqn:Ht.
  - assert (E : emits (fun ev => ev = EGetOperation name \/ ev = ESleep 2)
                  (_wait_operation name default_timeout_seconds))
      by (apply wait_operation_emits; auto).
    destruct (E _ _ _ H) as (_ & _ & _ & tr & Htr & HF).
    exists tr. split; [exact H0|]. split; [|split; [|split]].
    + rewrite Htr, Z, <- app_assoc. reflexivity.
    + eapply Forall_impl; [|exact HF]. intros ev [->| ->]; reflexivity.
    + intros info E'. discriminate.
    + intros operation' name' E' Hn'. injection E' as <-.
      rewrite Hn in Hn'. injection Hn' as <-. split; [congruence|].
      intros _. split; [exact H|exact HF].
  - injection H as <- <-. exists []. split; [exact H0|]. split; [exact Z|].
    split; [constructor|]. split; [intros info E'; discriminate|].
    intros operation' name' E' Hn'. injection E' as <-.
    rewrite Hn in Hn'. injection Hn' as <-. split; [auto|congruence].
Qed.

Lemma turns_clock_lower (name : value) (n : nat) :
  forall w, (clock w + 2 * inject_Z (Z.of_nat n) <= clock (turns name n w))%Q.
Proof.
  induction n as [|n IH]; intros w.
  - cbn [turns]. change (inject_Z (Z.of_nat 0)) with 0%Q. lra.
  - cbn [turns]. pose proof (IH (turn name w)) as H1.
    pose proof (turn_clock name w) as H2.
    rewrite Nat2Z.inj_succ, <- Z.add_1_r, inject_Z_plus.
    change (inject_Z 1) with 1%Q. lra.
Qed.

(** X18: the waiter is bounded: with a timeout that is not positive it
    raises the timeout at once, without a poll; otherwise the poll number
    [k + 1] is made only while [2 * k < timeout_seconds], so there are at most
    half the timeout, rounded up, of them; and the clock never goes back. *)
Theorem wait_operation_poll_bound (name : value) (timeout_seconds : Z) (w : World) :
  exists r w',
    _wait_operation name timeout_seconds w = Some (r, w') /\
    ((timeout_seconds <= 0)%Z -> r = Raise (TimeoutError name) /\ w' = w) /\
    (forall k, served w' = served w + S k -> (2 * Z.of_nat k < timeout_seconds)%Z) /\
    (clock w <= clock w')%Q.
Proof.
  unfold _wait_operation. cbv zeta.
  set (deadline := (clock w + inject_Z timeout_seconds)%Q).
  destruct (@wait_loop_run name deadline (wait_fuel timeout_seconds) w
              (wait_fuel_enough timeout_seconds (clock w)))
    as (n & Hpend & Hend).
  assert (Hbound : forall k, Qltb (clock (turns name k w)) deadline = true ->
                             (2 * Z.of_nat k < timeout_seconds)%Z).
  { intros k Hk. apply Qltb_true in Hk. pose proof (turns_clock_lower name k w) as Hl.
    unfold deadline in Hk. rewrite Zlt_Qlt, inject_Z_mult.
    change (inject_Z 2) with 2%Q. lra. }
  assert (Hnow : (timeout_seconds <= 0)%Z -> Qltb (clock w) deadline = false).
  { intros Hle. apply Qltb_false. unfold deadline. rewrite Zle_Qle in Hle.
    change (inject_Z 0) with 0%Q in Hle. lra. }
  assert (Hmono : forall k, (clock w <= clock (turns name k w))%Q).
  { intros k. pose proof (turns_clock_lower name k w) as Hl.
    assert (H0 : (0 <= Z.of_nat k)%Z) by lia. rewrite Zle_Qle in H0.
    change (inject_Z 0) with 0%Q in H0. lra. }
  destruct Hend as [[Hq Hrun]|[Hq (r & Hv & Hrun)]].
  - exists (Raise (TimeoutError name)), (turns name n w).
    split; [exact Hrun|]. split; [|split].
    + intros Hle. split; [reflexivity|].
      destruct n as [|n]; [reflexivity|].
      destruct (Hpend 0) as [_ H0]; [lia|]. cbn [turns] in H0.
      rewrite (Hnow Hle) in H0. discriminate.
    + intros k Hk. rewrite turns_served in Hk. apply Hbound.
      apply (Hpend k). lia.
    + apply Hmono.
  - exists r, (after_call (EGetOperation name) (turns name n w)).
    split; [exact Hrun|]. split; [|split].
    + intros Hle. exfalso.
      destruct n as [|n].
      * cbn [turns] in Hq. rewrite (Hnow Hle) in Hq. discriminate.
      * destruct (Hpend 0) as [_ H0]; [lia|]. cbn [turns] in H0.
        rewrite (Hnow Hle) in H0. discriminate.
    + intros k Hk. cbn [served after_call] in Hk. rewrite turns_served in Hk.
      apply Hbound. assert (k = n) as -> by lia. exact Hq.
    + cbn [clock after_call].
      pose proof (Hmono n) as H1.
      pose proof (seconds_nonneg (latency (next_reply (turns name n w)))) as H2.
      lra.
Qed.

(** ** What a completed invocation has done *)

Lemma policies_read_app (tr1 tr2 : list Event) :
  policies_read (tr1 ++ tr2) = policies_read tr1 ++ policies_read tr2.
Proof.
  induction tr1 as [|ev tr1 IH]; cbn; [reflexivity|].
  destruct ev; cbn; rewrite IH; reflexivity.
Qed.

Lemma patched_app (tr1 tr2 : list Event) :
  patched (tr1 ++ tr2) = patched tr1 ++ patched tr2.
Proof.
  induction tr1 as [|ev tr1 IH]; cbn; [reflexivity|].
  destruct ev; cbn; rewrite IH; reflexivity.
Qed.

Lemma plain_events (tr : list Event) :
  Forall (fun ev => is_read_or_patch ev = false) tr ->
  policies_read tr = [] /\ patched tr = [].
Proof.
  induction 1 as [|ev tr Hev _ [IH1 IH2]]; cbn; [auto|].
  destruct ev; cbn in *; try discriminate; auto.
Qed.

Lemma drop_public_invoker_trace (service_name : string) (dry_run : bool)
  (w w' : World) (r : res bool) :
  _drop_public_invoker service_name dry_run w = Some (r, w') ->
  exists tr,
    trace w' = trace w ++ EGetIamPolicy service_name :: tr /\
    Forall (fun ev => is_read_or_patch ev = false) tr.
Proof.
  intros H. unfold _drop_public_invoker in H. unfold bind at 1 in H.
  unfold external at 1 in H.
  set (w1 := after_call (EGetIamPolicy service_name) w) in *.
  assert (E : forall policy,
             emits (fun ev => is_read_or_patch ev = false)
               (bind (lift (rewrite_policy policy))
                  (fun rewritten =>
                     let '(updated_bindings, removed) := rewritten in
                     if negb removed then ret false
                     else if dry_run
                          then bind (log INFO (LogDryRunInvoker service_name))
                                 (fun _ => ret true)
                          else bind (lift (py_setitem policy "bindings"
                                             (VList updated_bindings)))
                                 (fun policy' =>
                                    bind (external
                                            (ESetIamPolicy service_name
                                               (VDict [("policy", policy')])))
                                      (fun _ => ret true))))).
  { intros policy. apply emits_bind; [apply emits_lift|]. intros [updated removed].
    destruct (negb removed); [apply emits_ret|]. destruct dry_run.
    - apply emits_bind; [apply emits_log; reflexivity|]. intros _. apply emits_ret.
    - apply emits_bind; [apply emits_lift|]. intros policy'.
      apply emits_bind; [apply emits_external; reflexivity|]. intros _.
      apply emits_ret. }
  destruct (outcome_of (outcome (next_reply w))) as [policy|e].
  - destruct (E policy _ _ _ H) as (_ & _ & _ & tr & Ht & HF).
    exists tr. split; [|exact HF]. rewrite Ht. unfold w1. cbn.
    rewrite <- app_assoc. reflexivity.
  - injection H as _ <-. exists []. split; [reflexivity|constructor].
Qed.

Lemma restrict_ingress_trace (service_name : string) (w w' : World) (r : res unit) :
  _restrict_ingress service_name false w = Some (r, w') ->
  exists tr,
    trace w' = trace w ++ EPatch service_name "ingress" ingress_body :: tr /\
    Forall (fun ev => is_read_or_patch ev = false) tr.
Proof.
  intros H. unfold _restrict_ingress in H. unfold bind at 1 in H.
  unfold external at 1 in H.
  set (w1 := after_call (EPatch service_name "ingress" ingress_body) w) in *.
  assert (E : forall operation,
             emits (fun ev => is_read_or_patch ev = false)
               (bind (lift (py_get operation "name" VNone))
                  (fun name =>
                     if truthy name
                     then _wait_operation name default_timeout_seconds
                     else ret tt))).
  { intros operation. apply emits_bind; [apply emits_lift|]. intros name.
    destruct (truthy name); [|apply emits_ret].
    apply wait_operation_emits; reflexivity. }
  destruct (outcome_of (outcome (next_reply w))) as [operation|e].
  - destruct (E operation _ _ _ H) as (_ & _ & _ & tr & Ht & HF).
    exists tr. split; [|exact HF]. rewrite Ht. unfold w1. cbn.
    rewrite <- app_assoc. reflexivity.
  - injection H as _ <-. exists []. split; [reflexivity|constructor].
Qed.

Lemma guard_service_calls (project_id region : string) (dry_run : bool)
  (service : string) (w w' : World) :
  guard_service project_id region dry_run service w = Some (Ok tt, w') ->
  let name := service_path project_id region service in
  exists tr,
    trace w' = trace w ++ tr /\
    policies_read tr = [name] /\
    patched tr = if dry_run then [] else [name].
Proof.
  intros H name. rewrite guard_service_run in H. cbv zeta in H. fold name in H.
  destruct (_drop_public_invoker name dry_run _) as [[[v|e] w1]|] eqn:Ed;
    try discriminate.
  destruct (drop_public_invoker_trace _ _ _ Ed) as (tr1 & T1 & F1).
  destruct (plain_events F1) as [R1 P1].
  destruct dry_run.
  - injection H as <-.
    exists (ELog INFO (LogRestricting name) :: EGetIamPolicy name :: tr1
            ++ [ELog INFO (LogDryRunIngress name)]).
    split; [|split].
    + cbn [emit trace]. rewrite T1. cbn [emit trace].
      rewrite <- !app_assoc. reflexivity.
    + cbn. rewrite policies_read_app, R1. reflexivity.
    + cbn. rewrite patched_app, P1. reflexivity.
  - destruct (restrict_ingress_trace _ _ H) as (tr2 & T2 & F2).
    destruct (plain_events F2) as [R2 P2].
    exists (ELog INFO (LogRestricting name) :: EGetIamPolicy name :: tr1
            ++ EPatch name "ingress" ingress_body :: tr2).
    split; [|split].
    + rewrite T2, T1. cbn [emit trace]. rewrite <- !app_assoc. reflexivity.
    + cbn. rewrite policies_read_app, R1. cbn. rewrite R2. reflexivity.
    + cbn. rewrite patched_app, P1. cbn. rewrite P2. reflexivity.
Qed.

Lemma for_each_calls (project_id region : string) (dry_run : bool)
  (services : list string) :
  forall w w',
    for_each (guard_service project_id region dry_run) services w = Some (Ok tt, w') ->
    exists tr,
      trace w' = trace w ++ tr /\
      policies_read tr = map (service_path project_id region) services /\
      patched tr = if dry_run then []
                   else map (service_path project_id region) services.
Proof.
  induction services as [|s l IH]; intros w w' H; cbn [for_each] in H.
  - injection H as <-. exists []. rewrite app_nil_r. destruct dry_run; auto.
  - unfold bind in H.
    destruct (guard_service project_id region dry_run s w) as [[[[]|e] w1]|] eqn:E;
      try discriminate.
    destruct (guard_service_calls _ _ _ _ _ E) as (tr1 & T1 & R1 & P1).
    destruct (IH _ _ H) as (tr2 & T2 & R2 & P2).
    exists (tr1 ++ tr2). split; [|split].
    + rewrite T2, T1, <- app_assoc. reflexivity.
    + rewrite policies_read_app, R1, R2. reflexivity.
    + rewrite patched_app, P1, P2. destruct dry_run; reflexivity.
Qed.

(** X19: when the guard has fired under a complete configuration and the
    invocation returns normally, it has read the policy of every configured
    service, once and in the order of the list, and, outside dry run, it has
    patched every one of them, once and in that order; under dry run it has
    patched none. *)
Theorem completed_invocation_covers_every_service {B : Builtins}
  (cloud_event : CloudEvent) (w w' : World) (c b : float) (display : value) :
  guard_fires cloud_event w c b display ->
  configured_project w <> EmptyString ->
  configured_services w <> [] ->
  handle_budget_alert cloud_event w = Some (Ok tt, w') ->
  exists tr,
    trace w' = trace w ++ tr /\
    policies_read tr = configured_names w /\
    patched tr = (if _to_bool (environ w "BUDGET_GUARD_DRY_RUN") then []
                  else configured_names w) /\
    last tr EBuild = ELog INFO (LogFinished (length (configured_services w))).
Proof.
  intros Hf Hp Hs H. rewrite (guard_fires_run Hf) in H.
  set (dry_run := _to_bool (environ w "BUDGET_GUARD_DRY_RUN")) in *.
  set (w1 := fired_world w c b display) in *.
  rewrite (@remediate_configured dry_run w1 Hp Hs) in H.
  destruct (acquire_clients w1) as [[[[]|e] w0]|] eqn:Ea; try discriminate.
  change (configured_project w1) with (configured_project w) in H.
  change (configured_region w1) with (configured_region w) in H.
  change (configured_services w1) with (configured_services w) in H.
  destruct (for_each _ (configured_services w) w0) as [[[[]|e] w2]|] eqn:Ef;
    try discriminate.
  injection H as <-.
  assert (Ha : emits (fun ev => is_read_or_patch ev = false) acquire_clients)
    by (apply acquire_clients_emits; reflexivity).
  destruct (Ha _ _ _ Ea) as (_ & _ & _ & tr0 & T0 & F0).
  destruct (plain_events F0) as [R0 P0].
  destruct (for_each_calls _ _ _ _ _ Ef) as (tr1 & T1 & R1 & P1).
  set (finished := ELog INFO (LogFinished (length (configured_services w)))).
  exists (ELog INFO (LogBudgetUpdate c b (fdiv c b) display)
          :: tr0 ++ tr1 ++ [finished]).
  split; [|split; [|split]].
  - cbn [emit trace]. rewrite T1, T0. unfold w1, fired_world. cbn [emit trace].
    rewrite <- !app_assoc. reflexivity.
  - cbn. rewrite !policies_read_app, R0, R1. cbn. rewrite app_nil_r. reflexivity.
  - cbn. rewrite !patched_app, P0, P1. cbn. rewrite app_nil_r.
    destruct dry_run; reflexivity.
  - change (ELog INFO (LogBudgetUpdate c b (fdiv c b) display)
            :: tr0 ++ tr1 ++ [finished])
      with ((ELog INFO (LogBudgetUpdate c b (fdiv c b) display) :: tr0)
            ++ tr1 ++ [finished]).
    rewrite app_assoc. apply last_last.
Qed.

(** ** The further theorems at concrete inputs *)

Lemma parse_services_join_witness :
  parse_services "web,my api" = ["web"; "my api"].
Proof.
  refine (@parse_services_join ["web"; "my api"] _).
  repeat constructor; apply clean_iff;
    (split; [discriminate|split; vm_compute; reflexivity]).
Defined.

Lemma service_path_injective_witness : web_name <> api_name.
Proof.
  refine (@service_path_injective "city" "us-central1" "web" "api" _).
  discriminate.
Defined.

Lemma nothing_to_do_on_empty_payload_witness :
  let w := world_of sample_env healthy_replies in
  handle_budget_alert (B := wider_builtins)
    {| ce_data := VDict [("message", VDict [("attributes", VDict [])])] |} w
  = Some (Ok tt, emit (ELog WARNING LogPayloadEmpty) w) /\
  handle_budget_alert (B := wider_builtins) (event_of b64_empty_object) w
  = Some (Ok tt, emit (ELog WARNING LogPayloadEmpty) w).
Proof.
  cbv zeta. split.
  - refine (proj1 (proj2 (proj2
              (@nothing_to_do_on_empty_payload wider_builtins
                 {| ce_data := VDict [("message", VDict [("attributes", VDict [])])] |}
                 (world_of sample_env healthy_replies))))
              [("message", VDict [("attributes", VDict [])])]
              [("attributes", VDict [])] VNone _ _ _);
      [reflexivity|reflexivity|left; reflexivity].
  - refine (proj2 (proj2 (proj2
              (@nothing_to_do_on_empty_payload wider_builtins
                 (event_of b64_empty_object)
                 (world_of sample_env healthy_replies))))
              b64_empty_object _ (text_of b64_empty_object) (VDict []) _ _ _ _ _);
      reflexivity.
Defined.

Lemma scalar_payload_raises_witness :
  let w := world_of sample_env healthy_replies in
  handle_budget_alert (B := wider_builtins) (event_of b64_list) w
  = Some (Raise AttributeError, w).
Proof.
  cbv zeta.
  refine (@scalar_payload_raises wider_builtins (event_of b64_list)
            (world_of sample_env healthy_replies) (VList [VInt 1]) _ _ _);
    [reflexivity|reflexivity|discriminate].
Defined.

Lemma amount_not_a_number_aborts_witness :
  let w := world_of sample_env healthy_replies in
  handle_budget_alert (B := wider_builtins) (event_of b64_null_cost) w
  = Some (Raise TypeError, w).
Proof.
  cbv zeta.
  refine (proj1 (proj2 (proj2
            (@amount_not_a_number_aborts wider_builtins (event_of b64_null_cost)
               (world_of sample_env healthy_replies)
               [("costAmount", VNone); ("budgetAmount", VInt 100)] _ _)))
            TypeError _); reflexivity.
Defined.

Lemma nan_budget_remediates_witness :
  let w := world_of sample_env healthy_replies in
  handle_budget_alert (B := wider_builtins) (event_of b64_nan_budget) w
  = remediate false (fired_world w (float_of_Z 120) S754_nan VNone).
Proof.
  cbv zeta.
  refine (proj2 (@nan_budget_remediates wider_builtins (event_of b64_nan_budget)
                   (world_of sample_env healthy_replies)
                   (VDict [("costAmount", VInt 120); ("budgetAmount", VFloat S754_nan)])
                   VNone (float_of_Z 120) S754_nan (float_of_Z 1) _ _ _ _ _ _ _));
    reflexivity.
Defined.

(** The sample event over budget fires the guard at the default threshold. *)
Lemma over_budget_fires (env : list (string * string)) (l : list answer) :
  table_lookup env "BUDGET_STOP_THRESHOLD" = None ->
  guard_fires (B := sample_builtins) (event_of b64_over) (world_of env l)
    (float_of_Z 120) (float_of_Z 100) VNone.
Proof.
  intros E.
  exists (VDict [("costAmount", VInt 120); ("budgetAmount", VInt 100)]), (float_of_Z 1).
  unfold env_or. cbn [environ world_of]. rewrite E.
  repeat split; vm_compute; reflexivity.
Defined.

Lemma missing_configuration_is_noop_witness :
  let w := world_of no_project_env healthy_replies in
  handle_budget_alert (B := sample_builtins) (event_of b64_over) w
  = Some (Ok tt,
          emit (ELog ERROR LogMissingEnv)
            (fired_world w (float_of_Z 120) (float_of_Z 100) VNone)).
Proof.
  cbv zeta.
  refine (@missing_configuration_is_noop sample_builtins (event_of b64_over)
            (world_of no_project_env healthy_replies)
            (float_of_Z 120) (float_of_Z 100) VNone _ _).
  - apply over_budget_fires. reflexivity.
  - left. reflexivity.
Defined.

Lemma setup_failure_touches_nothing_witness :
  let w := world_of sample_env [Returns VNone; Fails "refresh failed"] in
  let w1 := fired_world w (float_of_Z 120) (float_of_Z 100) VNone in
  handle_budget_alert (B := sample_builtins) (event_of b64_over) w
  = Some (Raise (ClientError "refresh failed"), world_after acquire_clients w1).
Proof.
  cbv zeta.
  refine (proj1 (@setup_failure_touches_nothing sample_builtins (event_of b64_over)
                   (world_of sample_env [Returns VNone; Fails "refresh failed"])
                   (world_after acquire_clients
                      (fired_world
                         (world_of sample_env [Returns VNone; Fails "refresh failed"])
                         (float_of_Z 120) (float_of_Z 100) VNone))
                   (float_of_Z 120) (float_of_Z 100) VNone
                   (ClientError "refresh failed") _ _ _ _)).
  - apply over_budget_fires. reflexivity.
  - discriminate.
  - vm_compute. discriminate.
  - vm_compute. reflexivity.
Defined.

Lemma editor_reports_public_grant_witness :
  let w := world_of [] [Returns public_policy; Returns private_policy] in
  true = existsb has_public
           [ grant "roles/run.admin" ["user:ops@example.com"; "allUsers"];
             grant "roles/run.invoker" ["allUsers"; "user:dev@example.com"];
             grant "roles/run.invoker" ["allUsers"] ].
Proof.
  cbv zeta.
  refine (proj1 (@editor_reports_public_grant web_name false
                   (world_of [] [Returns public_policy; Returns private_policy])
                   (world_after (_drop_public_invoker web_name false)
                      (world_of [] [Returns public_policy; Returns private_policy]))
                   public_policy _ true _ _ _)); reflexivity.
Defined.

Lemma rewrite_keeps_other_fields_witness :
  py_get private_policy "etag" VNone = py_get public_policy "etag" VNone.
Proof.
  refine (proj1 (@rewrite_keeps_other_fields public_policy private_policy
                   trimmed_bindings true _ _) "etag" VNone _);
    [reflexivity|reflexivity|discriminate].
Defined.

Lemma unreadable_policy_stops_service_witness :
  let w := world_of [] [Fails "403"] in
  guard_service "city" "us-central1" false "web" w
  = Some (Raise (ClientError "403"),
          after_call (EGetIamPolicy web_name)
            (emit (ELog INFO (LogRestricting web_name)) w)).
Proof.
  cbv zeta.
  refine (proj1 (@unreadable_policy_stops_service "city" "us-central1" false "web"
                   (world_of [] [Fails "403"])) "403" _).
  reflexivity.
Defined.

Lemma completed_invocation_covers_every_service_witness :
  let w := world_of sample_env healthy_replies in
  exists tr,
    trace (world_after (handle_budget_alert (B := sample_builtins) (event_of b64_over)) w)
    = trace w ++ tr /\
    policies_read tr = [web_name; api_name] /\
    patched tr = [web_name; api_name] /\
    last tr EBuild = ELog INFO (LogFinished 2).
Proof.
  cbv zeta.
  refine (@completed_invocation_covers_every_service sample_builtins
            (event_of b64_over) (world_of sample_env healthy_replies)
            (world_after (handle_budget_alert (B := sample_builtins) (event_of b64_over))
               (world_of sample_env healthy_replies))
            (float_of_Z 120) (float_of_Z 100) VNone _ _ _ _).
  - apply over_budget_fires. reflexivity.
  - discriminate.
  - vm_compute. discriminate.
  - vm_compute. reflexivity.
Defined.
